(** * number_game: the grid engine of [src/game/game_logic.py]

    A shallow embedding of class [Game2048] and the properties of its
    moves, scoring, win and game-over detection.

    Conventions of the embedding.
    - A cell of the Python grid is either an [int] or the string ['M'];
      Python integers are unbounded, hence [Z].  The empty cell is [Num 0].
    - The grid is a list of rows, rows are lists of cells.  Reading or
      writing [grid[i][j]] outside the lists raises [IndexError] in Python;
      the embedding keeps that outcome ([Raise IndexError]).  Every index
      the source computes is guarded to be non-negative, so indices are
      [nat] and Python's negative indexing never occurs.
    - Methods that mutate [self] live in the monad [Py]: a function from
      the instance to an outcome (normal return or raised exception)
      together with the instance as it is left at that moment.
    - [random.choice] and [random.random] are replaced by an explicit draw
      [rnd] handed to every method that spawns a tile.
    - The [saves] directory created by [__init__] is file-system glue and
      is left out. *)

From Stdlib Require Import ZArith Lia Bool.
From stdpp Require Import base list gmap strings.

Local Open Scope Z_scope.

(** ** Data *)

Inductive cell : Type :=
| Num (z : Z)
| M.

#[global] Instance cell_eq_dec : EqDecision cell.
Proof. solve_decision. Defined.

Definition is_M (c : cell) : bool :=
  match c with M => true | Num _ => false end.

Definition is_zero (c : cell) : bool :=
  match c with Num 0 => true | _ => false end.

Definition cell_eqb (a b : cell) : bool := bool_decide (a = b).

Record Game2048 : Type := mkGame {
  size : Z;
  grid : list (list cell);
  score : Z;
  high_score : Z;
  moves : Z;
  game_over : bool;
  won : bool
}.

Definition set_size (v : Z) (s : Game2048) : Game2048 :=
  mkGame v (grid s) (score s) (high_score s) (moves s) (game_over s) (won s).
Definition set_grid (v : list (list cell)) (s : Game2048) : Game2048 :=
  mkGame (size s) v (score s) (high_score s) (moves s) (game_over s) (won s).
Definition set_score (v : Z) (s : Game2048) : Game2048 :=
  mkGame (size s) (grid s) v (high_score s) (moves s) (game_over s) (won s).
Definition set_high_score (v : Z) (s : Game2048) : Game2048 :=
  mkGame (size s) (grid s) (score s) v (moves s) (game_over s) (won s).
Definition set_moves (v : Z) (s : Game2048) : Game2048 :=
  mkGame (size s) (grid s) (score s) (high_score s) v (game_over s) (won s).
Definition set_game_over (v : bool) (s : Game2048) : Game2048 :=
  mkGame (size s) (grid s) (score s) (high_score s) (moves s) v (won s).
Definition set_won (v : bool) (s : Game2048) : Game2048 :=
  mkGame (size s) (grid s) (score s) (high_score s) (moves s) (game_over s) v.

(** One draw of the random generator, as [add_new_tile] consumes it:
    [rnd_choice] selects the element [random.choice] returns (taken modulo
    the number of candidates, so that every index is a legal pick and every
    pick is some index), [rnd_small] is the outcome of
    [random.random() < 0.9]. *)
Record rnd : Type := mkRnd { rnd_choice : nat; rnd_small : bool }.

(** ** Exceptions and the method monad *)

Inductive exn : Type := IndexError | KeyError.

Inductive outcome (A : Type) : Type :=
| Return (a : A)
| Raise (e : exn).
Arguments Return {A} a.
Arguments Raise {A} e.

Definition obind {A B} (o : outcome A) (k : A -> outcome B) : outcome B :=
  match o with
  | Return a => k a
  | Raise e => Raise e
  end.

Notation "'let?' x ':=' c 'in' k" := (obind c (fun x => k))
  (at level 10, x name, c at level 100, k at level 200).

Definition Py (A : Type) : Type := Game2048 -> outcome A * Game2048.

Definition ret {A} (a : A) : Py A := fun s => (Return a, s).

Definition bind {A B} (c : Py A) (k : A -> Py B) : Py B :=
  fun s =>
    match c s with
    | (Return a, s') => k a s'
    | (Raise e, s') => (Raise e, s')
    end.

Definition get : Py Game2048 := fun s => (Return s, s).

Definition modify (f : Game2048 -> Game2048) : Py unit :=
  fun s => (Return tt, f s).

Definition lift {A} (o : outcome A) : Py A := fun s => (o, s).

Notation "'let*' x ':=' c 'in' k" := (bind c (fun x => k))
  (at level 10, x name, c at level 100, k at level 200).

Notation "c1 ';;' c2" := (bind c1 (fun _ => c2))
  (at level 100, c2 at level 200, right associativity).

(** ** Indexing *)

(** [l[i]] for a non-negative index. *)
Definition getitem {A} (l : list A) (i : nat) : outcome A :=
  match l !! i with
  | Some x => Return x
  | None => Raise IndexError
  end.

(** [grid[i][j]]. *)
Definition cell_at (g : list (list cell)) (i j : nat) : outcome cell :=
  let? row := getitem g i in getitem row j.

(** [grid[i][j] = v]; the row object is updated in place. *)
Definition set_cell (g : list (list cell)) (i j : nat) (v : cell)
  : outcome (list (list cell)) :=
  let? row := getitem g i in
  let? _ := getitem row j in
  Return (<[i := <[j := v]> row]> g).

(** [range(n)]: empty for [n <= 0]. *)
Definition range (n : Z) : list nat := seq 0 (Z.to_nat n).

(** The index pairs of [for i in range(n): for j in range(n)], in the
    order the loops visit them. *)
Definition cells_in_range (n : Z) : list (nat * nat) :=
  list_prod (range n) (range n).

(** The loop [for i .. for j .. if P(grid[i][j]): acc.append((i, j))]
    over the given index pairs. *)
Fixpoint collect (P : cell -> bool) (g : list (list cell))
    (ps : list (nat * nat)) : outcome (list (nat * nat)) :=
  match ps with
  | [] => Return []
  | (i, j) :: ps' =>
      let? c := cell_at g i j in
      let? acc := collect P g ps' in
      Return (if P c then (i, j) :: acc else acc)
  end.

(** ** is_game_over *)

(** [x in row]. *)
Definition contains (x : cell) (row : list cell) : bool :=
  existsb (cell_eqb x) row.

(** First loop of [is_game_over]: some row holds a [0] or an ['M']. *)
Definition has_empty_or_marker (g : list (list cell)) : bool :=
  existsb (fun row => contains (Num 0) row || contains M row) g.

(** The innermost loop over the four neighbours of a marker. *)
Fixpoint marker_neighbour (n : Z) (g : list (list cell)) (i j : nat)
    (ds : list (Z * Z)) : outcome bool :=
  match ds with
  | [] => Return false
  | (dr, dc) :: ds' =>
      let ni := Z.of_nat i + dr in
      let nj := Z.of_nat j + dc in
      if (0 <=? ni) && (ni <? n) && (0 <=? nj) && (nj <? n) then
        let? c := cell_at g (Z.to_nat ni) (Z.to_nat nj) in
        if cell_eqb c M then Return true else marker_neighbour n g i j ds'
      else marker_neighbour n g i j ds'
  end.

Definition four_neighbours : list (Z * Z) := [(-1, 0); (1, 0); (0, -1); (0, 1)].

(** Second loop of [is_game_over]: [Return false] at the first cell with an
    equal right or lower neighbour (or a marker next to a marker),
    [Return true] when the loop runs to its end. *)
Fixpoint no_merge_scan (n : Z) (g : list (list cell))
    (ps : list (nat * nat)) : outcome bool :=
  match ps with
  | [] => Return true
  | (i, j) :: ps' =>
      let? current := cell_at g i j in
      let? same_right :=
        (if Z.of_nat j + 1 <? n
         then let? c := cell_at g i (j + 1) in Return (cell_eqb c current)
         else Return false) in
      if same_right then Return false else
      let? same_below :=
        (if Z.of_nat i + 1 <? n
         then let? c := cell_at g (i + 1) j in Return (cell_eqb c current)
         else Return false) in
      if same_below then Return false else
      let? near :=
        (if cell_eqb current M
         then marker_neighbour n g i j four_neighbours
         else Return false) in
      if near then Return false else no_merge_scan n g ps'
  end.

Definition is_game_over (self : Game2048) : outcome bool :=
  if has_empty_or_marker (grid self) then Return false
  else no_merge_scan (size self) (grid self) (cells_in_range (size self)).

Definition check_game_over : Py bool :=
  let* self := get in
  let* over := lift (is_game_over self) in
  if over then modify (set_game_over true) ;; ret true
  else ret false.

(** ** Scoring *)

Definition cell_points (c : cell) : Z :=
  match c with
  | Num z => if 0 <? z then z else 0
  | M => 0
  end.

Definition row_points (row : list cell) : Z :=
  foldr (fun c acc => cell_points c + acc) 0 row.

Definition grid_points (g : list (list cell)) : Z :=
  foldr (fun row acc => row_points row + acc) 0 g.

Definition calculate_total_score (self : Game2048) : Z :=
  grid_points (grid self).

Definition update_score : Py unit :=
  let* self := get in
  modify (set_score (calculate_total_score self)) ;;
  let* self := get in
  if high_score self <? score self
  then modify (set_high_score (score self))
  else ret tt.

(** ** add_new_tile *)

Definition add_new_tile (r : rnd) : Py bool :=
  let* self := get in
  let* empty_cells :=
    lift (collect is_zero (grid self) (cells_in_range (size self))) in
  match empty_cells with
  | [] =>
      let* over := lift (is_game_over self) in
      (if over then modify (set_game_over true) else ret tt) ;;
      ret false
  | p :: ps =>
      let '(row, col) :=
        nth (rnd_choice r mod length (p :: ps))%nat (p :: ps) p in
      let value := if rnd_small r then Num 2 else Num 4 in
      let* g := lift (set_cell (grid self) row col value) in
      modify (set_grid g) ;;
      ret true
  end.

(** ** clear_surrounding_tiles *)

Definition three_offsets : list Z := [-1; 0; 1].

(** Body of the two innermost loops for one offset pair: inside the grid
    the cell's numeric value is added to the score and the cell is set to
    [0]. *)
Definition clear_cell (row col : nat) (dr dc : Z) : Py unit :=
  let* self := get in
  let new_row := Z.of_nat row + dr in
  let new_col := Z.of_nat col + dc in
  if (0 <=? new_row) && (new_row <? size self)
     && (0 <=? new_col) && (new_col <? size self) then
    let* c := lift (cell_at (grid self) (Z.to_nat new_row) (Z.to_nat new_col)) in
    (match c with
     | Num z => modify (set_score (score self + z))
     | M => ret tt
     end) ;;
    let* self := get in
    let* g := lift (set_cell (grid self) (Z.to_nat new_row) (Z.to_nat new_col) (Num 0)) in
    modify (set_grid g)
  else ret tt.

(** [for x in xs: body(x)]. *)
Fixpoint for_each {A} (xs : list A) (body : A -> Py unit) : Py unit :=
  match xs with
  | [] => ret tt
  | x :: xs' => body x ;; for_each xs' body
  end.

Definition clear_surrounding_tiles : Py unit :=
  let* self := get in
  let* m_positions :=
    lift (collect is_M (grid self) (cells_in_range (size self))) in
  for_each m_positions (fun '(row, col) =>
    for_each three_offsets (fun dr =>
      for_each three_offsets (fun dc =>
        clear_cell row col dr dc))).

(** ** move_left *)

(** The first inner loop: the non-empty values of the row, in order. *)
Definition compact (row : list cell) : list cell :=
  filter (fun val => val <> Num 0) row.

Definition double (c : cell) : cell :=
  match c with
  | Num z => Num (z * 2)
  | M => M
  end.

(** The [while i < len(new_row)] loop.  [flags] is the pair
    ([self.won], [special_merged]) the loop reads and updates. *)
Fixpoint merge_loop (new_row : list cell) (flags : bool * bool)
  : list cell * (bool * bool) :=
  match new_row with
  | [] => ([], flags)
  | x :: tl =>
      match tl with
      | y :: tl' =>
          if cell_eqb x y && negb (cell_eqb x M) then
            let merged_value := double x in
            let flags' :=
              if cell_eqb merged_value (Num 2048) && negb (fst flags)
              then (true, snd flags) else flags in
            let '(merged, out) := merge_loop tl' flags' in
            (merged_value :: merged, out)
          else if cell_eqb x M && cell_eqb y M then
            let '(merged, out) := merge_loop tl' (fst flags, true) in
            (Num 0 :: merged, out)
          else
            let '(merged, out) := merge_loop tl flags in
            (x :: merged, out)
      | [] => ([x], flags)
      end
  end.

(** One iteration of [for row in self.grid]: the new row and the updated
    flags. *)
Definition slide_row (n : Z) (row : list cell) (flags : bool * bool)
  : list cell * (bool * bool) :=
  let '(merged, out) := merge_loop (compact row) flags in
  (merged ++ replicate (Z.to_nat (n - Z.of_nat (length merged))) (Num 0), out).

(** The whole [for row in self.grid] loop: [new_grid], [moved] and the
    flags ([self.won], [special_merged]) after the last row. *)
Fixpoint slide_rows (n : Z) (rows : list (list cell)) (flags : bool * bool)
  : list (list cell) * bool * (bool * bool) :=
  match rows with
  | [] => ([], false, flags)
  | row :: rows' =>
      let '(merged, flags1) := slide_row n row flags in
      let '(new_grid, moved, flags2) := slide_rows n rows' flags1 in
      (merged :: new_grid, negb (bool_decide (merged = row)) || moved, flags2)
  end.

(** The statements of the [if moved or special_merged] block that come
    before the spawn. *)
Definition commit_move (new_grid : list (list cell)) (special_merged : bool)
  : Py unit :=
  (if special_merged then clear_surrounding_tiles else ret tt) ;;
  modify (set_grid new_grid) ;;
  let* self := get in
  modify (set_moves (moves self + 1)).

Definition move_left (r : rnd) : Py bool :=
  let* self := get in
  let '(new_grid, moved, (won', special_merged)) :=
    slide_rows (size self) (grid self) (won self, false) in
  modify (set_won won') ;;
  if moved || special_merged then
    commit_move new_grid special_merged ;;
    add_new_tile r ;;
    update_score ;;
    check_game_over ;;
    ret (moved || special_merged)
  else ret (moved || special_merged).

(** ** The other three directions *)

(** [[row[::-1] for row in grid]]. *)
Definition reverse_rows (g : list (list cell)) : list (list cell) :=
  map reverse g.

(** The list of columns, [list(row) for row in zip(...)] with the rows of
    the grid as the arguments of [zip]: [zip] stops at the shortest row, and
    [zip] of no rows yields nothing. *)
Fixpoint transpose (g : list (list cell)) : list (list cell) :=
  match g with
  | [] => []
  | row :: rows =>
      match rows with
      | [] => map (fun x => [x]) row
      | _ :: _ => zip_with cons row (transpose rows)
      end
  end.

Definition move_right (r : rnd) : Py bool :=
  let* self := get in
  let reversed_grid := reverse_rows (grid self) in
  modify (set_grid reversed_grid) ;;
  let* moved := move_left r in
  let* self := get in
  modify (set_grid (reverse_rows (grid self))) ;;
  ret moved.

Definition move_up (r : rnd) : Py bool :=
  let* self := get in
  let transposed := transpose (grid self) in
  modify (set_grid transposed) ;;
  let* moved := move_left r in
  let* self := get in
  modify (set_grid (transpose (grid self))) ;;
  ret moved.

Definition move_down (r : rnd) : Py bool :=
  let* self := get in
  let transposed := transpose (grid self) in
  let reversed_transposed := reverse_rows transposed in
  modify (set_grid reversed_transposed) ;;
  let* moved := move_left r in
  let* self := get in
  modify (set_grid (reverse_rows (grid self))) ;;
  let* self := get in
  modify (set_grid (transpose (grid self))) ;;
  ret moved.

Inductive direction : Type := Left | Right | Up | Down.

#[global] Instance direction_eq_dec : EqDecision direction.
Proof. solve_decision. Defined.

Definition move (d : direction) (r : rnd) : Py bool :=
  match d with
  | Left => move_left r
  | Right => move_right r
  | Up => move_up r
  | Down => move_down r
  end.

(** ** Construction, reset, state import *)

(** [[[0 for _ in range(n)] for _ in range(n)]]. *)
Definition empty_grid (n : Z) : list (list cell) :=
  replicate (Z.to_nat n) (replicate (Z.to_nat n) (Num 0)).

(** [Game2048(size)]: the fields as [__init__] assigns them, then the two
    spawns and the score.  The outcome is that of the constructor call. *)
Definition init (n : Z) (r1 r2 : rnd) : outcome unit * Game2048 :=
  (add_new_tile r1 ;; add_new_tile r2 ;; update_score)
    (mkGame n (empty_grid n) 0 0 0 false false).

Definition reset (r1 r2 : rnd) : Py unit :=
  let* self := get in
  modify (set_grid (empty_grid (size self))) ;;
  modify (set_score 0) ;;
  modify (set_moves 0) ;;
  modify (set_game_over false) ;;
  modify (set_won false) ;;
  add_new_tile r1 ;;
  add_new_tile r2 ;;
  update_score.

(** The dictionary handed to [set_state]: a key that is absent is [None].
    [state[k]] raises [KeyError] on an absent key, [state.get(k, 0)] does
    not. *)
Record saved : Type := mkSaved {
  s_grid : option (list (list cell));
  s_score : option Z;
  s_high_score : option Z;
  s_moves : option Z;
  s_game_over : option bool;
  s_won : option bool;
  s_size : option Z
}.

Definition subscript {A} (field : option A) : Py A :=
  match field with
  | Some v => ret v
  | None => lift (Raise KeyError)
  end.

Definition set_state (state : saved) : Py unit :=
  let* g := subscript (s_grid state) in
  modify (set_grid g) ;;
  let* sc := subscript (s_score state) in
  modify (set_score sc) ;;
  let* self := get in
  modify (set_high_score (Z.max (high_score self) (default 0 (s_high_score state)))) ;;
  let* mv := subscript (s_moves state) in
  modify (set_moves mv) ;;
  let* over := subscript (s_game_over state) in
  modify (set_game_over over) ;;
  let* w := subscript (s_won state) in
  modify (set_won w) ;;
  let* sz := subscript (s_size state) in
  modify (set_size sz).

(** [get_state] restricted to the fields [set_state] reads back. *)
Definition get_state (self : Game2048) : saved :=
  mkSaved (Some (grid self)) (Some (score self)) (Some (high_score self))
          (Some (moves self)) (Some (game_over self)) (Some (won self))
          (Some (size self)).

(** ** Well-formed instances *)

(** An [n] by [n] matrix. *)
Definition square (n : nat) (g : list (list cell)) : Prop :=
  length g = n /\ Forall (fun row => length row = n) g.

(** The data-model invariant: the grid is [size] by [size]. *)
Definition wf (self : Game2048) : Prop :=
  square (Z.to_nat (size self)) (grid self).

(** The cell at row [i], column [j], when there is one. *)
Definition lookup_cell (g : list (list cell)) (i j : nat) : option cell :=
  match g !! i with
  | Some row => row !! j
  | None => None
  end.

Definition has_empty (g : list (list cell)) : Prop :=
  exists i j, lookup_cell g i j = Some (Num 0).

(** Sum of a weight over all cells; the number of tiles and the score are
    instances. *)
Definition sum_row (f : cell -> Z) (row : list cell) : Z :=
  foldr (fun c acc => f c + acc) 0 row.

Definition sum_cells (f : cell -> Z) (g : list (list cell)) : Z :=
  foldr (fun row acc => sum_row f row + acc) 0 g.

Definition tile_weight (c : cell) : Z := if is_zero c then 0 else 1.

(** The number of non-empty cells, markers included. *)
Definition tiles (g : list (list cell)) : Z := sum_cells tile_weight g.

(** ** Reasoning about methods that return normally *)

(** [returns c s Q]: run on [s], the method [c] raises nothing, and its
    result and final instance satisfy [Q]. *)
Definition returns {A} (c : Py A) (s : Game2048)
    (Q : A -> Game2048 -> Prop) : Prop :=
  exists a s', c s = (Return a, s') /\ Q a s'.

(** ** The terminal condition *)

(** Two positions next to each other in a row or in a column. *)
Definition adjacent (p q : nat * nat) : Prop :=
  (fst p = fst q /\ (snd q = S (snd p) \/ snd p = S (snd q))) \/
  (snd p = snd q /\ (fst q = S (fst p) \/ fst p = S (fst q))).

Definition no_empty_cell (g : list (list cell)) : Prop :=
  forall i j, lookup_cell g i j <> Some (Num 0).

Definition no_equal_neighbours (g : list (list cell)) : Prop :=
  forall p q c, adjacent p q ->
    lookup_cell g (fst p) (snd p) = Some c ->
    lookup_cell g (fst q) (snd q) <> Some c.

Definition no_adjacent_markers (g : list (list cell)) : Prop :=
  forall p q, adjacent p q ->
    lookup_cell g (fst p) (snd p) = Some M ->
    lookup_cell g (fst q) (snd q) <> Some M.

Definition no_marker (g : list (list cell)) : Prop :=
  forall i j, lookup_cell g i j <> Some M.

(** The terminal condition as the specification words it. *)
Definition spec_terminal (g : list (list cell)) : Prop :=
  no_empty_cell g /\ no_equal_neighbours g /\ no_adjacent_markers g.

(** The terminal condition [is_game_over] decides: a marker anywhere keeps
    the game going. *)
Definition terminal (g : list (list cell)) : Prop :=
  no_empty_cell g /\ no_marker g /\ no_equal_neighbours g.

(** ** Frames and intermediate grids of a move *)

(** Everything but the grid, the score and the game-over flag is the
    same. *)
Definition same_frame (s s' : Game2048) : Prop :=
  size s' = size s /\ high_score s' = high_score s /\ moves s' = moves s /\
  won s' = won s.

(** [new_grid] as [move_left] computes it from the instance. *)
Definition slid (self : Game2048) : list (list cell) :=
  fst (fst (slide_rows (size self) (grid self) (won self, false))).

(** The grid a directional move hands to [move_left]. *)
Definition to_frame (d : direction) (g : list (list cell)) : list (list cell) :=
  match d with
  | Left => g
  | Right => reverse_rows g
  | Up => transpose g
  | Down => reverse_rows (transpose g)
  end.

Definition in_frame (d : direction) (self : Game2048) : Game2048 :=
  set_grid (to_frame d (grid self)) self.

(** What a successful [add_new_tile] does to the instance: one empty cell
    receives a 2 or a 4; and what a failed one does: the grid is full and
    only the game-over flag may change. *)
Definition spawn_post (s : Game2048) (b : bool) (s' : Game2048) : Prop :=
  if b then
    exists i j row v,
      grid s !! i = Some row /\ row !! j = Some (Num 0) /\
      (v = Num 2 \/ v = Num 4) /\
      s' = set_grid (<[i := <[j := v]> row]> (grid s)) s
  else
    ~ has_empty (grid s) /\
    exists over, is_game_over s = Return over /\
      s' = if over then set_game_over true s else s.

(** What a move in direction [d] leaves behind on a well-formed instance:
    a refused move changes nothing; an accepted one has slid the grid,
    found an empty cell, spawned exactly one tile and recomputed the
    score. *)
Definition move_post (d : direction) (s : Game2048) (b : bool)
    (s' : Game2048) : Prop :=
  wf s' /\ size s' = size s /\
  (b = false -> s' = s) /\
  (b = true ->
     score s' = grid_points (grid s') /\
     has_empty (slid (in_frame d s)) /\
     tiles (grid s') = tiles (slid (in_frame d s)) + 1 /\
     moves s' = moves s + 1).

(** ** The directional moves as the specification derives them *)

(** One grid transformation applied to the instance. *)
Definition with_grid (f : list (list cell) -> list (list cell)) : Py unit :=
  let* self := get in modify (set_grid (f (grid self))).

(** Right: reverse the rows, move left, reverse the rows. *)
Definition spec_right (r : rnd) : Py bool :=
  with_grid reverse_rows ;;
  let* moved := move_left r in
  with_grid reverse_rows ;;
  ret moved.

(** Up: transpose, move left, transpose. *)
Definition spec_up (r : rnd) : Py bool :=
  with_grid transpose ;;
  let* moved := move_left r in
  with_grid transpose ;;
  ret moved.

(** Down: transpose, reverse the rows, move left, reverse the rows,
    transpose. *)
Definition spec_down (r : rnd) : Py bool :=
  with_grid transpose ;;
  with_grid reverse_rows ;;
  let* moved := move_left r in
  with_grid reverse_rows ;;
  with_grid transpose ;;
  ret moved.

(** A move carried out in another frame: transform, run, transform back. *)
Definition conjugate (f finv : list (list cell) -> list (list cell))
    (m : Py bool) : Py bool :=
  with_grid f ;;
  let* moved := m in
  with_grid finv ;;
  ret moved.

(** The transformation that undoes [to_frame]. *)
Definition from_frame (d : direction) (g : list (list cell)) : list (list cell) :=
  match d with
  | Left => g
  | Right => reverse_rows g
  | Up => transpose g
  | Down => transpose (reverse_rows g)
  end.

(** ** Sequences of operations on one instance *)

Inductive op : Type :=
| OpMove (d : direction) (r : rnd)
| OpReset (r1 r2 : rnd)
| OpSetState (state : saved).

(** The instance after one operation; when the operation raises, the
    instance is the one the exception leaves behind. *)
Definition run_op (o : op) (s : Game2048) : Game2048 :=
  match o with
  | OpMove d r => snd (move d r s)
  | OpReset r1 r2 => snd (reset r1 r2 s)
  | OpSetState state => snd (set_state state s)
  end.

Definition run_ops (os : list op) (s : Game2048) : Game2048 :=
  foldl (fun acc o => run_op o acc) s os.

Definition is_move (o : op) : Prop :=
  match o with OpMove _ _ => True | _ => False end.

(** The instances that construction, moves and resets can produce. *)
Inductive reachable : Game2048 -> Prop :=
| reach_init n r1 r2 : reachable (snd (init n r1 r2))
| reach_move s d r : reachable s -> reachable (snd (move d r s))
| reach_reset s r1 r2 : reachable s -> reachable (snd (reset r1 r2 s)).

(** [respects R c]: whatever the outcome, the instance [c] leaves behind is
    related by [R] to the one it started from. *)
Definition respects (R : Game2048 -> Game2048 -> Prop) {A} (c : Py A) : Prop :=
  forall s, R s (snd (c s)).

Definition raises_high_score (s s' : Game2048) : Prop :=
  high_score s <= high_score s'.

Definition keeps_won (s s' : Game2048) : Prop := won s' = won s.

(** ** Merges that win *)

(** The values the left-to-right scan of a compacted row produces by
    merging two equal numbers, in the order of the scan. *)
Fixpoint merged_values (new_row : list cell) : list cell :=
  match new_row with
  | [] => []
  | x :: tl =>
      match tl with
      | y :: tl' =>
          if cell_eqb x y && negb (cell_eqb x M) then double x :: merged_values tl'
          else if cell_eqb x M && cell_eqb y M then merged_values tl'
          else merged_values tl
      | [] => []
      end
  end.

(** Some merge of a left move on this grid yields exactly 2048. *)
Definition is_2048 (v : cell) : bool := cell_eqb v (Num 2048).

Definition makes_2048 (g : list (list cell)) : bool :=
  existsb (fun row => existsb is_2048 (merged_values (compact row))) g.

(** The part of [move_left] that follows the loop over the rows. *)
Definition after_slide (r : rnd) (new_grid : list (list cell))
    (moved special_merged : bool) : Py bool :=
  if moved || special_merged then
    commit_move new_grid special_merged ;;
    add_new_tile r ;;
    update_score ;;
    check_game_over ;;
    ret (moved || special_merged)
  else ret (moved || special_merged).

(** ** Sample instances *)

Definition r0 : rnd := mkRnd 0 true.

(** A full 2 by 2 grid with a marker, no two equal neighbours. *)
Definition marker_grid : Game2048 :=
  mkGame 2 [[M; Num 2]; [Num 4; Num 8]] 14 14 5 false false.

(** A full 2 by 2 grid of numbers, no two equal neighbours. *)
Definition stuck_grid : Game2048 :=
  mkGame 2 [[Num 2; Num 4]; [Num 4; Num 2]] 12 12 5 false false.

(** Scenario C of the specification, with a tile below the markers. *)
Definition scenario_C : Game2048 :=
  mkGame 4 [[M; M; Num 4; Num 0];
            [Num 2; Num 0; Num 0; Num 0];
            [Num 0; Num 0; Num 0; Num 0];
            [Num 0; Num 0; Num 0; Num 0]] 6 6 0 false false.

(** An instance that has won, and a saved state that has not. *)
Definition winner : Game2048 :=
  mkGame 2 [[Num 2048; Num 0]; [Num 0; Num 2]] 2050 2050 900 false true.

Definition fresh_save : saved :=
  get_state (mkGame 2 [[Num 2; Num 0]; [Num 0; Num 2]] 4 4 0 false false).

(** ** The room registry of [src/server/flask_app.py]

    [handle_join_room] tests [room_id not in rooms], and when the test
    succeeds builds [Game2048(4)] and stores the new entry; it then uses
    [rooms[room_id]].  [index] does the same on [games].  The server runs its
    handlers on threads ([async_mode='threading'], a thread pool) and takes
    no lock, so another handler may run between any two of these statements:
    a handler is modelled by its program counter, the server by the
    interleavings of its handlers' steps.  A [Game2048] object is identified
    by the number of objects constructed before it. *)

Record registry : Type := mkRegistry {
  rooms : gmap string nat;
  constructed : nat
}.

Inductive pc : Type :=
| AtTest
| AtCreate
| AtUse
| Finished (received : option nat).

Record handler : Type := mkHandler { room_id : string; at_pc : pc }.

(** One statement of a handler. *)
Definition handler_step (h : handler) (reg : registry)
  : option (handler * registry) :=
  match at_pc h with
  | AtTest =>
      match rooms reg !! room_id h with
      | None => Some (mkHandler (room_id h) AtCreate, reg)
      | Some _ => Some (mkHandler (room_id h) AtUse, reg)
      end
  | AtCreate =>
      Some (mkHandler (room_id h) AtUse,
            mkRegistry (<[room_id h := constructed reg]> (rooms reg))
                       (S (constructed reg)))
  | AtUse =>
      Some (mkHandler (room_id h) (Finished (rooms reg !! room_id h)), reg)
  | Finished _ => None
  end.

Record server : Type := mkServer {
  registry_of : registry;
  handlers : list handler
}.

(** Any handler that has a statement left may run it next. *)
Inductive server_step : server -> server -> Prop :=
| step_handler i h h' reg' srv :
    handlers srv !! i = Some h ->
    handler_step h (registry_of srv) = Some (h', reg') ->
    server_step srv (mkServer reg' (<[i := h']> (handlers srv))).

(** A handler run without interruption, for at most [fuel] statements. *)
Fixpoint run_handler (fuel : nat) (h : handler) (reg : registry)
  : handler * registry :=
  match fuel with
  | O => (h, reg)
  | S fuel' =>
      match handler_step h reg with
      | Some (h', reg') => run_handler fuel' h' reg'
      | None => (h, reg)
      end
  end.

(** [handle_join_room] as one uninterrupted call: what the caller ends up
    with, and the registry afterwards. *)
Definition handle_join_room (key : string) (reg : registry)
  : pc * registry :=
  let '(h, reg') := run_handler 3 (mkHandler key AtTest) reg in
  (at_pc h, reg').

(** Calls served one after the other. *)
Fixpoint serve_in_turn (keys : list string) (reg : registry)
  : list pc * registry :=
  match keys with
  | [] => ([], reg)
  | key :: keys' =>
      let '(got, reg1) := handle_join_room key reg in
      let '(rest, reg2) := serve_in_turn keys' reg1 in
      (got :: rest, reg2)
  end.

Definition no_rooms : registry := mkRegistry ∅ 0.

Definition two_joiners : server :=
  mkServer no_rooms [mkHandler "default" AtTest; mkHandler "default" AtTest].

(** ** Further methods of [Game2048] *)

(** The integer of a numeric cell ([isinstance(val, int)]). *)
Definition cell_number (c : cell) : option Z :=
  match c with
  | Num z => Some z
  | M => None
  end.

(** [max] of a non-empty sequence; on an empty one Python raises
    [ValueError], here [None]. *)
Definition py_max (l : list Z) : option Z :=
  match l with
  | [] => None
  | x :: xs => Some (foldl Z.max x xs)
  end.

(** The inner generator of [get_max_tile] for one row: the row is skipped
    when it holds no integer, otherwise it yields the largest of them. *)
Definition row_max (row : list cell) : option Z :=
  py_max (omap cell_number row).

(** [get_max_tile]: the [ValueError] of the outer [max] is caught and
    answered with [0]. *)
Definition get_max_tile (self : Game2048) : Z :=
  match py_max (omap row_max (grid self)) with
  | Some m => m
  | None => 0
  end.

Definition check_auto_save (self : Game2048) : bool :=
  let max_tile := get_max_tile self in
  (2048 <=? max_tile) && (max_tile mod 2048 =? 0).

Definition get_empty_cells (self : Game2048) : outcome (list (nat * nat)) :=
  collect is_zero (grid self) (cells_in_range (size self)).

(** [a or b] on method calls: [b] runs only when [a] returned [False]. *)
Definition or_else (a b : Py bool) : Py bool :=
  let* x := a in if x then ret true else b.

(** [can_move]: the four trial moves run on a deep copy, so [self] is left
    as it is whatever they do; each trial move has its own draw. *)
Definition can_move (r1 r2 r3 r4 : rnd) : Py bool :=
  let* self := get in
  let* over := lift (is_game_over self) in
  if negb over then ret true
  else
    let temp_game := self in
    lift (fst (or_else (move_left r1)
                (or_else (move_right r2)
                  (or_else (move_up r3) (move_down r4))) temp_game)).

(** [moved] as [move_left] computes it from the instance. *)
Definition slide_moved (self : Game2048) : bool :=
  snd (fst (slide_rows (size self) (grid self) (won self, false))).

(** Weight 1 on the empty cells: their sum is the number of empty cells. *)
Definition empty_weight (c : cell) : Z := if is_zero c then 1 else 0.

(** ** What an accepted move leaves behind *)

(** The fields that neither the clearing of the marker neighbourhoods nor
    the replacement of the grid touches. *)
Definition keeps_flags (s s' : Game2048) : Prop :=
  size s' = size s /\ high_score s' = high_score s /\
  game_over s' = game_over s /\ won s' = won s.

(** The instance [s'] an accepted move in direction [d] leaves behind when
    run on [s]: the grid is the slid grid with one of its empty cells set to
    2 or to 4, carried back from the frame of the move; the score is the
    total of the cells before the move plus the new tile. *)
Definition accepted_post (d : direction) (s s' : Game2048) : Prop :=
  exists i j row v,
    slid (in_frame d s) !! i = Some row /\ row !! j = Some (Num 0) /\
    (v = 2 \/ v = 4) /\
    grid s' = from_frame d (<[i := <[j := Num v]> row]> (slid (in_frame d s))) /\
    score s' = grid_points (grid s) + v /\
    high_score s' = Z.max (high_score s) (score s') /\
    moves s' = moves s + 1 /\ size s' = size s /\
    won s' = won s || makes_2048 (to_frame d (grid s)) /\
    (game_over s' = true <-> game_over s = true \/ terminal (grid s')).

(** ** The cells of a game that was played *)

(** A cell of the standard game: empty, or a power of two from 2 on. *)
Definition standard_cell (c : cell) : Prop :=
  c = Num 0 \/ exists k : nat, (0 < k)%nat /\ c = Num (2 ^ Z.of_nat k).

Definition all_cells (P : cell -> Prop) (g : list (list cell)) : Prop :=
  forall i j c, lookup_cell g i j = Some c -> P c.

(** What construction, moves and resets keep. *)
Definition played (s : Game2048) : Prop :=
  wf s /\ all_cells standard_cell (grid s) /\
  (1 <= size s -> 1 <= tiles (grid s)).

(** ** What clear_surrounding_tiles leaves behind *)

(** The integer [clear_surrounding_tiles] adds to the score for a cell it
    clears: the value of a number, nothing for a marker. *)
Definition cell_value (c : cell) : Z :=
  match c with
  | Num z => z
  | M => 0
  end.

(** Position [(i, j)] is that of a marker of [g] or of one of its eight
    neighbours. *)
Definition near_marker (g : list (list cell)) (i j : nat) : Prop :=
  exists r c, lookup_cell g r c = Some M /\
    (r <= S i)%nat /\ (i <= S r)%nat /\ (c <= S j)%nat /\ (j <= S c)%nat.

(** The invariant of the clearing loops, started on [s0]: the positions in
    [T] have been cleared, the other cells are as they were, and what left
    the grid went to the score. *)
Definition cleared (s0 : Game2048) (T : Z * Z -> Prop) (s : Game2048) : Prop :=
  wf s /\ same_frame s0 s /\ game_over s = game_over s0 /\
  score s + sum_cells cell_value (grid s) =
    score s0 + sum_cells cell_value (grid s0) /\
  forall i j c, lookup_cell (grid s0) i j = Some c ->
    (T (Z.of_nat i, Z.of_nat j) -> lookup_cell (grid s) i j = Some (Num 0)) /\
    (~ T (Z.of_nat i, Z.of_nat j) -> lookup_cell (grid s) i j = Some c).

(** ** Handlers of [join_room] under any interleaving *)

(** A handler that may still construct an instance. *)
Definition pending (h : handler) : nat :=
  match at_pc h with
  | AtTest | AtCreate => 1
  | AtUse | Finished _ => 0
  end.

Definition pending_total (hs : list handler) : nat :=
  foldr (fun h acc => (pending h + acc)%nat) 0%nat hs.

(** A handler about to read [rooms[room_id]] finds the key, and one that is
    done has received an instance. *)
Definition served (reg : registry) (h : handler) : Prop :=
  match at_pc h with
  | AtTest | AtCreate => True
  | AtUse => is_Some (rooms reg !! room_id h)
  | Finished r => is_Some r
  end.

(** ** The arrow keys of the desktop window

    [keyPressEvent] of [src/game/local_game_window.py], for an arrow key, as
    far as the [Game2048] object is concerned and up to the point where the
    handler opens its dialogs ([show_game_over], [show_game_won]): when the
    game is not over the move is made, and when it was accepted the handler
    itself calls [add_new_tile] and [update_score] once more, then tests
    [is_game_over] and sets the flag. *)
Definition arrow_key (d : direction) (r r' : rnd) : Py unit :=
  let* self := get in
  if negb (game_over self) then
    let* moved := move d r in
    if moved then
      add_new_tile r' ;;
      update_score ;;
      let* self := get in
      let* over := lift (is_game_over self) in
      if over then modify (set_game_over true) else ret tt
    else ret tt
  else ret tt.

(** A 2 by 2 grid whose first row merges on a left move. *)
Definition two_in_a_row : Game2048 :=
  mkGame 2 [[Num 2; Num 2]; [Num 0; Num 0]] 4 4 0 false false.

(** ** get_animated_moves *)

(** One animation frame: the dictionary with the keys [grid], [score] and
    [moves]. *)
Record frame : Type := mkFrame {
  f_grid : list (list cell);
  f_score : Z;
  f_moves : Z
}.

(** [get_animated_moves(direction)]: the grid is copied, the move named by
    the string is made (any other string makes none) and its result is
    dropped; both frames are built after the move. *)
Definition get_animated_moves (direction : string) (r : rnd) : Py (list frame) :=
  let* self := get in
  let original_grid := grid self in
  (if decide (direction = "left") then move_left r ;; ret tt
   else if decide (direction = "right") then move_right r ;; ret tt
   else if decide (direction = "up") then move_up r ;; ret tt
   else if decide (direction = "down") then move_down r ;; ret tt
   else ret tt) ;;
  let* self := get in
  ret [mkFrame original_grid (score self) (moves self);
       mkFrame (grid self) (score self) (moves self)].

(** The direction a string names. *)
Definition direction_of (name : string) : option direction :=
  if decide (name = "left") then Some Left
  else if decide (name = "right") then Some Right
  else if decide (name = "up") then Some Up
  else if decide (name = "down") then Some Down
  else None.

(** * Properties *)

(** ** Sample runs *)

(** Scenario A of the specification: the pair merges, the 2 is the spawn. *)
Example move_left_scenario_A :
  move_left r0
    (mkGame 4 [[Num 2; Num 2; Num 0; Num 0];
               [Num 0; Num 0; Num 0; Num 0];
               [Num 0; Num 0; Num 0; Num 0];
               [Num 0; Num 0; Num 0; Num 0]] 4 4 0 false false) =
  (Return true,
   mkGame 4 [[Num 4; Num 2; Num 0; Num 0];
             [Num 0; Num 0; Num 0; Num 0];
             [Num 0; Num 0; Num 0; Num 0];
             [Num 0; Num 0; Num 0; Num 0]] 6 6 1 false false).
Proof. reflexivity. Qed.

(** Scenario B: pairs merge left to right, a merged tile does not merge
    again. *)
Example slide_row_scenario_B :
  slide_row 4 [Num 2; Num 2; Num 2; Num 2] (false, false) =
  ([Num 4; Num 4; Num 0; Num 0], (false, false)).
Proof. reflexivity. Qed.

(** The row of scenario C: the marker pair leaves a [0] in front of the 4
    and raises [special_merged]. *)
Example slide_row_scenario_C :
  slide_row 4 [M; M; Num 4; Num 0] (false, false) =
  ([Num 0; Num 4; Num 0; Num 0], (false, true)).
Proof. reflexivity. Qed.

(** A number passes a marker without merging. *)
Example slide_row_number_and_marker :
  slide_row 4 [Num 0; Num 2; M; Num 2] (false, false) =
  ([Num 2; M; Num 2; Num 0], (false, false)).
Proof. reflexivity. Qed.

Example slide_row_wins :
  slide_row 4 [Num 1024; Num 0; Num 1024; Num 2] (false, false) =
  ([Num 2048; Num 2; Num 0; Num 0], (true, false)).
Proof. reflexivity. Qed.

Example makes_2048_by_merge :
  makes_2048 [[Num 1024; Num 0; Num 1024; Num 2]] = true /\
  makes_2048 [[Num 2048; Num 0; Num 512; Num 512]] = false.
Proof. split; reflexivity. Qed.

Example transpose_ragged :
  transpose [[Num 1; Num 2; Num 3]; [Num 4; Num 5]] =
  [[Num 1; Num 4]; [Num 2; Num 5]].
Proof. reflexivity. Qed.

Example out_of_range_raises :
  add_new_tile r0 (mkGame 2 [[Num 2]] 2 2 0 false false) =
  (Raise IndexError, mkGame 2 [[Num 2]] 2 2 0 false false).
Proof. reflexivity. Qed.

Section Returns.
Context {A B : Type}.

Lemma returns_ret (a : A) s (Q : A -> Game2048 -> Prop) :
  Q a s -> returns (ret a) s Q.
Proof. intros H. exists a, s. split; [reflexivity | exact H]. Qed.

Lemma returns_bind (c : Py A) (k : A -> Py B) s (Q : B -> Game2048 -> Prop) :
  returns c s (fun a s' => returns (k a) s' Q) -> returns (bind c k) s Q.
Proof.
  intros (a & s' & Hc & b & s'' & Hk & HQ).
  exists b, s''. split; [| exact HQ].
  unfold bind. rewrite Hc. exact Hk.
Qed.

Lemma returns_get s (Q : Game2048 -> Game2048 -> Prop) :
  Q s s -> returns get s Q.
Proof. intros H. exists s, s. split; [reflexivity | exact H]. Qed.

Lemma returns_modify f s (Q : unit -> Game2048 -> Prop) :
  Q tt (f s) -> returns (modify f) s Q.
Proof. intros H. exists tt, (f s). split; [reflexivity | exact H]. Qed.

Lemma returns_lift (o : outcome A) a s (Q : A -> Game2048 -> Prop) :
  o = Return a -> Q a s -> returns (lift o) s Q.
Proof. intros -> H. exists a, s. split; [reflexivity | exact H]. Qed.

Lemma returns_run (c : Py A) s a s' (Q : A -> Game2048 -> Prop) :
  c s = (Return a, s') -> Q a s' -> returns c s Q.
Proof. intros Hc HQ. exists a, s'. auto. Qed.

Lemma returns_weaken (c : Py A) s (Q Q' : A -> Game2048 -> Prop) :
  returns c s Q -> (forall a s', Q a s' -> Q' a s') -> returns c s Q'.
Proof. intros (a & s' & Hc & HQ) Himp. exists a, s'. auto. Qed.

End Returns.

(** ** Basic facts on indexing *)

Lemma cell_at_lookup g i j :
  cell_at g i j =
  match lookup_cell g i j with
  | Some c => Return c
  | None => Raise IndexError
  end.
Proof.
  unfold cell_at, lookup_cell, getitem.
  destruct (g !! i) as [row|]; reflexivity.
Qed.

Lemma square_lookup n g i j :
  square n g -> (i < n)%nat -> (j < n)%nat ->
  exists row c, g !! i = Some row /\ row !! j = Some c /\ length row = n.
Proof.
  intros [Hlen Hrows] Hi Hj.
  destruct (lookup_lt_is_Some_2 g i) as [row Hrow]; [lia |].
  pose proof (proj1 (Forall_lookup _ _) Hrows i row Hrow) as Hl.
  simpl in Hl.
  destruct (lookup_lt_is_Some_2 row j) as [c Hc]; [lia |].
  eauto.
Qed.

Lemma square_lookup_cell n g i j :
  square n g -> (i < n)%nat -> (j < n)%nat ->
  exists c, lookup_cell g i j = Some c.
Proof.
  intros Hsq Hi Hj.
  destruct (square_lookup n g i j Hsq Hi Hj) as (row & c & Hrow & Hc & _).
  exists c. unfold lookup_cell. rewrite Hrow. exact Hc.
Qed.

Lemma lookup_cell_bounds n g i j c :
  square n g -> lookup_cell g i j = Some c -> (i < n)%nat /\ (j < n)%nat.
Proof.
  intros [Hlen Hrows] H. unfold lookup_cell in H.
  destruct (g !! i) as [row|] eqn:Hrow; [| discriminate].
  pose proof (lookup_lt_Some _ _ _ Hrow).
  pose proof (proj1 (Forall_lookup _ _) Hrows i row Hrow) as Hl. simpl in Hl.
  pose proof (lookup_lt_Some _ _ _ H). lia.
Qed.

Lemma elem_of_range n i : i ∈ range n <-> (i < Z.to_nat n)%nat.
Proof.
  unfold range. rewrite list_elem_of_In, in_seq. lia.
Qed.

Lemma elem_of_cells_in_range n i j :
  (i, j) ∈ cells_in_range n <-> (i < Z.to_nat n)%nat /\ (j < Z.to_nat n)%nat.
Proof.
  unfold cells_in_range.
  rewrite list_elem_of_In, in_prod_iff, <- !list_elem_of_In, !elem_of_range.
  reflexivity.
Qed.

Lemma is_zero_true c : is_zero c = true <-> c = Num 0.
Proof.
  destruct c as [[| |]|]; simpl; split; intros H; try reflexivity;
    try discriminate; congruence.
Qed.

Lemma cell_eqb_true a b : cell_eqb a b = true <-> a = b.
Proof. unfold cell_eqb. apply bool_decide_eq_true. Qed.

Lemma cell_eqb_false a b : cell_eqb a b = false <-> a <> b.
Proof. unfold cell_eqb. apply bool_decide_eq_false. Qed.

(** On a square grid the collecting loop raises nothing and returns the
    visited positions whose cell satisfies the test. *)
Lemma collect_square P n g ps :
  square n g ->
  (forall i j, (i, j) ∈ ps -> (i < n)%nat /\ (j < n)%nat) ->
  exists l, collect P g ps = Return l /\
    forall i j, (i, j) ∈ l <->
      (i, j) ∈ ps /\ exists c, lookup_cell g i j = Some c /\ P c = true.
Proof.
  intros Hsq. induction ps as [| [i0 j0] ps IH]; intros Hin.
  - exists []. split; [reflexivity |].
    intros i j. split; [intros H; inversion H | intros [H _]; inversion H].
  - destruct IH as (l & Hl & Hchar).
    { intros i j H. apply Hin. right. exact H. }
    destruct (Hin i0 j0) as [Hi Hj]; [left |].
    destruct (square_lookup_cell n g i0 j0 Hsq Hi Hj) as [c Hc].
    simpl. rewrite cell_at_lookup, Hc. simpl. rewrite Hl. simpl.
    eexists. split; [reflexivity |].
    intros i j. destruct (P c) eqn:HP.
    + rewrite !elem_of_cons, Hchar. split.
      * intros [Heq | [H1 H2]]; [| tauto].
        injection Heq as -> ->. split; [left; reflexivity | eauto].
      * intros [[Heq | H1] H2]; [left; exact Heq | right; tauto].
    + rewrite Hchar, elem_of_cons. split.
      * intros [H1 H2]. tauto.
      * intros [[Heq | H1] H2]; [| tauto].
        injection Heq as -> ->. destruct H2 as (c' & Hc' & HP').
        congruence.
Qed.

Lemma collect_in_range P s :
  wf s ->
  exists l, collect P (grid s) (cells_in_range (size s)) = Return l /\
    forall i j, (i, j) ∈ l <->
      exists c, lookup_cell (grid s) i j = Some c /\ P c = true.
Proof.
  intros Hwf.
  destruct (collect_square P _ _ (cells_in_range (size s)) Hwf) as (l & Hl & Hchar).
  { intros i j. apply elem_of_cells_in_range. }
  exists l. split; [exact Hl |].
  intros i j. rewrite Hchar. split.
  - intros [_ H]. exact H.
  - intros (c & Hc & HP). split; [| eauto].
    apply elem_of_cells_in_range. eapply lookup_cell_bounds; eauto.
Qed.

(** ** is_game_over *)

Lemma contains_false x row : contains x row = false <-> x ∉ row.
Proof.
  unfold contains. induction row as [| y row IH]; simpl.
  - split; [intros _ H; inversion H | reflexivity].
  - rewrite orb_false_iff, IH, not_elem_of_cons, cell_eqb_false. tauto.
Qed.

Lemma lookup_cell_elem g i j c :
  lookup_cell g i j = Some c -> exists row, row ∈ g /\ c ∈ row.
Proof.
  unfold lookup_cell. destruct (g !! i) as [row|] eqn:Hrow; [| discriminate].
  intros Hc. exists row. split; eapply list_elem_of_lookup_2; eauto.
Qed.

Lemma elem_lookup_cell g row c :
  row ∈ g -> c ∈ row -> exists i j, lookup_cell g i j = Some c.
Proof.
  intros Hrow Hc.
  apply list_elem_of_lookup_1 in Hrow as [i Hi].
  apply list_elem_of_lookup_1 in Hc as [j Hj].
  exists i, j. unfold lookup_cell. rewrite Hi. exact Hj.
Qed.

Lemma existsb_false {A} (f : A -> bool) (l : list A) :
  existsb f l = false <-> forall x, x ∈ l -> f x = false.
Proof.
  induction l as [| y l IH]; simpl.
  - split; [intros _ x H; inversion H | reflexivity].
  - rewrite orb_false_iff, IH. split.
    + intros [Hy Hl] x Hx. apply elem_of_cons in Hx as [-> | Hx]; auto.
    + intros H. split; [apply H; left | intros x Hx; apply H; right; exact Hx].
Qed.

Lemma has_empty_or_marker_false g :
  has_empty_or_marker g = false <-> no_empty_cell g /\ no_marker g.
Proof.
  unfold has_empty_or_marker. rewrite existsb_false. split.
  - intros H. split; intros i j Hc;
      destruct (lookup_cell_elem _ _ _ _ Hc) as (row & Hrow & Hin);
      specialize (H row Hrow); apply orb_false_iff in H as [H0 HM];
      apply contains_false in H0, HM; tauto.
  - intros [H0 HM] row Hrow. apply orb_false_iff.
    split; apply contains_false; intros Hin;
      destruct (elem_lookup_cell _ _ _ Hrow Hin) as (i & j & Hc).
    + exact (H0 i j Hc).
    + exact (HM i j Hc).
Qed.

Lemma lookup_cell_outside n g i j :
  square n g -> (n <= i)%nat \/ (n <= j)%nat -> lookup_cell g i j = None.
Proof.
  intros Hsq Hout. destruct (lookup_cell g i j) as [c|] eqn:Hc; [| reflexivity].
  destruct (lookup_cell_bounds _ _ _ _ _ Hsq Hc). lia.
Qed.

(** The comparison of a cell with its right or lower neighbour, as the
    second loop performs it. *)
Lemma neighbour_test sz g i' j' c (b : bool) :
  square (Z.to_nat sz) g ->
  (b = true <-> (i' < Z.to_nat sz)%nat /\ (j' < Z.to_nat sz)%nat) ->
  exists r,
    (if b then let? c' := cell_at g i' j' in Return (cell_eqb c' c)
     else Return false) = Return r /\
    (r = true <-> lookup_cell g i' j' = Some c).
Proof.
  intros Hsq Hb. destruct b.
  - destruct Hb as [Hb _]. destruct (Hb eq_refl) as [Hi Hj].
    destruct (square_lookup_cell _ _ _ _ Hsq Hi Hj) as [c' Hc'].
    rewrite cell_at_lookup, Hc'. simpl. eexists. split; [reflexivity |].
    rewrite cell_eqb_true. split; congruence.
  - exists false. split; [reflexivity |].
    rewrite (lookup_cell_outside _ _ i' j' Hsq).
    + split; discriminate.
    + destruct (decide (i' < Z.to_nat sz)%nat);
        destruct (decide (j' < Z.to_nat sz)%nat); lia.
Qed.

Lemma no_merge_scan_square sz g ps :
  square (Z.to_nat sz) g ->
  no_marker g ->
  (forall i j, (i, j) ∈ ps -> (i < Z.to_nat sz)%nat /\ (j < Z.to_nat sz)%nat) ->
  exists b, no_merge_scan sz g ps = Return b /\
    (b = true <->
     forall i j c, (i, j) ∈ ps -> lookup_cell g i j = Some c ->
       lookup_cell g i (j + 1) <> Some c /\ lookup_cell g (i + 1) j <> Some c).
Proof.
  intros Hsq HnoM. induction ps as [| [i0 j0] ps IH]; intros Hin.
  - exists true. split; [reflexivity |]. split; [| reflexivity].
    intros _ i j c H. inversion H.
  - destruct IH as (b & Hb & Hchar).
    { intros i j H. apply Hin. right. exact H. }
    destruct (Hin i0 j0) as [Hi Hj]; [left |].
    destruct (square_lookup_cell _ _ _ _ Hsq Hi Hj) as [c0 Hc0].
    simpl. rewrite cell_at_lookup, Hc0. simpl.
    destruct (neighbour_test sz g i0 (j0 + 1) c0 (Z.of_nat j0 + 1 <? sz) Hsq)
      as (r1 & -> & Hr1); [rewrite Z.ltb_lt; lia |].
    simpl. destruct r1.
    { exists false. split; [reflexivity |]. split; [discriminate |].
      intros H. destruct (H i0 j0 c0) as [Hno _]; [left | exact Hc0 |].
      exfalso. apply Hno. apply Hr1. reflexivity. }
    destruct (neighbour_test sz g (i0 + 1) j0 c0 (Z.of_nat i0 + 1 <? sz) Hsq)
      as (r2 & -> & Hr2); [rewrite Z.ltb_lt; lia |].
    simpl. destruct r2.
    { exists false. split; [reflexivity |]. split; [discriminate |].
      intros H. destruct (H i0 j0 c0) as [_ Hno]; [left | exact Hc0 |].
      exfalso. apply Hno. apply Hr2. reflexivity. }
    assert (HM : cell_eqb c0 M = false).
    { apply cell_eqb_false. intros ->. exact (HnoM i0 j0 Hc0). }
    rewrite HM. simpl. exists b. split; [exact Hb |].
    rewrite Hchar. split.
    + intros H i j c Hij Hc. apply elem_of_cons in Hij as [Heq | Hij].
      * injection Heq as -> ->. assert (c = c0) as -> by congruence.
        split; intros Habs; [apply Hr1 in Habs | apply Hr2 in Habs];
          discriminate.
      * eauto.
    + intros H i j c Hij Hc. apply (H i j c); [right; exact Hij | exact Hc].
Qed.

Lemma no_equal_neighbours_right_down g :
  no_equal_neighbours g <->
  forall i j c, lookup_cell g i j = Some c ->
    lookup_cell g i (j + 1) <> Some c /\ lookup_cell g (i + 1) j <> Some c.
Proof.
  unfold no_equal_neighbours, adjacent. split.
  - intros H i j c Hc. split.
    + apply (H (i, j) (i, (j + 1)%nat) c); [simpl; left; lia | exact Hc].
    + apply (H (i, j) ((i + 1)%nat, j) c); [simpl; right; lia | exact Hc].
  - intros H [i j] [i' j'] c Hadj Hc Hc'. simpl in *.
    destruct Hadj as [[-> [-> | ->]] | [-> [-> | ->]]].
    + destruct (H i' j c Hc) as [Hno _]. apply Hno.
      replace (j + 1)%nat with (S j) by lia. exact Hc'.
    + destruct (H i' j' c Hc') as [Hno _]. apply Hno.
      replace (j' + 1)%nat with (S j') by lia. exact Hc.
    + destruct (H i j' c Hc) as [_ Hno]. apply Hno.
      replace (i + 1)%nat with (S i) by lia. exact Hc'.
    + destruct (H i' j' c Hc') as [_ Hno]. apply Hno.
      replace (i' + 1)%nat with (S i') by lia. exact Hc.
Qed.

(** What [is_game_over] returns on a well-formed instance. *)
Lemma is_game_over_wf s :
  wf s ->
  exists b, is_game_over s = Return b /\ (b = true <-> terminal (grid s)).
Proof.
  intros Hwf. unfold is_game_over, terminal.
  destruct (has_empty_or_marker (grid s)) eqn:Hfirst.
  - exists false. split; [reflexivity |]. split; [discriminate |].
    intros (H0 & HM & _).
    assert (has_empty_or_marker (grid s) = false) as Habs
      by (apply has_empty_or_marker_false; tauto).
    congruence.
  - apply has_empty_or_marker_false in Hfirst as [H0 HM].
    destruct (no_merge_scan_square (size s) (grid s) (cells_in_range (size s)) Hwf HM)
      as (b & Hb & Hchar).
    { intros i j. apply elem_of_cells_in_range. }
    exists b. split; [exact Hb |]. rewrite Hchar, no_equal_neighbours_right_down.
    split.
    + intros H. repeat split; try assumption.
      * destruct (H i j c); [| assumption | assumption].
        apply elem_of_cells_in_range. eapply lookup_cell_bounds; eauto.
      * destruct (H i j c); [| assumption | assumption].
        apply elem_of_cells_in_range. eapply lookup_cell_bounds; eauto.
    + intros (_ & _ & H) i j c _ Hc. exact (H i j c Hc).
Qed.

(** ** Sums over the cells *)

Lemma sum_row_app f r1 r2 : sum_row f (r1 ++ r2) = sum_row f r1 + sum_row f r2.
Proof. induction r1 as [| c r1 IH]; simpl; [reflexivity | rewrite IH; lia]. Qed.

Lemma sum_row_reverse f row : sum_row f (reverse row) = sum_row f row.
Proof.
  induction row as [| c row IH]; [reflexivity |].
  rewrite reverse_cons, sum_row_app, IH. simpl. lia.
Qed.

Lemma sum_row_insert f row j old v :
  row !! j = Some old ->
  sum_row f (<[j := v]> row) = sum_row f row - f old + f v.
Proof.
  revert j. induction row as [| c row IH]; intros [| j] H; try discriminate.
  - injection H as ->. simpl. lia.
  - simpl in *. rewrite (IH j H). lia.
Qed.

Lemma sum_cells_insert f g i row row' :
  g !! i = Some row ->
  sum_cells f (<[i := row']> g) = sum_cells f g - sum_row f row + sum_row f row'.
Proof.
  revert i. induction g as [| r g IH]; intros [| i] H; try discriminate.
  - injection H as ->. simpl. lia.
  - simpl in *. rewrite (IH i H). lia.
Qed.

Lemma sum_cells_reverse_rows f g : sum_cells f (reverse_rows g) = sum_cells f g.
Proof.
  induction g as [| r g IH]; [reflexivity |].
  simpl. rewrite sum_row_reverse, IH. reflexivity.
Qed.

Lemma sum_row_replicate_zero f k : f (Num 0) = 0 -> sum_row f (replicate k (Num 0)) = 0.
Proof. intros H. induction k as [| k IH]; simpl; [reflexivity | lia]. Qed.

(** ** Shape of the grid under updates *)

Lemma square_insert n g i j row v :
  square n g -> g !! i = Some row -> square n (<[i := <[j := v]> row]> g).
Proof.
  intros [Hlen Hrows] Hrow. split.
  - rewrite length_insert. exact Hlen.
  - apply Forall_insert; [exact Hrows |].
    rewrite length_insert.
    exact (proj1 (Forall_lookup _ _) Hrows i row Hrow).
Qed.

Lemma square_reverse_rows n g : square n g -> square n (reverse_rows g).
Proof.
  intros [Hlen Hrows]. split.
  - unfold reverse_rows. rewrite length_map. exact Hlen.
  - unfold reverse_rows. apply Forall_fmap.
    eapply Forall_impl; [exact Hrows |]. intros row H. simpl.
    rewrite length_reverse. exact H.
Qed.

Lemma reverse_rows_involutive g : reverse_rows (reverse_rows g) = g.
Proof.
  unfold reverse_rows. induction g as [| r g IH]; [reflexivity |].
  simpl. rewrite reverse_involutive. f_equal. exact IH.
Qed.

Lemma square_empty_grid n : square (Z.to_nat n) (empty_grid n).
Proof.
  unfold empty_grid. split.
  - apply length_replicate.
  - apply Forall_replicate. apply length_replicate.
Qed.

(** ** add_new_tile *)

Lemma add_new_tile_wf r s :
  wf s -> returns (add_new_tile r) s (spawn_post s).
Proof.
  intros Hwf. unfold add_new_tile.
  apply returns_bind, returns_get.
  destruct (collect_in_range is_zero s Hwf) as (l & Hl & Hchar).
  apply returns_bind. eapply returns_lift; [exact Hl |].
  destruct l as [| p ps].
  - destruct (is_game_over_wf s Hwf) as (over & Hover & _).
    apply returns_bind. eapply returns_lift; [exact Hover |].
    assert (Hfull : ~ has_empty (grid s)).
    { intros (i & j & Hc).
      assert ((i, j) ∈ @nil (nat * nat)) as Habs
        by (apply Hchar; exists (Num 0); split; [exact Hc | reflexivity]).
      inversion Habs. }
    destruct over.
    + apply returns_bind, returns_modify, returns_ret.
      split; [exact Hfull |]. exists true. split; [exact Hover | reflexivity].
    + apply returns_bind, returns_ret, returns_ret.
      split; [exact Hfull |]. exists false. split; [exact Hover | reflexivity].
  - set (k := (rnd_choice r mod length (p :: ps))%nat).
    assert (Hk : (k < length (p :: ps))%nat)
      by (apply Nat.mod_upper_bound; simpl; lia).
    pose proof (nth_In (p :: ps) p Hk) as Hin.
    apply list_elem_of_In in Hin.
    destruct (nth k (p :: ps) p) as [row col] eqn:Hpick.
    apply Hchar in Hin as (c & Hc & Hzero).
    apply is_zero_true in Hzero as ->.
    unfold lookup_cell in Hc.
    destruct (grid s !! row) as [rw|] eqn:Hrow; [| discriminate].
    apply returns_bind. eapply returns_lift.
    { unfold set_cell, getitem. rewrite Hrow. simpl. rewrite Hc. reflexivity. }
    apply returns_bind, returns_modify, returns_ret.
    exists row, col, rw, (if rnd_small r then Num 2 else Num 4).
    repeat split; try assumption.
    destruct (rnd_small r); [left | right]; reflexivity.
Qed.

Lemma has_empty_lookup g i j row :
  g !! i = Some row -> row !! j = Some (Num 0) -> has_empty g.
Proof.
  intros Hrow Hc. exists i, j. unfold lookup_cell. rewrite Hrow. exact Hc.
Qed.

Lemma spawn_post_facts s b s' :
  wf s -> spawn_post s b s' ->
  wf s' /\ same_frame s s' /\ score s' = score s /\
  tiles (grid s') = tiles (grid s) + (if b then 1 else 0) /\
  (b = true <-> has_empty (grid s)).
Proof.
  intros Hwf Hpost. destruct b; simpl in Hpost.
  - destruct Hpost as (i & j & row & v & Hrow & Hc & Hv & ->).
    split; [| split; [| split; [| split]]].
    + unfold wf. simpl. apply square_insert; assumption.
    + repeat split.
    + reflexivity.
    + simpl. unfold tiles.
      rewrite (sum_cells_insert _ _ _ _ _ Hrow), (sum_row_insert _ _ _ _ _ Hc).
      destruct Hv as [-> | ->]; unfold tile_weight; simpl; lia.
    + split; [intros _ | reflexivity]. eapply has_empty_lookup; eauto.
  - destruct Hpost as (Hfull & over & _ & ->).
    split; [| split; [| split; [| split]]].
    + destruct over; exact Hwf.
    + destruct over; repeat split.
    + destruct over; reflexivity.
    + destruct over; simpl; lia.
    + split; [discriminate | intros H; contradiction].
Qed.

(** ** clear_surrounding_tiles *)

Lemma returns_for_each {A} (I : Game2048 -> Prop) (xs : list A) body s :
  I s ->
  (forall x s0, x ∈ xs -> I s0 -> returns (body x) s0 (fun _ s1 => I s1)) ->
  returns (for_each xs body) s (fun _ s' => I s').
Proof.
  revert s. induction xs as [| x xs IH]; intros s HI Hbody; simpl.
  - apply returns_ret. exact HI.
  - apply returns_bind.
    eapply returns_weaken; [apply Hbody; [left | exact HI] |].
    intros u s1 HI1. simpl in HI1 |- *. apply IH; [exact HI1 |].
    intros y s0 Hy. apply Hbody. right. exact Hy.
Qed.

Lemma clear_cell_wf s0 row col dr dc s :
  wf s /\ same_frame s0 s ->
  returns (clear_cell row col dr dc) s (fun _ s' => wf s' /\ same_frame s0 s').
Proof.
  intros [Hwf Hfr]. unfold clear_cell.
  apply returns_bind, returns_get.
  destruct ((0 <=? Z.of_nat row + dr) && (Z.of_nat row + dr <? size s)
            && (0 <=? Z.of_nat col + dc) && (Z.of_nat col + dc <? size s)) eqn:Hin.
  - apply andb_true_iff in Hin as [Hin H4].
    apply andb_true_iff in Hin as [Hin H3].
    apply andb_true_iff in Hin as [H1 H2].
    apply Z.leb_le in H1, H3. apply Z.ltb_lt in H2, H4.
    destruct (square_lookup _ _ (Z.to_nat (Z.of_nat row + dr))
                (Z.to_nat (Z.of_nat col + dc)) Hwf)
      as (rw & c & Hrow & Hc & _); [lia | lia |].
    apply returns_bind. eapply returns_lift.
    { rewrite cell_at_lookup. unfold lookup_cell. rewrite Hrow, Hc. reflexivity. }
    apply returns_bind.
    assert (Hstep : forall s1, grid s1 = grid s -> size s1 = size s ->
              same_frame s0 s1 ->
              returns
                (let* self := get in
                 let* g := lift (set_cell (grid self)
                                   (Z.to_nat (Z.of_nat row + dr))
                                   (Z.to_nat (Z.of_nat col + dc)) (Num 0)) in
                 modify (set_grid g)) s1
                (fun _ s' => wf s' /\ same_frame s0 s')).
    { intros s1 Hg Hsz Hfr1. apply returns_bind, returns_get.
      apply returns_bind. eapply returns_lift.
      { unfold set_cell, getitem. rewrite Hg, Hrow. simpl. rewrite Hc. reflexivity. }
      apply returns_modify. split.
      - unfold wf. simpl. rewrite Hsz. apply square_insert; assumption.
      - exact Hfr1. }
    destruct c as [z |].
    + apply returns_modify. apply Hstep; [reflexivity | reflexivity | exact Hfr].
    + apply returns_ret. apply Hstep; [reflexivity | reflexivity | exact Hfr].
  - apply returns_ret. split; assumption.
Qed.

Lemma clear_surrounding_tiles_wf s :
  wf s ->
  returns clear_surrounding_tiles s (fun _ s' => wf s' /\ same_frame s s').
Proof.
  intros Hwf. unfold clear_surrounding_tiles.
  apply returns_bind, returns_get.
  destruct (collect_in_range is_M s Hwf) as (l & Hl & _).
  apply returns_bind. eapply returns_lift; [exact Hl |].
  apply (returns_for_each (fun s' => wf s' /\ same_frame s s')).
  { split; [exact Hwf | repeat split]. }
  intros [row col] s1 _ H1.
  apply (returns_for_each (fun s' => wf s' /\ same_frame s s')); [exact H1 |].
  intros dr s2 _ H2.
  apply (returns_for_each (fun s' => wf s' /\ same_frame s s')); [exact H2 |].
  intros dc s3 _ H3. apply clear_cell_wf. exact H3.
Qed.

(** ** The row transformation of move_left *)

Lemma tile_weight_nonzero c : c <> Num 0 -> tile_weight c = 1.
Proof.
  intros H. unfold tile_weight. destruct (is_zero c) eqn:Hz; [| reflexivity].
  apply is_zero_true in Hz. contradiction.
Qed.

Lemma tiles_le_length row : sum_row tile_weight row <= Z.of_nat (length row).
Proof.
  induction row as [| c row IH]; simpl; [lia |].
  unfold tile_weight at 1. destruct (is_zero c); lia.
Qed.

Lemma compact_tiles row :
  sum_row tile_weight row = Z.of_nat (length (compact row)).
Proof.
  unfold compact. induction row as [| c row IH]; [reflexivity |].
  simpl. destruct (decide (c = Num 0)) as [-> | Hc].
  - rewrite filter_cons_False by (intros H; apply H; reflexivity).
    rewrite IH. reflexivity.
  - rewrite filter_cons_True by exact Hc. simpl.
    rewrite (tile_weight_nonzero c Hc), IH. lia.
Qed.

Lemma compact_same_length row :
  length (compact row) = length row -> compact row = row.
Proof.
  unfold compact. induction row as [| c row IH]; [reflexivity |].
  destruct (decide (c = Num 0)) as [-> | Hc].
  - rewrite filter_cons_False by (intros H; apply H; reflexivity).
    intros Hlen.
    pose proof (length_filter (fun val => val <> Num 0) row). simpl in Hlen. lia.
  - rewrite filter_cons_True by exact Hc. simpl. intros Hlen.
    f_equal. apply IH. lia.
Qed.

(** The three cases of the merging loop. *)
Lemma merge_loop_pair x y tl flags :
  merge_loop (x :: y :: tl) flags =
  if cell_eqb x y && negb (cell_eqb x M) then
    let flags' :=
      if cell_eqb (double x) (Num 2048) && negb (fst flags)
      then (true, snd flags) else flags in
    (double x :: fst (merge_loop tl flags'), snd (merge_loop tl flags'))
  else if cell_eqb x M && cell_eqb y M then
    (Num 0 :: fst (merge_loop tl (fst flags, true)),
     snd (merge_loop tl (fst flags, true)))
  else
    (x :: fst (merge_loop (y :: tl) flags), snd (merge_loop (y :: tl) flags)).
Proof.
  cbn [merge_loop].
  destruct (cell_eqb x y && negb (cell_eqb x M)).
  - cbv zeta. destruct (merge_loop tl _); reflexivity.
  - destruct (cell_eqb x M && cell_eqb y M).
    + destruct (merge_loop tl _); reflexivity.
    + change (match tl with
              | [] => ([y], flags)
              | y0 :: tl' => _
              end) with (merge_loop (y :: tl) flags).
      destruct (merge_loop (y :: tl) flags); reflexivity.
Qed.

(** The merging loop never lengthens the row, and keeps its length only
    when it merged nothing; the two flags are only ever raised. *)
Lemma merge_loop_bounded k :
  forall l flags, (length l <= k)%nat ->
    (length (fst (merge_loop l flags)) <= length l)%nat /\
    (length (fst (merge_loop l flags)) = length l ->
       merge_loop l flags = (l, flags)) /\
    (fst flags = true -> fst (snd (merge_loop l flags)) = true) /\
    (snd flags = true -> snd (snd (merge_loop l flags)) = true).
Proof.
  induction k as [| k IH]; intros l flags Hk.
  - destruct l; [| simpl in Hk; lia]. simpl. auto.
  - destruct l as [| x [| y tl]]; [simpl; auto | simpl; auto |].
    rewrite merge_loop_pair.
    destruct (cell_eqb x y && negb (cell_eqb x M)).
    + cbv zeta.
      set (flags' := if cell_eqb (double x) (Num 2048) && negb (fst flags)
                     then (true, snd flags) else flags).
      destruct (IH tl flags') as (H1 & _ & H3 & H4); [simpl in Hk; lia |].
      simpl. split; [lia |]. split; [lia |].
      split; intros Hf.
      * apply H3. subst flags'.
        destruct (cell_eqb (double x) (Num 2048) && negb (fst flags));
          [reflexivity | exact Hf].
      * apply H4. subst flags'.
        destruct (cell_eqb (double x) (Num 2048) && negb (fst flags)); exact Hf.
    + destruct (cell_eqb x M && cell_eqb y M).
      * destruct (IH tl (fst flags, true)) as (H1 & _ & H3 & H4);
          [simpl in Hk; lia |].
        simpl. split; [lia |]. split; [lia |]. split; auto.
      * destruct (IH (y :: tl) flags) as (H1 & H2 & H3 & H4);
          [simpl in Hk |- *; lia |].
        destruct (merge_loop (y :: tl) flags) as [merged out].
        cbn [fst snd length] in *.
        split; [lia |]. split; [| split; assumption].
        intros Hlen. assert (Hm : length merged = S (length tl)) by lia.
        specialize (H2 Hm). injection H2 as -> ->. reflexivity.
Qed.

Lemma merge_loop_length l flags :
  (length (fst (merge_loop l flags)) <= length l)%nat.
Proof. apply (merge_loop_bounded (length l)). lia. Qed.

Lemma merge_loop_same_length l flags :
  length (fst (merge_loop l flags)) = length l -> merge_loop l flags = (l, flags).
Proof. apply (merge_loop_bounded (length l)). lia. Qed.

Lemma merge_loop_won l flags :
  fst flags = true -> fst (snd (merge_loop l flags)) = true.
Proof. apply (merge_loop_bounded (length l)). lia. Qed.

(** The merged cells are tiles, so merging never creates a tile beyond the
    cells it had. *)
Lemma slide_row_length n row flags :
  (length row <= Z.to_nat n)%nat ->
  length (fst (slide_row n row flags)) = Z.to_nat n.
Proof.
  intros Hlen. unfold slide_row.
  pose proof (merge_loop_length (compact row) flags) as Hm.
  pose proof (length_filter (fun val => val <> Num 0) row) as Hc.
  fold (compact row) in Hc.
  destruct (merge_loop (compact row) flags) as [merged out]. simpl in *.
  rewrite length_app, length_replicate. lia.
Qed.

(** A row that comes out as it went in merged nothing: the flags are
    untouched. *)
Lemma slide_row_unchanged n row flags :
  fst (slide_row n row flags) = row -> snd (slide_row n row flags) = flags.
Proof.
  unfold slide_row.
  pose proof (merge_loop_length (compact row) flags) as Hm.
  pose proof (merge_loop_same_length (compact row) flags) as Hsame.
  destruct (merge_loop (compact row) flags) as [merged out]. simpl in *.
  intros Heq.
  assert (Ht : sum_row tile_weight row = sum_row tile_weight merged).
  { rewrite <- Heq at 1. rewrite sum_row_app, sum_row_replicate_zero by reflexivity.
    lia. }
  pose proof (tiles_le_length merged). rewrite compact_tiles in Ht.
  assert (Hl : length merged = length (compact row)) by lia.
  specialize (Hsame Hl). congruence.
Qed.

(** A row that changed has an empty cell afterwards. *)
Lemma slide_row_changed n row flags :
  length row = Z.to_nat n ->
  fst (slide_row n row flags) <> row ->
  Num 0 ∈ fst (slide_row n row flags).
Proof.
  unfold slide_row. intros Hlen.
  pose proof (merge_loop_length (compact row) flags) as Hm.
  pose proof (merge_loop_same_length (compact row) flags) as Hsame.
  pose proof (length_filter (fun val => val <> Num 0) row) as Hc.
  fold (compact row) in Hc.
  pose proof (compact_same_length row) as Hid.
  destruct (merge_loop (compact row) flags) as [merged out]. simpl in *.
  intros Hneq.
  destruct (Z.to_nat (n - Z.of_nat (length merged))) as [| k] eqn:Hpad.
  - exfalso. apply Hneq. simpl. rewrite app_nil_r.
    assert (Hl : length merged = length (compact row)) by lia.
    specialize (Hsame Hl). rewrite Hid in Hsame by lia. congruence.
  - apply elem_of_app. right. simpl. left.
Qed.

(** ** The grid transformation of move_left *)

Lemma slide_rows_cons n row rows flags :
  slide_rows n (row :: rows) flags =
  let r := slide_row n row flags in
  let rest := slide_rows n rows (snd r) in
  (fst r :: fst (fst rest),
   negb (bool_decide (fst r = row)) || snd (fst rest),
   snd rest).
Proof.
  simpl. destruct (slide_row n row flags) as [merged flags1]. simpl.
  destruct (slide_rows n rows flags1) as [[new_grid moved] flags2]. reflexivity.
Qed.

Lemma slide_rows_spec n g flags :
  Forall (fun row => length row = Z.to_nat n) g ->
  length (fst (fst (slide_rows n g flags))) = length g /\
  Forall (fun row => length row = Z.to_nat n) (fst (fst (slide_rows n g flags))) /\
  (snd (fst (slide_rows n g flags)) = false ->
     slide_rows n g flags = (g, false, flags)) /\
  (snd (fst (slide_rows n g flags)) = true ->
     exists row, row ∈ fst (fst (slide_rows n g flags)) /\ Num 0 ∈ row) /\
  (fst flags = true -> fst (snd (slide_rows n g flags)) = true).
Proof.
  revert flags. induction g as [| row rows IH]; intros flags Hrows.
  - simpl. repeat split; auto. discriminate.
  - apply Forall_cons in Hrows as [Hrow Hrows].
    rewrite slide_rows_cons. cbv zeta.
    pose proof (slide_row_length n row flags) as Hlen.
    pose proof (slide_row_unchanged n row flags) as Hunch.
    pose proof (slide_row_changed n row flags Hrow) as Hch.
    assert (Hwon1 : fst flags = true -> fst (snd (slide_row n row flags)) = true).
    { unfold slide_row. pose proof (merge_loop_won (compact row) flags) as Hw.
      destruct (merge_loop (compact row) flags). exact Hw. }
    destruct (slide_row n row flags) as [merged flags1].
    cbn [fst snd] in *.
    destruct (IH flags1 Hrows) as (H1 & H2 & H3 & H4 & H5).
    destruct (slide_rows n rows flags1) as [[new_grid moved] flags2].
    cbn [fst snd] in *.
    split; [simpl; lia |]. split; [apply Forall_cons; split; [lia | exact H2] |].
    split; [| split].
    + intros Hno. apply orb_false_iff in Hno as [Hsame ->].
      apply negb_false_iff, bool_decide_eq_true in Hsame. subst merged.
      rewrite (Hunch eq_refl) in H3. specialize (H3 eq_refl).
      injection H3 as -> ->.
      rewrite bool_decide_eq_true_2 by reflexivity. reflexivity.
    + intros Hyes. apply orb_true_iff in Hyes as [Hdiff | ->].
      * apply negb_true_iff, bool_decide_eq_false in Hdiff.
        exists merged. split; [left | exact (Hch Hdiff)].
      * destruct (H4 eq_refl) as (r & Hr & H0). exists r.
        split; [right; exact Hr | exact H0].
    + intros Hw. apply H5, Hwon1, Hw.
Qed.

Lemma has_empty_elem g row : row ∈ g -> Num 0 ∈ row -> has_empty g.
Proof.
  intros Hrow H0. destruct (elem_lookup_cell _ _ _ Hrow H0) as (i & j & Hc).
  exists i, j. exact Hc.
Qed.

(** ** update_score and check_game_over *)

Lemma update_score_run s :
  update_score s =
  (Return tt,
   if high_score s <? grid_points (grid s)
   then set_high_score (grid_points (grid s)) (set_score (grid_points (grid s)) s)
   else set_score (grid_points (grid s)) s).
Proof.
  unfold update_score, bind, get, modify, calculate_total_score. simpl.
  destruct (high_score s <? grid_points (grid s)); reflexivity.
Qed.

Lemma check_game_over_run s over :
  is_game_over s = Return over ->
  check_game_over s = (Return over, if over then set_game_over true s else s).
Proof.
  intros H. unfold check_game_over, bind, get, lift. rewrite H.
  destruct over; reflexivity.
Qed.

Lemma set_won_same s : set_won (won s) s = s.
Proof. destruct s; reflexivity. Qed.

Lemma set_grid_same s : set_grid (grid s) s = s.
Proof. destruct s; reflexivity. Qed.

(** ** move_left on a well-formed instance *)

Lemma in_frame_Left s : in_frame Left s = s.
Proof. unfold in_frame. simpl. apply set_grid_same. Qed.

Lemma move_left_wf r s :
  wf s -> returns (move_left r) s (move_post Left s).
Proof.
  intros Hwf. unfold move_left.
  apply returns_bind, returns_get.
  destruct (slide_rows_spec (size s) (grid s) (won s, false) (proj2 Hwf))
    as (Hlen & Hrows & Hno & Hyes & _).
  unfold move_post. rewrite in_frame_Left. unfold slid.
  destruct (slide_rows (size s) (grid s) (won s, false))
    as [[new_grid moved] [won' special_merged]] eqn:Hslide.
  cbn [fst snd] in *.
  apply returns_bind, returns_modify.
  destruct moved.
  - clear Hno. destruct (Hyes eq_refl) as (row0 & Hrow0 & Hzero).
    cbn [orb].
    set (s1 := set_won won' s).
    assert (Hwf1 : wf s1) by exact Hwf.
    apply returns_bind.
    assert (Hcommit : returns (commit_move new_grid special_merged) s1
              (fun _ s2 => grid s2 = new_grid /\ wf s2 /\ size s2 = size s /\
                           moves s2 = moves s + 1)).
    { unfold commit_move. apply returns_bind.
      assert (Hclear : returns (if special_merged then clear_surrounding_tiles else ret tt)
                s1 (fun _ s2 => size s2 = size s /\ moves s2 = moves s)).
      { destruct special_merged.
        - eapply returns_weaken; [apply clear_surrounding_tiles_wf; exact Hwf1 |].
          intros _ s2 [_ (Hsz & _ & Hmv & _)]. split; assumption.
        - apply returns_ret. split; reflexivity. }
      eapply returns_weaken; [exact Hclear |].
      intros _ s2 [Hsz Hmv]. simpl.
      apply returns_bind, returns_modify, returns_bind, returns_get.
      apply returns_modify. simpl.
      split; [reflexivity |]. split; [| split; [exact Hsz | lia]].
      unfold wf, square. simpl. rewrite Hsz. destruct Hwf as [Hl _].
      split; [lia | exact Hrows]. }
    eapply returns_weaken; [exact Hcommit |].
    intros _ s2 (Hg2 & Hwf2 & Hsz2 & Hmv2). simpl.
    apply returns_bind.
    eapply returns_weaken; [apply add_new_tile_wf; exact Hwf2 |].
    intros spawned s3 Hspawn. simpl.
    destruct (spawn_post_facts _ _ _ Hwf2 Hspawn)
      as (Hwf3 & (Hsz3 & _ & Hmv3 & _) & _ & Htiles & Hb).
    assert (spawned = true) as ->.
    { apply Hb. rewrite Hg2. eapply has_empty_elem; eauto. }
    apply returns_bind. eapply returns_run; [apply update_score_run |].
    set (s4 := if high_score s3 <? grid_points (grid s3)
               then set_high_score (grid_points (grid s3))
                      (set_score (grid_points (grid s3)) s3)
               else set_score (grid_points (grid s3)) s3).
    assert (H4 : grid s4 = grid s3 /\ size s4 = size s3 /\
                 score s4 = grid_points (grid s3) /\ moves s4 = moves s3).
    { subst s4. destruct (high_score s3 <? grid_points (grid s3)); repeat split. }
    destruct H4 as (Hg4 & Hsz4 & Hsc4 & Hmv4).
    assert (Hwf4 : wf s4) by (unfold wf; rewrite Hg4, Hsz4; exact Hwf3).
    destruct (is_game_over_wf s4 Hwf4) as (over & Hover & _).
    apply returns_bind.
    eapply returns_run; [apply (check_game_over_run _ _ Hover) |].
    apply returns_ret.
    assert (H5 : forall s5, s5 = (if over then set_game_over true s4 else s4) ->
              grid s5 = grid s4 /\ size s5 = size s4 /\ score s5 = score s4 /\
              moves s5 = moves s4).
    { intros s5 ->. destruct over; repeat split. }
    destruct (H5 _ eq_refl) as (Hg5 & Hsz5 & Hsc5 & Hmv5).
    split; [unfold wf; rewrite Hg5, Hsz5; exact Hwf4 |].
    split; [congruence |].
    split; [discriminate |]. intros _.
    split; [congruence |].
    split; [eapply has_empty_elem; eauto |].
    split; [rewrite Hg5, Hg4, Htiles, Hg2; reflexivity | congruence].
  - specialize (Hno eq_refl). injection Hno as -> -> ->.
    cbn [orb]. rewrite set_won_same. apply returns_ret.
    split; [exact Hwf |]. split; [reflexivity |]. split; [reflexivity | discriminate].
Qed.

(** ** Transposition *)

Lemma transpose_cons row r rows :
  transpose (row :: r :: rows) = zip_with cons row (transpose (r :: rows)).
Proof. reflexivity. Qed.

Lemma lookup_cell_cons_0 row g j : lookup_cell (row :: g) 0 j = row !! j.
Proof. reflexivity. Qed.

Lemma lookup_cell_cons_S row g i j :
  lookup_cell (row :: g) (S i) j = lookup_cell g i j.
Proof. reflexivity. Qed.

(** The transpose of an [m] by [n] matrix with at least one row is [n] by
    [m], and its cell [(j, i)] is the cell [(i, j)] of the matrix. *)
Lemma transpose_rect g :
  forall m n, (0 < m)%nat -> length g = m ->
    Forall (fun row => length row = n) g ->
    length (transpose g) = n /\
    Forall (fun col => length col = m) (transpose g) /\
    forall i j, lookup_cell (transpose g) j i = lookup_cell g i j.
Proof.
  induction g as [| row rows IH]; intros m n Hm Hlen Hrows; [simpl in Hlen; lia |].
  apply Forall_cons in Hrows as [Hrow Hrows].
  destruct rows as [| r rows].
  - simpl in Hlen. subst m. simpl. split; [rewrite length_map; exact Hrow |].
    split.
    + apply Forall_fmap, Forall_forall. intros x _. reflexivity.
    + intros i j. unfold lookup_cell.
      change (map (fun x => [x]) row) with ((fun x : cell => [x]) <$> row).
      rewrite list_lookup_fmap.
      destruct i as [| i]; simpl.
      * destruct (row !! j); reflexivity.
      * destruct (row !! j); simpl; [| reflexivity].
        rewrite lookup_nil. reflexivity.
  - rewrite transpose_cons.
    destruct (IH (length (r :: rows)) n) as (HTlen & HTcols & HTcell);
      [simpl; lia | reflexivity | exact Hrows |].
    set (T := transpose (r :: rows)) in *.
    split; [rewrite length_zip_with; lia |]. split.
    + apply Forall_lookup_2. intros j col Hcol.
      apply lookup_zip_with_Some in Hcol as (x & c & -> & _ & Hc).
      simpl. rewrite (Forall_lookup_1 _ _ _ _ HTcols Hc). exact Hlen.
    + intros i j. unfold lookup_cell at 1. rewrite lookup_zip_with.
      destruct (row !! j) as [x|] eqn:Hx.
      * destruct (lookup_lt_is_Some_2 T j) as [c Hc];
          [rewrite HTlen, <- Hrow; eapply lookup_lt_Some; exact Hx |].
        rewrite Hc. simpl. destruct i as [| i].
        -- rewrite lookup_cell_cons_0. symmetry. exact Hx.
        -- rewrite lookup_cell_cons_S, <- HTcell. unfold lookup_cell.
           rewrite Hc. reflexivity.
      * simpl. symmetry. destruct i as [| i].
        -- rewrite lookup_cell_cons_0. exact Hx.
        -- rewrite lookup_cell_cons_S.
           apply lookup_ge_None_1 in Hx.
           destruct (lookup_cell (r :: rows) i j) as [c|] eqn:Hc; [| reflexivity].
           exfalso. unfold lookup_cell in Hc.
           destruct ((r :: rows) !! i) as [rw|] eqn:Hrw; [| discriminate].
           pose proof (Forall_lookup_1 _ _ _ _ Hrows Hrw) as Hl. simpl in Hl.
           apply lookup_lt_Some in Hc. lia.
Qed.

(** Two matrices of the same shape with the same cells are equal. *)
Lemma grid_ext m n g g' :
  length g = m -> Forall (fun row => length row = n) g ->
  length g' = m -> Forall (fun row => length row = n) g' ->
  (forall i j, lookup_cell g i j = lookup_cell g' i j) -> g = g'.
Proof.
  intros Hlen Hrows Hlen' Hrows' Hcells.
  apply (list_eq_same_length _ _ m); [assumption | assumption |].
  intros i row row' _ Hrow Hrow'.
  pose proof (Forall_lookup_1 _ _ _ _ Hrows Hrow) as Hl.
  pose proof (Forall_lookup_1 _ _ _ _ Hrows' Hrow') as Hl'.
  simpl in Hl, Hl'.
  apply list_eq. intros j. specialize (Hcells i j).
  unfold lookup_cell in Hcells. rewrite Hrow, Hrow' in Hcells. exact Hcells.
Qed.

Lemma square_transpose n g : square n g -> square n (transpose g).
Proof.
  intros [Hlen Hrows]. destruct n as [| n].
  - destruct g; [| discriminate]. split; [reflexivity | constructor].
  - destruct (transpose_rect g (S n) (S n)) as (H1 & H2 & _);
      [lia | assumption | assumption |].
    split; assumption.
Qed.

Lemma transpose_involutive n g : square n g -> transpose (transpose g) = g.
Proof.
  intros [Hlen Hrows]. destruct n as [| n].
  - destruct g; [reflexivity | discriminate].
  - destruct (transpose_rect g (S n) (S n)) as (H1 & H2 & H3);
      [lia | assumption | assumption |].
    destruct (transpose_rect (transpose g) (S n) (S n)) as (H4 & H5 & H6);
      [lia | assumption | assumption |].
    apply (grid_ext (S n) (S n)); try assumption.
    intros i j. rewrite H6, H3. reflexivity.
Qed.

Lemma sum_cells_singletons f row :
  sum_cells f (map (fun x => [x]) row) = sum_row f row.
Proof. induction row as [| c row IH]; simpl; [reflexivity | rewrite IH; lia]. Qed.

Lemma sum_cells_zip_cons f row T :
  length row = length T ->
  sum_cells f (zip_with cons row T) = sum_row f row + sum_cells f T.
Proof.
  revert T. induction row as [| c row IH]; intros [| col T] Hlen;
    try discriminate; [reflexivity |].
  simpl. rewrite IH by (simpl in Hlen; lia). lia.
Qed.

Lemma sum_cells_transpose f n g :
  square n g -> sum_cells f (transpose g) = sum_cells f g.
Proof.
  intros [Hlen Hrows]. clear Hlen.
  induction g as [| row rows IH]; [reflexivity |].
  apply Forall_cons in Hrows as [Hrow Hrows].
  destruct rows as [| r rows].
  - simpl. rewrite sum_cells_singletons. lia.
  - rewrite transpose_cons.
    destruct (transpose_rect (r :: rows) (length (r :: rows)) n) as (HT & _ & _);
      [simpl; lia | reflexivity | exact Hrows |].
    rewrite sum_cells_zip_cons by lia.
    rewrite (IH Hrows). reflexivity.
Qed.

(** ** The four directions on a well-formed instance *)

Lemma move_as_conjugate d r s :
  d <> Left ->
  move d r s = conjugate (to_frame d) (from_frame d) (move_left r) s.
Proof.
  intros Hd. destruct d; [contradiction | | |];
    unfold move, move_right, move_up, move_down, conjugate, with_grid, bind,
      get, modify, ret; simpl;
    match goal with
    | |- context [move_left r ?s1] => destruct (move_left r s1) as [[b | e] s2]
    end; reflexivity.
Qed.

Lemma square_to_frame d n g : square n g -> square n (to_frame d g).
Proof.
  intros H. destruct d; simpl; auto using square_reverse_rows, square_transpose.
Qed.

Lemma square_from_frame d n g : square n g -> square n (from_frame d g).
Proof.
  intros H. destruct d; simpl; auto using square_reverse_rows, square_transpose.
Qed.

Lemma from_to_frame d n g : square n g -> from_frame d (to_frame d g) = g.
Proof.
  intros H. destruct d; simpl.
  - reflexivity.
  - apply reverse_rows_involutive.
  - apply (transpose_involutive n). exact H.
  - rewrite reverse_rows_involutive. apply (transpose_involutive n). exact H.
Qed.

Lemma sum_cells_from_frame f d n g :
  square n g -> sum_cells f (from_frame d g) = sum_cells f g.
Proof.
  intros H. destruct d; simpl.
  - reflexivity.
  - apply sum_cells_reverse_rows.
  - apply (sum_cells_transpose f n). exact H.
  - rewrite (sum_cells_transpose f n) by (apply square_reverse_rows; exact H).
    apply sum_cells_reverse_rows.
Qed.

Lemma set_grid_set_grid g g' s : set_grid g (set_grid g' s) = set_grid g s.
Proof. reflexivity. Qed.

(** Every move, run on a well-formed instance, returns normally and leaves
    what [move_post] describes. *)
Lemma move_wf d r s :
  wf s -> returns (move d r) s (move_post d s).
Proof.
  intros Hwf. destruct (decide (d = Left)) as [-> | Hd].
  { apply move_left_wf. exact Hwf. }
  assert (Hwf1 : wf (in_frame d s)).
  { unfold wf, in_frame. simpl. apply square_to_frame. exact Hwf. }
  destruct (move_left_wf r _ Hwf1) as (b & s2 & Hrun & Hpost).
  eapply returns_run.
  { rewrite (move_as_conjugate d r s Hd).
    unfold conjugate, with_grid, bind, get, modify, ret. simpl.
    fold (in_frame d s). rewrite Hrun. reflexivity. }
  destruct Hpost as (Hwf2 & Hsz2 & Hno & Hyes).
  unfold in_frame at 1 in Hsz2. simpl in Hsz2.
  split; [| split; [| split]].
  - unfold wf. simpl. apply square_from_frame. exact Hwf2.
  - exact Hsz2.
  - intros ->. rewrite (Hno eq_refl). unfold in_frame.
    rewrite set_grid_set_grid. simpl.
    rewrite (from_to_frame d _ _ Hwf). apply set_grid_same.
  - intros ->. destruct (Hyes eq_refl) as (Hsc & Hemp & Htiles & Hmv).
    rewrite in_frame_Left in Hemp, Htiles.
    simpl. unfold tiles in *.
    change grid_points with (sum_cells cell_points) in *.
    rewrite !(sum_cells_from_frame _ d _ _ Hwf2).
    repeat split; assumption.
Qed.

(** ** Construction and reset *)

Lemma sum_row_full row :
  Num 0 ∉ row -> sum_row tile_weight row = Z.of_nat (length row).
Proof.
  induction row as [| c row IH]; intros H; [reflexivity |].
  apply not_elem_of_cons in H as [Hc Hrow]. simpl.
  rewrite tile_weight_nonzero by congruence. rewrite (IH Hrow). lia.
Qed.

(** A square grid with fewer tiles than cells has an empty cell. *)
Lemma has_empty_count n g :
  Forall (fun row => length row = n) g ->
  tiles g < Z.of_nat (length g) * Z.of_nat n -> has_empty g.
Proof.
  unfold tiles. induction g as [| row g IH]; intros Hrows Hlt; [simpl in Hlt; lia |].
  apply Forall_cons in Hrows as [Hrow Hrows].
  destruct (decide (Num 0 ∈ row)) as [Hin | Hnot].
  - apply (has_empty_elem _ row); [left | exact Hin].
  - assert (Hg : has_empty g).
    { apply IH; [exact Hrows |]. simpl in Hlt.
      rewrite (sum_row_full row Hnot) in Hlt. fold (tiles g). unfold tiles. lia. }
    destruct Hg as (i & j & Hc). exists (S i), j. exact Hc.
Qed.

Lemma sum_cells_empty_grid f n : f (Num 0) = 0 -> sum_cells f (empty_grid n) = 0.
Proof.
  intros Hf. unfold empty_grid. generalize (Z.to_nat n) at 1 as k.
  induction k as [| k IH]; simpl; [reflexivity |].
  rewrite sum_row_replicate_zero by exact Hf. lia.
Qed.





(** ** Relations every run respects, exceptions included *)

Section Respects.
Variable R : Game2048 -> Game2048 -> Prop.
Hypothesis R_refl : forall s, R s s.
Hypothesis R_trans : forall s1 s2 s3, R s1 s2 -> R s2 s3 -> R s1 s3.

Lemma respects_ret {A} (a : A) : respects R (ret a).
Proof. intros s. apply R_refl. Qed.

Lemma respects_get : respects R get.
Proof. intros s. apply R_refl. Qed.

Lemma respects_lift {A} (o : outcome A) : respects R (lift o).
Proof. intros s. apply R_refl. Qed.

Lemma respects_modify f : (forall s, R s (f s)) -> respects R (modify f).
Proof. intros H s. apply H. Qed.

Lemma respects_bind {A B} (c : Py A) (k : A -> Py B) :
  respects R c -> (forall a, respects R (k a)) -> respects R (bind c k).
Proof.
  intros Hc Hk s. unfold bind. specialize (Hc s).
  destruct (c s) as [[a | e] s1]; simpl in *.
  - eapply R_trans; [exact Hc | apply Hk].
  - exact Hc.
Qed.

Lemma respects_for_each {A} (xs : list A) body :
  (forall x, respects R (body x)) -> respects R (for_each xs body).
Proof.
  intros Hbody. induction xs as [| x xs IH]; simpl.
  - apply respects_ret.
  - apply respects_bind; [apply Hbody | intros _; exact IH].
Qed.

Hypothesis R_grid : forall v s, R s (set_grid v s).
Hypothesis R_score : forall v s, R s (set_score v s).
Hypothesis R_moves : forall v s, R s (set_moves v s).
Hypothesis R_game_over : forall v s, R s (set_game_over v s).
Hypothesis R_update : respects R update_score.

Lemma respects_check_game_over : respects R check_game_over.
Proof.
  unfold check_game_over.
  apply respects_bind; [apply respects_get | intros self].
  apply respects_bind; [apply respects_lift | intros over].
  destruct over; [| apply respects_ret].
  apply respects_bind; [apply respects_modify, R_game_over | intros _].
  apply respects_ret.
Qed.

Lemma respects_add_new_tile r : respects R (add_new_tile r).
Proof.
  unfold add_new_tile.
  apply respects_bind; [apply respects_get | intros self].
  apply respects_bind; [apply respects_lift | intros empty_cells].
  destruct empty_cells as [| p ps].
  - apply respects_bind; [apply respects_lift | intros over].
    apply respects_bind; [| intros _; apply respects_ret].
    destruct over; [apply respects_modify, R_game_over | apply respects_ret].
  - destruct (nth _ _ _) as [row col].
    apply respects_bind; [apply respects_lift | intros g].
    apply respects_bind; [apply respects_modify, R_grid | intros _].
    apply respects_ret.
Qed.

Lemma respects_clear_cell row col dr dc : respects R (clear_cell row col dr dc).
Proof.
  unfold clear_cell.
  apply respects_bind; [apply respects_get | intros self].
  destruct (_ && _); [| apply respects_ret].
  apply respects_bind; [apply respects_lift | intros c].
  apply respects_bind.
  - destruct c; [apply respects_modify, R_score | apply respects_ret].
  - intros _. apply respects_bind; [apply respects_get | intros self'].
    apply respects_bind; [apply respects_lift | intros g].
    apply respects_modify, R_grid.
Qed.

Lemma respects_clear_surrounding_tiles : respects R clear_surrounding_tiles.
Proof.
  unfold clear_surrounding_tiles.
  apply respects_bind; [apply respects_get | intros self].
  apply respects_bind; [apply respects_lift | intros m_positions].
  apply respects_for_each. intros [row col].
  apply respects_for_each. intros dr.
  apply respects_for_each. intros dc.
  apply respects_clear_cell.
Qed.

Lemma respects_commit_move new_grid special_merged :
  respects R (commit_move new_grid special_merged).
Proof.
  unfold commit_move.
  apply respects_bind.
  - destruct special_merged;
      [apply respects_clear_surrounding_tiles | apply respects_ret].
  - intros _. apply respects_bind; [apply respects_modify, R_grid | intros _].
    apply respects_bind; [apply respects_get | intros self].
    apply respects_modify, R_moves.
Qed.

Lemma respects_after_slide r new_grid moved special_merged :
  respects R (after_slide r new_grid moved special_merged).
Proof.
  unfold after_slide. destruct (moved || special_merged); [| apply respects_ret].
  apply respects_bind; [apply respects_commit_move | intros _].
  apply respects_bind; [apply respects_add_new_tile | intros _].
  apply respects_bind; [apply R_update | intros _].
  apply respects_bind; [apply respects_check_game_over | intros _].
  apply respects_ret.
Qed.

Lemma respects_spawn_twice r1 r2 :
  respects R (add_new_tile r1 ;; add_new_tile r2 ;; update_score).
Proof.
  apply respects_bind; [apply respects_add_new_tile | intros _].
  apply respects_bind; [apply respects_add_new_tile | intros _].
  apply R_update.
Qed.

Lemma respects_with_grid f : respects R (with_grid f).
Proof.
  unfold with_grid.
  apply respects_bind; [apply respects_get | intros self].
  apply respects_modify, R_grid.
Qed.

Lemma respects_conjugate f finv (m : Py bool) :
  respects R m -> respects R (conjugate f finv m).
Proof.
  intros Hm. unfold conjugate.
  apply respects_bind; [apply respects_with_grid | intros _].
  apply respects_bind; [exact Hm | intros moved].
  apply respects_bind; [apply respects_with_grid | intros _].
  apply respects_ret.
Qed.
End Respects.

Lemma move_left_run r s :
  move_left r s =
  after_slide r
    (fst (fst (slide_rows (size s) (grid s) (won s, false))))
    (snd (fst (slide_rows (size s) (grid s) (won s, false))))
    (snd (snd (slide_rows (size s) (grid s) (won s, false))))
    (set_won (fst (snd (slide_rows (size s) (grid s) (won s, false)))) s).
Proof.
  unfold move_left, bind, get. simpl.
  destruct (slide_rows (size s) (grid s) (won s, false))
    as [[new_grid moved] [won' special_merged]].
  reflexivity.
Qed.

(** ** The won flag through the scan *)

Lemma merged_values_pair x y tl :
  merged_values (x :: y :: tl) =
  if cell_eqb x y && negb (cell_eqb x M) then double x :: merged_values tl
  else if cell_eqb x M && cell_eqb y M then merged_values tl
  else merged_values (y :: tl).
Proof. reflexivity. Qed.

Lemma merge_loop_flag k :
  forall l w sp, (length l <= k)%nat ->
    fst (snd (merge_loop l (w, sp))) = w || existsb is_2048 (merged_values l).
Proof.
  induction k as [| k IH]; intros l w sp Hk.
  - destruct l; [| simpl in Hk; lia]. simpl. rewrite orb_false_r. reflexivity.
  - destruct l as [| x [| y tl]]; try (simpl; rewrite orb_false_r; reflexivity).
    rewrite merge_loop_pair, merged_values_pair.
    destruct (cell_eqb x y && negb (cell_eqb x M)).
    + cbv zeta. cbn [fst snd existsb]. fold (is_2048 (double x)).
      destruct (is_2048 (double x)) eqn:H2048; destruct w; cbn [andb negb orb];
        rewrite IH by (simpl in Hk; lia); reflexivity.
    + destruct (cell_eqb x M && cell_eqb y M); cbn [fst snd].
      * apply IH. simpl in Hk. lia.
      * apply IH. simpl in Hk |- *. lia.
Qed.

Lemma slide_row_flag n row w sp :
  fst (snd (slide_row n row (w, sp))) =
  w || existsb is_2048 (merged_values (compact row)).
Proof.
  unfold slide_row.
  pose proof (merge_loop_flag (length (compact row)) (compact row) w sp (le_n _)) as H.
  destruct (merge_loop (compact row) (w, sp)) as [merged out]. exact H.
Qed.

Lemma slide_rows_flag n g w sp :
  fst (snd (slide_rows n g (w, sp))) = w || makes_2048 g.
Proof.
  unfold makes_2048. revert w sp.
  induction g as [| row rows IH]; intros w sp.
  - simpl. rewrite orb_false_r. reflexivity.
  - rewrite slide_rows_cons. cbv zeta. cbn [fst snd existsb].
    pose proof (slide_row_flag n row w sp) as Hrow.
    destruct (slide_row n row (w, sp)) as [merged [w1 sp1]].
    cbn [fst snd] in *. rewrite IH, Hrow, orb_assoc. reflexivity.
Qed.

Lemma keeps_won_update_score : respects keeps_won update_score.
Proof.
  intros s. rewrite update_score_run. unfold keeps_won. simpl.
  destruct (high_score s <? grid_points (grid s)); reflexivity.
Qed.

Lemma raises_high_score_update_score : respects raises_high_score update_score.
Proof.
  intros s. rewrite update_score_run. unfold raises_high_score. simpl.
  destruct (high_score s <? grid_points (grid s)) eqn:H; simpl; [| lia].
  apply Z.ltb_lt in H. lia.
Qed.

Lemma keeps_won_trans s1 s2 s3 : keeps_won s1 s2 -> keeps_won s2 s3 -> keeps_won s1 s3.
Proof. unfold keeps_won. congruence. Qed.

Lemma raises_high_score_trans s1 s2 s3 :
  raises_high_score s1 s2 -> raises_high_score s2 s3 -> raises_high_score s1 s3.
Proof. unfold raises_high_score. lia. Qed.

(** The won flag after [move_left], whatever the outcome. *)
Lemma won_after_move_left r s :
  won (snd (move_left r s)) = won s || makes_2048 (grid s).
Proof.
  rewrite move_left_run.
  rewrite (respects_after_slide keeps_won (fun _ => eq_refl) keeps_won_trans
             (fun _ _ => eq_refl) (fun _ _ => eq_refl) (fun _ _ => eq_refl)
             (fun _ _ => eq_refl) keeps_won_update_score).
  simpl. apply slide_rows_flag.
Qed.

Lemma raises_high_score_refl s : raises_high_score s s.
Proof. unfold raises_high_score. lia. Qed.

Lemma raises_high_score_after_slide r new_grid moved special_merged :
  respects raises_high_score (after_slide r new_grid moved special_merged).
Proof.
  apply (respects_after_slide raises_high_score raises_high_score_refl
           raises_high_score_trans);
    try (intros v s0; unfold raises_high_score; simpl; lia).
  exact raises_high_score_update_score.
Qed.

Lemma raises_high_score_move_left r : respects raises_high_score (move_left r).
Proof.
  intros s. rewrite move_left_run.
  eapply raises_high_score_trans; [| apply raises_high_score_after_slide].
  unfold raises_high_score. simpl. lia.
Qed.

Lemma won_after_move d r s :
  won (snd (move d r s)) = won s || makes_2048 (to_frame d (grid s)).
Proof.
  destruct (decide (d = Left)) as [-> | Hd]; [apply won_after_move_left |].
  rewrite (move_as_conjugate d r s Hd).
  unfold conjugate, with_grid, bind, get, modify, ret. simpl.
  pose proof (won_after_move_left r (set_grid (to_frame d (grid s)) s)) as H.
  destruct (move_left r (set_grid (to_frame d (grid s)) s)) as [[b | e] s2];
    simpl in *; exact H.
Qed.

Lemma raises_high_score_move d r : respects raises_high_score (move d r).
Proof.
  intros s. destruct (decide (d = Left)) as [-> | Hd];
    [apply raises_high_score_move_left |].
  rewrite (move_as_conjugate d r s Hd).
  apply (respects_conjugate raises_high_score raises_high_score_refl
           raises_high_score_trans).
  - intros v s0. unfold raises_high_score. simpl. lia.
  - apply raises_high_score_move_left.
Qed.

Lemma raises_high_score_reset r1 r2 : respects raises_high_score (reset r1 r2).
Proof.
  unfold reset.
  apply (respects_bind raises_high_score raises_high_score_trans);
    [apply respects_get, raises_high_score_refl | intros self].
  do 5 (apply (respects_bind raises_high_score raises_high_score_trans);
        [apply respects_modify; intros s0; unfold raises_high_score; simpl; lia
        | intros _]).
  apply (respects_spawn_twice raises_high_score raises_high_score_refl
           raises_high_score_trans);
    try (intros v s0; unfold raises_high_score; simpl; lia).
  exact raises_high_score_update_score.
Qed.

Lemma won_after_reset r1 r2 s : won (snd (reset r1 r2 s)) = false.
Proof.
  unfold reset, bind at 1 2 3 4 5 6, get, modify. simpl.
  rewrite (respects_spawn_twice keeps_won (fun _ => eq_refl) keeps_won_trans
             (fun _ _ => eq_refl) (fun _ _ => eq_refl)
             keeps_won_update_score).
  reflexivity.
Qed.

(** [set_state] run to its end assigns every field; the high score is the
    larger of the old and the imported one. *)
Lemma set_state_run state s :
  fst (set_state state s) = Return tt ->
  exists g sc mv over w sz,
    state = mkSaved (Some g) (Some sc) (s_high_score state) (Some mv)
                    (Some over) (Some w) (Some sz) /\
    snd (set_state state s) =
      mkGame sz g sc (Z.max (high_score s) (default 0 (s_high_score state)))
             mv over w.
Proof.
  destruct state as [[g|] [sc|] hs [mv|] [over|] [w|] [sz|]];
    try (intros H; discriminate H).
  intros _. exists g, sc, mv, over, w, sz. split; reflexivity.
Qed.

Lemma raises_high_score_set_state state : respects raises_high_score (set_state state).
Proof.
  intros s. unfold raises_high_score.
  destruct state as [[g|] [sc|] hs [mv|] [over|] [w|] [sz|]]; simpl; lia.
Qed.

(** ** The cells of a reversed and of a transposed grid *)

Lemma lookup_cell_reverse_rows n g i j :
  square n g ->
  lookup_cell (reverse_rows g) i j =
  if decide (j < n)%nat then lookup_cell g i (n - S j) else None.
Proof.
  intros [Hlen Hrows]. unfold lookup_cell, reverse_rows.
  change (map reverse g) with (reverse <$> g). rewrite list_lookup_fmap.
  destruct (g !! i) as [row |] eqn:Hrow; simpl.
  - pose proof (Forall_lookup_1 _ _ _ _ Hrows Hrow) as Hl. simpl in Hl.
    destruct (decide (j < n)%nat) as [Hj | Hj].
    + rewrite reverse_lookup by lia. rewrite Hl. reflexivity.
    + apply lookup_ge_None_2. rewrite length_reverse. lia.
  - destruct (decide (j < n)%nat); reflexivity.
Qed.

Lemma lookup_cell_transpose n g i j :
  square n g -> lookup_cell (transpose g) j i = lookup_cell g i j.
Proof.
  intros [Hlen Hrows]. destruct n as [| n].
  - destruct g; [| discriminate]. simpl. unfold lookup_cell.
    rewrite !lookup_nil. reflexivity.
  - destruct (transpose_rect g (S n) (S n)) as (_ & _ & H);
      [lia | assumption | assumption |]. apply H.
Qed.

(** * Main results *)

Lemma wf_stuck_grid : wf stuck_grid.
Proof. split; [reflexivity | repeat constructor]. Defined.

Lemma wf_scenario_C : wf scenario_C.
Proof. split; [reflexivity | repeat constructor]. Defined.

Lemma lookup_cell_2x2 a b c d i j :
  lookup_cell [[a; b]; [c; d]] i j =
  match i, j with
  | O, O => Some a
  | O, S O => Some b
  | S O, O => Some c
  | S O, S O => Some d
  | _, _ => None
  end.
Proof.
  destruct i as [| [| i]], j as [| [| j]]; reflexivity.
Qed.

(** C1, counterexample: on the full 2 by 2 grid [[M, 2], [4, 8]] no cell is
    empty, no two neighbours are equal and no marker touches a marker, yet
    [is_game_over] returns [False]: the claimed equivalence fails there. *)
Lemma C1_marker_grid_counterexample :
  spec_terminal (grid marker_grid) /\
  is_game_over marker_grid = Return false /\
  ~ (is_game_over marker_grid = Return true <-> spec_terminal (grid marker_grid)).
Proof.
  assert (Hspec : spec_terminal (grid marker_grid)).
  { unfold spec_terminal, no_empty_cell, no_equal_neighbours,
      no_adjacent_markers, adjacent, marker_grid. simpl.
    split; [| split].
    - intros i j. rewrite lookup_cell_2x2.
      destruct i as [| [| i]], j as [| [| j]]; discriminate.
    - intros [i j] [i' j'] c Hadj H1 H2. simpl in *.
      rewrite lookup_cell_2x2 in H1, H2.
      destruct i as [| [| i]], j as [| [| j]], i' as [| [| i']], j' as [| [| j']];
        try discriminate; try congruence; exfalso; lia.
    - intros [i j] [i' j'] Hadj H1 H2. simpl in *.
      rewrite lookup_cell_2x2 in H1, H2.
      destruct i as [| [| i]], j as [| [| j]], i' as [| [| i']], j' as [| [| j']];
        try discriminate; try congruence; exfalso; lia. }
  split; [exact Hspec |]. split; [reflexivity |].
  intros [_ H]. specialize (H Hspec). discriminate H.
Qed.

(** C1, as the code has it: on every well-formed instance [is_game_over]
    returns normally, and it returns [True] exactly when the grid has no empty
    cell, no special-marker cell at all, and no two horizontally or
    vertically adjacent cells with the same value; [check_game_over] returns
    the same answer and sets the game-over flag when the answer is [True],
    leaving the instance untouched otherwise.  In particular a [True] answer
    implies the condition of the specification; the converse fails on grids
    that hold a marker. *)
Theorem C1_is_game_over_terminal (s : Game2048) :
  wf s ->
  exists b,
    is_game_over s = Return b /\
    (b = true <-> terminal (grid s)) /\
    (b = true -> spec_terminal (grid s)) /\
    check_game_over s = (Return b, if b then set_game_over true s else s).
Proof.
  intros Hwf. destruct (is_game_over_wf s Hwf) as (b & Hb & Hchar).
  exists b. split; [exact Hb |]. split; [exact Hchar |]. split.
  - intros Htrue. apply Hchar in Htrue as (H0 & HM & Hneq).
    split; [exact H0 |]. split; [exact Hneq |].
    intros p q _ Hp. exfalso. exact (HM _ _ Hp).
  - apply check_game_over_run. exact Hb.
Qed.

Lemma C1_is_game_over_terminal_witness :
  exists b,
    is_game_over stuck_grid = Return b /\
    (b = true <-> terminal (grid stuck_grid)) /\
    (b = true -> spec_terminal (grid stuck_grid)) /\
    check_game_over stuck_grid =
      (Return b, if b then set_game_over true stuck_grid else stuck_grid).
Proof.
  apply (C1_is_game_over_terminal stuck_grid).
  split; [reflexivity | repeat constructor].
Defined.

(** ** C2: the marker merge *)

(** A spawn leaves every tile where it is. *)
Lemma lookup_cell_spawn g i j row v i' j' c :
  g !! i = Some row -> row !! j = Some (Num 0) ->
  lookup_cell g i' j' = Some c -> c <> Num 0 ->
  lookup_cell (<[i := <[j := v]> row]> g) i' j' = Some c.
Proof.
  intros Hrow Hc Hc' Hne. unfold lookup_cell in *.
  destruct (decide (i = i')) as [<- | Hi].
  - rewrite list_lookup_insert_eq by (eapply lookup_lt_Some; exact Hrow).
    rewrite Hrow in Hc'.
    destruct (decide (j = j')) as [<- | Hj]; [congruence |].
    rewrite list_lookup_insert_ne by exact Hj. exact Hc'.
  - rewrite list_lookup_insert_ne by exact Hi. exact Hc'.
Qed.

(** The instance [move_left] hands to [add_new_tile] in scenario C: the
    score holds the bonus of the cleared cells, the grid is [new_grid]. *)
Lemma scenario_C_before_spawn r :
  move_left r scenario_C =
  (add_new_tile r ;; update_score ;; check_game_over ;; ret true)
    (mkGame 4 [[Num 0; Num 4; Num 0; Num 0];
               [Num 2; Num 0; Num 0; Num 0];
               [Num 0; Num 0; Num 0; Num 0];
               [Num 0; Num 0; Num 0; Num 0]] 12 6 1 false false).
Proof. reflexivity. Qed.

(** C2, the code at the scenario: a left move on the grid whose first row is
    ['M', 'M', 4, 0] and whose second row starts with 2 returns [True], but
    the cell (0, 1) of the result holds the 4 (the row is not [0, 0, 0, 0]),
    the 2 under the markers is still there, and the score is the plain sum
    of the cells, without any bonus: the cells [clear_surrounding_tiles]
    zeroes belong to the grid that [new_grid] then replaces. *)
Theorem C2_marker_merge_clears_nothing (r : rnd) :
  exists s',
    move_left r scenario_C = (Return true, s') /\
    lookup_cell (grid s') 0 1 = Some (Num 4) /\
    lookup_cell (grid s') 1 0 = Some (Num 2) /\
    score s' = grid_points (grid s') /\
    (score s' = 8 \/ score s' = 10).
Proof.
  rewrite scenario_C_before_spawn.
  set (s2 := mkGame 4 _ 12 6 1 false false).
  assert (Hwf2 : wf s2) by (split; [reflexivity | repeat constructor]).
  destruct (add_new_tile_wf r s2 Hwf2) as (b & s3 & Hrun & Hpost).
  destruct (spawn_post_facts _ _ _ Hwf2 Hpost) as (Hwf3 & _ & _ & _ & Hb).
  assert (b = true) as ->.
  { apply Hb. exists 0%nat, 0%nat. reflexivity. }
  simpl in Hpost. destruct Hpost as (i & j & row & v & Hrow & Hc & Hv & Hs3).
  assert (H4 : lookup_cell (grid s3) 0 1 = Some (Num 4)).
  { rewrite Hs3. simpl grid.
    apply (lookup_cell_spawn _ _ _ _ _ _ _ _ Hrow Hc); [reflexivity | discriminate]. }
  assert (H2 : lookup_cell (grid s3) 1 0 = Some (Num 2)).
  { rewrite Hs3. simpl grid.
    apply (lookup_cell_spawn _ _ _ _ _ _ _ _ Hrow Hc); [reflexivity | discriminate]. }
  assert (Hpts : grid_points (grid s3) = 8 \/ grid_points (grid s3) = 10).
  { rewrite Hs3. simpl grid. change grid_points with (sum_cells cell_points).
    rewrite (sum_cells_insert _ _ _ _ _ Hrow), (sum_row_insert _ _ _ _ _ Hc).
    destruct Hv as [-> | ->]; simpl; lia. }
  set (s4 := if high_score s3 <? grid_points (grid s3)
             then set_high_score (grid_points (grid s3))
                    (set_score (grid_points (grid s3)) s3)
             else set_score (grid_points (grid s3)) s3).
  assert (E4 : grid s4 = grid s3 /\ size s4 = size s3 /\
               score s4 = grid_points (grid s3)).
  { subst s4. destruct (high_score s3 <? grid_points (grid s3)); repeat split. }
  destruct E4 as (Hg4 & Hsz4 & Hsc4).
  assert (Hwf4 : wf s4) by (unfold wf; rewrite Hg4, Hsz4; exact Hwf3).
  destruct (is_game_over_wf s4 Hwf4) as (over & Hover & _).
  exists (if over then set_game_over true s4 else s4). split.
  - unfold bind at 1. rewrite Hrun.
    unfold bind at 1. rewrite update_score_run. fold s4.
    unfold bind at 1. rewrite (check_game_over_run _ _ Hover). reflexivity.
  - assert (E5 : grid (if over then set_game_over true s4 else s4) = grid s4 /\
                 score (if over then set_game_over true s4 else s4) = score s4)
      by (destruct over; split; reflexivity).
    destruct E5 as [-> ->]. rewrite Hg4, Hsc4. auto.
Qed.

(** ** C3: the score invariant *)




(** ** C4: the high score *)

Lemma raises_high_score_run_op o s : high_score s <= high_score (run_op o s).
Proof.
  destruct o as [d r | r1 r2 | state]; simpl.
  - apply raises_high_score_move.
  - apply raises_high_score_reset.
  - apply raises_high_score_set_state.
Qed.

(** C4: over every sequence of moves, resets and state imports on one
    instance the high score never decreases (whether or not an operation
    raises); and a state import that runs to its end sets the high score to
    the maximum of the existing one and the imported one (0 when the saved
    state has none). *)
Theorem C4_high_score_never_decreases :
  (forall os s, high_score s <= high_score (run_ops os s)) /\
  (forall state s,
     fst (set_state state s) = Return tt ->
     high_score (snd (set_state state s)) =
     Z.max (high_score s) (default 0 (s_high_score state))).
Proof.
  split.
  - intros os. unfold run_ops. induction os as [| o os IH]; intros s; simpl.
    + lia.
    + pose proof (raises_high_score_run_op o s). specialize (IH (run_op o s)). lia.
  - intros state s Hok.
    destruct (set_state_run state s Hok) as (g & sc & mv & over & w & sz & _ & ->).
    reflexivity.
Qed.

Lemma C4_high_score_never_decreases_witness :
  high_score (snd (set_state fresh_save winner)) =
  Z.max (high_score winner) (default 0 (s_high_score fresh_save)).
Proof.
  apply (proj2 C4_high_score_never_decreases fresh_save winner).
  reflexivity.
Defined.

(** ** C5: the won flag *)

(** C5, counterexample: an instance whose won flag is set imports a saved
    state whose flag is clear; the import succeeds and the flag is false
    again. *)
Lemma C5_import_reverts_won :
  won winner = true /\
  fst (set_state fresh_save winner) = Return tt /\
  won (run_ops [OpSetState fresh_save] winner) = false.
Proof. repeat split. Qed.

(** C5, as the code has it: a move leaves the won flag set exactly when it
    was set before or one of the move's merges produced the value 2048 (in the
    frame the move works in); hence no sequence of moves ever clears it.  A
    state import that runs to its end overwrites the flag with the imported
    one, and a reset clears it. *)
Theorem C5_won_flag :
  (forall d r s,
     won (snd (move d r s)) = won s || makes_2048 (to_frame d (grid s))) /\
  (forall os s,
     Forall is_move os -> won s = true -> won (run_ops os s) = true) /\
  (forall state s,
     fst (set_state state s) = Return tt ->
     s_won state = Some (won (snd (set_state state s)))) /\
  (forall r1 r2 s, won (snd (reset r1 r2 s)) = false).
Proof.
  split; [exact won_after_move |]. split; [| split; [| exact won_after_reset]].
  - intros os. unfold run_ops. induction os as [| o os IH]; intros s Hmoves Hwon.
    + exact Hwon.
    + apply Forall_cons in Hmoves as [Ho Hmoves]. simpl. apply IH; [exact Hmoves |].
      destruct o as [d r | |]; try contradiction. simpl.
      rewrite won_after_move, Hwon. reflexivity.
  - intros state s Hok.
    destruct (set_state_run state s Hok) as (g & sc & mv & over & w & sz & Hst & ->).
    rewrite Hst. reflexivity.
Qed.

Lemma C5_won_flag_witness :
  won (run_ops [OpMove Left r0; OpMove Down r0] winner) = true /\
  s_won fresh_save = Some (won (snd (set_state fresh_save winner))).
Proof.
  split.
  - apply (proj1 (proj2 C5_won_flag) [OpMove Left r0; OpMove Down r0] winner).
    + repeat constructor.
    + reflexivity.
  - apply (proj1 (proj2 (proj2 C5_won_flag)) fresh_save winner). reflexivity.
Defined.

(** ** C6: construction *)




(** ** C7: the spawn after a move *)

(** C7: on every well-formed instance, when a move in any direction returns
    [True], the grid it has produced (the grid handed to [add_new_tile], in
    the frame the move works in) has an empty cell and the spawn adds exactly
    one tile to it; and [add_new_tile] returns [False] exactly when the grid
    has no empty cell, [True] exactly when it has one. *)
Theorem C7_spawn_after_move_succeeds (s : Game2048) (d : direction) (r : rnd) :
  wf s ->
  (fst (move d r s) = Return true ->
     has_empty (slid (in_frame d s)) /\
     tiles (grid (snd (move d r s))) = tiles (slid (in_frame d s)) + 1) /\
  (fst (add_new_tile r s) = Return false <-> ~ has_empty (grid s)) /\
  (fst (add_new_tile r s) = Return true <-> has_empty (grid s)).
Proof.
  intros Hwf. split.
  - intros Hmoved.
    destruct (move_wf d r s Hwf) as (b & s' & Hrun & _ & _ & _ & Hyes).
    rewrite Hrun in Hmoved |- *. simpl in Hmoved |- *.
    injection Hmoved as ->. destruct (Hyes eq_refl) as (_ & He & Ht & _). auto.
  - destruct (add_new_tile_wf r s Hwf) as (b & s' & Hrun & Hpost).
    destruct (spawn_post_facts _ _ _ Hwf Hpost) as (_ & _ & _ & _ & Hb).
    rewrite Hrun. simpl. split; split.
    + intros Hf He. injection Hf as ->. apply Hb in He. discriminate He.
    + intros Hfull. destruct b; [| reflexivity].
      exfalso. apply Hfull, Hb. reflexivity.
    + intros Ht. injection Ht as ->. apply Hb. reflexivity.
    + intros He. apply Hb in He. rewrite He. reflexivity.
Qed.

Lemma C7_spawn_after_move_succeeds_witness :
  has_empty (slid (in_frame Left scenario_C)) /\
  tiles (grid (snd (move Left r0 scenario_C))) =
  tiles (slid (in_frame Left scenario_C)) + 1.
Proof.
  apply (proj1 (C7_spawn_after_move_succeeds scenario_C Left r0 wf_scenario_C)).
  reflexivity.
Defined.

(** ** C8: refused moves *)

(** C8: on every well-formed instance and for every direction, a move that
    returns [False] leaves the whole instance as it was: the grid cell for
    cell (no tile is spawned), the score, the high score, the move counter and
    both flags. *)
Theorem C8_refused_move_changes_nothing (s : Game2048) (d : direction) (r : rnd) :
  wf s -> fst (move d r s) = Return false -> snd (move d r s) = s.
Proof.
  intros Hwf Hrefused.
  destruct (move_wf d r s Hwf) as (b & s' & Hrun & _ & _ & Hno & _).
  rewrite Hrun in Hrefused |- *. simpl in Hrefused |- *.
  injection Hrefused as ->. apply Hno. reflexivity.
Qed.

Lemma C8_refused_move_changes_nothing_witness :
  snd (move Down r0 stuck_grid) = stuck_grid.
Proof.
  apply (C8_refused_move_changes_nothing stuck_grid Down r0 wf_stuck_grid).
  reflexivity.
Defined.

(** ** C9: the directions as conjugates of the left move *)

(** The directions are not interchangeable: the grid [[0,0],[2,4]] is
    refused by the left move and accepted by the up move. *)
Example move_up_is_not_move_left :
  fst (move_left r0 (mkGame 2 [[Num 0; Num 0]; [Num 2; Num 4]] 6 6 0 false false))
    = Return false /\
  fst (move_up r0 (mkGame 2 [[Num 0; Num 0]; [Num 2; Num 4]] 6 6 0 false false))
    = Return true.
Proof. split; reflexivity. Qed.

(** C9: on every instance and for every draw, [move_right] is reverse-rows,
    left, reverse-rows; [move_up] is transpose, left, transpose; [move_down]
    is transpose, reverse-rows, left, reverse-rows, transpose: each pair
    returns the same result (or raises the same exception) and leaves the
    same instance.  The two transformations are the reversal and the
    transposition of the specification: on every [n] by [n] grid the cell at
    row [i], column [j] of the row-reversed grid is the cell at row [i],
    column [n - 1 - j] of the grid, and the cell at row [i], column [j] of
    the transposed grid is the cell at row [j], column [i] of the grid; both
    keep the grid [n] by [n], and the transformation applied after the left
    move undoes the one applied before it. *)
Theorem C9_moves_are_conjugates_of_left (r : rnd) (s : Game2048) :
  (move_right r s = spec_right r s /\
   move_up r s = spec_up r s /\
   move_down r s = spec_down r s) /\
  (forall n g, square n g ->
     (forall i j, (j < n)%nat ->
        lookup_cell (reverse_rows g) i j = lookup_cell g i (n - 1 - j)) /\
     (forall i j, lookup_cell (transpose g) i j = lookup_cell g j i) /\
     (forall i j, (j < n)%nat ->
        lookup_cell (reverse_rows (transpose g)) i j = lookup_cell g (n - 1 - j) i) /\
     square n (reverse_rows g) /\ square n (transpose g) /\
     reverse_rows (reverse_rows g) = g /\
     transpose (transpose g) = g /\
     transpose (reverse_rows (reverse_rows (transpose g))) = g).
Proof.
  split.
  - unfold move_right, move_up, move_down, spec_right, spec_up, spec_down,
      with_grid, bind, get, modify, ret. simpl.
    repeat split;
      match goal with
      | |- context [move_left r ?s1] => destruct (move_left r s1) as [[b | e] s2]
      end; reflexivity.
  - intros n g Hsq.
    assert (Hrev : forall g' i j, square n g' -> (j < n)%nat ->
              lookup_cell (reverse_rows g') i j = lookup_cell g' i (n - 1 - j)).
    { intros g' i j Hsq' Hj. rewrite (lookup_cell_reverse_rows n g' i j Hsq').
      destruct (decide (j < n)%nat) as [_ | Hn]; [| contradiction].
      f_equal. lia. }
    split; [intros i j Hj; apply Hrev; assumption |].
    split; [intros i j; apply (lookup_cell_transpose n); exact Hsq |].
    split.
    { intros i j Hj. rewrite Hrev by (try apply square_transpose; assumption).
      apply (lookup_cell_transpose n). exact Hsq. }
    split; [apply square_reverse_rows; exact Hsq |].
    split; [apply square_transpose; exact Hsq |].
    rewrite !reverse_rows_involutive.
    rewrite (transpose_involutive _ _ Hsq). auto.
Qed.

Lemma C9_moves_are_conjugates_of_left_witness :
  move_down r0 scenario_C = spec_down r0 scenario_C /\
  lookup_cell (reverse_rows (grid scenario_C)) 0 1 = Some (Num 4) /\
  lookup_cell (transpose (grid scenario_C)) 0 1 = Some (Num 2) /\
  lookup_cell (reverse_rows (transpose (grid scenario_C))) 0 2 = Some (Num 2) /\
  transpose (reverse_rows (reverse_rows (transpose (grid scenario_C)))) =
  grid scenario_C.
Proof.
  destruct (C9_moves_are_conjugates_of_left r0 scenario_C)
    as ((_ & _ & Hdown) & Hcells).
  destruct (Hcells 4%nat (grid scenario_C) wf_scenario_C)
    as (Hrev & Htr & Hboth & _ & _ & _ & _ & Hinv).
  split; [exact Hdown |].
  split; [rewrite (Hrev 0%nat 1%nat) by lia; reflexivity |].
  split; [rewrite (Htr 0%nat 1%nat); reflexivity |].
  split; [rewrite (Hboth 0%nat 2%nat) by lia; reflexivity |].
  exact Hinv.
Defined.

(** ** C10: creating a room under concurrent first access *)

(** C10, counterexample: two handlers join the room ["default"], which no one
    has seen; both run their test before either stores its entry.  Two
    [Game2048] objects are constructed, the first handler is served the first
    object, the second handler the second, and the registry keeps the
    second. *)
Lemma C10_two_creators_two_instances :
  exists final,
    rtc server_step two_joiners final /\
    constructed (registry_of final) = 2%nat /\
    handlers final = [mkHandler "default" (Finished (Some 0%nat));
                      mkHandler "default" (Finished (Some 1%nat))] /\
    rooms (registry_of final) !! "default" = Some 1%nat.
Proof.
  eexists. split.
  - eapply rtc_l; [apply (step_handler 0) with (h := mkHandler "default" AtTest);
                   reflexivity |].
    eapply rtc_l; [apply (step_handler 1) with (h := mkHandler "default" AtTest);
                   reflexivity |].
    eapply rtc_l; [apply (step_handler 0) with (h := mkHandler "default" AtCreate);
                   reflexivity |].
    eapply rtc_l; [apply (step_handler 0) with (h := mkHandler "default" AtUse);
                   reflexivity |].
    eapply rtc_l; [apply (step_handler 1) with (h := mkHandler "default" AtCreate);
                   reflexivity |].
    eapply rtc_l; [apply (step_handler 1) with (h := mkHandler "default" AtUse);
                   reflexivity |].
    apply rtc_refl.
  - repeat split; vm_compute; reflexivity.
Qed.

Lemma handle_join_room_seen key reg v :
  rooms reg !! key = Some v ->
  handle_join_room key reg = (Finished (Some v), reg).
Proof.
  intros H. unfold handle_join_room, run_handler, handler_step. simpl.
  rewrite H. simpl. rewrite H. reflexivity.
Qed.

Lemma handle_join_room_unseen key reg :
  rooms reg !! key = None ->
  handle_join_room key reg =
  (Finished (Some (constructed reg)),
   mkRegistry (<[key := constructed reg]> (rooms reg)) (S (constructed reg))).
Proof.
  intros H. unfold handle_join_room, run_handler, handler_step. simpl.
  rewrite H. simpl. rewrite lookup_insert_eq. reflexivity.
Qed.

Lemma serve_in_turn_seen key v n reg :
  rooms reg !! key = Some v ->
  serve_in_turn (replicate n key) reg = (replicate n (Finished (Some v)), reg).
Proof.
  intros H. induction n as [| n IH]; [reflexivity |].
  simpl. rewrite (handle_join_room_seen _ _ _ H), IH. reflexivity.
Qed.

(** C10, as the code has it: the test and the creation are separate
    statements with no lock around them.  When the calls for one unseen key
    are served one after the other, exactly one [Game2048] is constructed and
    registered for the key, and every caller is served that object. *)
Theorem C10_sequential_get_or_create (key : string) (n : nat) (reg : registry) :
  rooms reg !! key = None ->
  serve_in_turn (replicate (S n) key) reg =
  (replicate (S n) (Finished (Some (constructed reg))),
   mkRegistry (<[key := constructed reg]> (rooms reg)) (S (constructed reg))).
Proof.
  intros Hnew. cbn [replicate serve_in_turn].
  rewrite (handle_join_room_unseen _ _ Hnew).
  rewrite (serve_in_turn_seen key (constructed reg)); [reflexivity |].
  simpl. apply lookup_insert_eq.
Qed.

Lemma C10_sequential_get_or_create_witness :
  serve_in_turn (replicate 50 "default") no_rooms =
  (replicate 50 (Finished (Some 0%nat)),
   mkRegistry (<["default" := 0%nat]> ∅) 1).
Proof.
  apply (C10_sequential_get_or_create "default" 49 no_rooms).
  reflexivity.
Defined.

(** * Further properties *)

(** ** get_max_tile and check_auto_save *)

Lemma foldl_max_spec xs : forall a,
  foldl Z.max a xs ∈ a :: xs /\ forall x, x ∈ a :: xs -> x <= foldl Z.max a xs.
Proof.
  induction xs as [| y xs IH]; intros a; simpl.
  - split; [left |]. intros x Hx. apply list_elem_of_singleton in Hx as ->. lia.
  - destruct (IH (Z.max a y)) as [Hin Hle]. split.
    + apply elem_of_cons in Hin as [Heq | Hin].
      * rewrite Heq. destruct (Z.max_spec a y) as [[_ ->] | [_ ->]];
          [right; left | left].
      * right. right. exact Hin.
    + intros x Hx.
      assert (Hm : Z.max a y <= foldl Z.max (Z.max a y) xs) by (apply Hle; left).
      apply elem_of_cons in Hx as [-> | Hx]; [lia |].
      apply elem_of_cons in Hx as [-> | Hx]; [lia |].
      apply Hle. right. exact Hx.
Qed.

Lemma py_max_spec l m :
  py_max l = Some m -> m ∈ l /\ forall x, x ∈ l -> x <= m.
Proof.
  destruct l as [| a xs]; [discriminate |]. simpl. intros [= <-].
  apply foldl_max_spec.
Qed.

Lemma py_max_None l : py_max l = None <-> l = [].
Proof. destruct l; simpl; split; intros H; congruence. Qed.

Lemma row_max_spec row m :
  row_max row = Some m ->
  Num m ∈ row /\ forall z, Num z ∈ row -> z <= m.
Proof.
  unfold row_max. intros H. apply py_max_spec in H as [Hin Hle]. split.
  - apply list_elem_of_omap in Hin as (c & Hc & Hnum).
    destruct c; simpl in Hnum; [| discriminate]. injection Hnum as ->. exact Hc.
  - intros z Hz. apply Hle. apply list_elem_of_omap. exists (Num z). auto.
Qed.

Lemma row_max_None row z : row_max row = None -> Num z ∉ row.
Proof.
  unfold row_max. rewrite py_max_None. intros Hnil Hz.
  assert (z ∈ omap cell_number row) as Hin
    by (apply list_elem_of_omap; exists (Num z); auto).
  rewrite Hnil in Hin. inversion Hin.
Qed.

(** X1: [get_max_tile] is an upper bound of every numeric cell; when the
    grid holds a numeric cell the value is that of some cell; when it holds
    none (an empty grid, or markers only) the answer is 0. *)
Theorem get_max_tile_is_maximum (s : Game2048) :
  (forall i j z, lookup_cell (grid s) i j = Some (Num z) ->
     z <= get_max_tile s /\
     exists i' j', lookup_cell (grid s) i' j' = Some (Num (get_max_tile s))) /\
  ((forall i j z, lookup_cell (grid s) i j <> Some (Num z)) ->
     get_max_tile s = 0).
Proof.
  unfold get_max_tile. split.
  - intros i j z Hc.
    destruct (lookup_cell_elem _ _ _ _ Hc) as (row & Hrow & Hz).
    destruct (py_max (omap row_max (grid s))) as [m |] eqn:Hmax.
    + apply py_max_spec in Hmax as [Hin Hle].
      apply list_elem_of_omap in Hin as (row' & Hrow' & Hm).
      apply row_max_spec in Hm as [Hm _]. split.
      * destruct (row_max row) as [mr |] eqn:Hmr.
        -- pose proof (row_max_spec _ _ Hmr) as [_ Hrle].
           assert (mr <= m) by (apply Hle, list_elem_of_omap; eauto).
           specialize (Hrle z Hz). lia.
        -- exfalso. exact (row_max_None _ z Hmr Hz).
      * apply (elem_lookup_cell _ _ _ Hrow' Hm).
    + exfalso. apply py_max_None in Hmax.
      destruct (row_max row) as [mr |] eqn:Hmr.
      * assert (mr ∈ omap row_max (grid s)) as Hin
          by (apply list_elem_of_omap; eauto).
        rewrite Hmax in Hin. inversion Hin.
      * exact (row_max_None _ z Hmr Hz).
  - intros Hnone.
    destruct (py_max (omap row_max (grid s))) as [m |] eqn:Hmax; [| reflexivity].
    exfalso. apply py_max_spec in Hmax as [Hin _].
    apply list_elem_of_omap in Hin as (row & Hrow & Hm).
    apply row_max_spec in Hm as [Hm _].
    destruct (elem_lookup_cell _ _ _ Hrow Hm) as (i & j & Hc).
    exact (Hnone i j _ Hc).
Qed.

Lemma get_max_tile_is_maximum_witness :
  8 <= get_max_tile marker_grid /\
  exists i' j', lookup_cell (grid marker_grid) i' j' = Some (Num (get_max_tile marker_grid)).
Proof.
  apply (proj1 (get_max_tile_is_maximum marker_grid) 1%nat 1%nat 8).
  reflexivity.
Defined.

(** ** get_empty_cells *)

Lemma collect_app P g ps1 ps2 l1 l2 :
  collect P g ps1 = Return l1 -> collect P g ps2 = Return l2 ->
  collect P g (ps1 ++ ps2) = Return (l1 ++ l2).
Proof.
  revert l1. induction ps1 as [| [i j] ps1 IH]; intros l1 H1 H2; simpl in *.
  - injection H1 as <-. exact H2.
  - destruct (cell_at g i j) as [c | e]; simpl in *; [| discriminate].
    destruct (collect P g ps1) as [acc | e]; simpl in *; [| discriminate].
    injection H1 as <-. rewrite (IH acc eq_refl H2). simpl.
    destruct (P c); reflexivity.
Qed.

Lemma collect_row g i row m : forall k,
  g !! i = Some row -> (k + m)%nat = length row ->
  exists l, collect is_zero g (map (pair i) (seq k m)) = Return l /\
    Z.of_nat (length l) = sum_row empty_weight (drop k row).
Proof.
  induction m as [| m IH]; intros k Hrow Hlen.
  - exists []. split; [reflexivity |].
    rewrite drop_ge by lia. reflexivity.
  - destruct (lookup_lt_is_Some_2 row k) as [c Hc]; [lia |].
    destruct (IH (S k) Hrow) as (l & Hl & Hcount); [lia |].
    simpl. rewrite cell_at_lookup. unfold lookup_cell. rewrite Hrow, Hc. simpl.
    rewrite Hl. simpl. eexists. split; [reflexivity |].
    rewrite (drop_S _ _ _ Hc). simpl. unfold empty_weight at 1.
    destruct (is_zero c); simpl length; lia.
Qed.

Lemma collect_rows n g m : forall k,
  Forall (fun row => length row = n) g -> (k + m)%nat = length g ->
  exists l, collect is_zero g (list_prod (seq k m) (seq 0 n)) = Return l /\
    Z.of_nat (length l) = sum_cells empty_weight (drop k g).
Proof.
  induction m as [| m IH]; intros k Hrows Hlen.
  - exists []. split; [reflexivity |].
    rewrite drop_ge by lia. reflexivity.
  - destruct (lookup_lt_is_Some_2 g k) as [row Hrow]; [lia |].
    pose proof (Forall_lookup_1 _ _ _ _ Hrows Hrow) as Hn. simpl in Hn.
    destruct (collect_row g k row n 0%nat Hrow) as (l1 & Hl1 & Hc1); [lia |].
    destruct (IH (S k) Hrows) as (l2 & Hl2 & Hc2); [lia |].
    exists (l1 ++ l2). split.
    + simpl. apply collect_app; assumption.
    + rewrite (drop_S _ _ _ Hrow), length_app. simpl.
      rewrite drop_0 in Hc1. lia.
Qed.

Lemma tiles_and_empties_row row :
  sum_row tile_weight row + sum_row empty_weight row = Z.of_nat (length row).
Proof.
  induction row as [| c row IH]; [reflexivity |].
  simpl. unfold tile_weight at 1, empty_weight at 1. destruct (is_zero c); lia.
Qed.

Lemma tiles_and_empties n g :
  Forall (fun row => length row = n) g ->
  tiles g + sum_cells empty_weight g = Z.of_nat (length g) * Z.of_nat n.
Proof.
  unfold tiles. induction g as [| row g IH]; intros Hrows; [reflexivity |].
  apply Forall_cons in Hrows as [Hrow Hrows]. specialize (IH Hrows).
  pose proof (tiles_and_empties_row row). simpl in *. rewrite Hrow in *. lia.
Qed.

(** X2: on a well-formed instance [get_empty_cells] returns normally; the
    positions it lists are exactly those of the empty cells, and their number
    plus the number of tiles is [size * size]. *)
Theorem get_empty_cells_counts (s : Game2048) :
  wf s ->
  exists l,
    get_empty_cells s = Return l /\
    (forall i j, (i, j) ∈ l <-> lookup_cell (grid s) i j = Some (Num 0)) /\
    Z.of_nat (length l) + tiles (grid s) =
    Z.of_nat (Z.to_nat (size s)) * Z.of_nat (Z.to_nat (size s)).
Proof.
  intros Hwf. unfold get_empty_cells.
  destruct (collect_in_range is_zero s Hwf) as (l & Hl & Hchar).
  exists l. split; [exact Hl |]. split.
  - intros i j. rewrite Hchar. split.
    + intros (c & Hc & Hz). apply is_zero_true in Hz as ->. exact Hc.
    + intros Hc. exists (Num 0). split; [exact Hc | reflexivity].
  - destruct Hwf as [Hlen Hrows].
    destruct (collect_rows (Z.to_nat (size s)) (grid s) (Z.to_nat (size s)) 0%nat Hrows)
      as (l' & Hl' & Hcount); [lia |].
    unfold cells_in_range, range in Hl. rewrite Hl' in Hl. injection Hl as ->.
    rewrite drop_0 in Hcount.
    pose proof (tiles_and_empties _ _ Hrows) as Hsum. rewrite Hlen in Hsum. lia.
Qed.

Lemma get_empty_cells_counts_witness :
  exists l,
    get_empty_cells scenario_C = Return l /\
    (forall i j, (i, j) ∈ l <-> lookup_cell (grid scenario_C) i j = Some (Num 0)) /\
    Z.of_nat (length l) + tiles (grid scenario_C) =
    Z.of_nat (Z.to_nat (size scenario_C)) * Z.of_nat (Z.to_nat (size scenario_C)).
Proof.
  apply (get_empty_cells_counts scenario_C). exact wf_scenario_C.
Defined.

(** ** The terminal condition in the four frames *)

Lemma terminal_reverse_rows n g :
  square n g -> terminal g -> terminal (reverse_rows g).
Proof.
  intros Hsq (H0 & HM & Hneq). split; [| split].
  - intros i j. rewrite (lookup_cell_reverse_rows n g i j Hsq).
    destruct (decide (j < n)%nat); [apply H0 | discriminate].
  - intros i j. rewrite (lookup_cell_reverse_rows n g i j Hsq).
    destruct (decide (j < n)%nat); [apply HM | discriminate].
  - intros [i j] [i' j'] c Hadj. simpl in *.
    rewrite !(lookup_cell_reverse_rows n g _ _ Hsq).
    destruct (decide (j < n)%nat) as [Hj |]; [| discriminate].
    destruct (decide (j' < n)%nat) as [Hj' |]; [| intros _; discriminate].
    apply (Hneq (i, (n - S j)%nat) (i', (n - S j')%nat) c).
    unfold adjacent in *. simpl in *. lia.
Qed.

Lemma terminal_transpose n g :
  square n g -> terminal g -> terminal (transpose g).
Proof.
  intros Hsq (H0 & HM & Hneq). split; [| split].
  - intros i j. rewrite (lookup_cell_transpose n g j i Hsq). apply H0.
  - intros i j. rewrite (lookup_cell_transpose n g j i Hsq). apply HM.
  - intros [i j] [i' j'] c Hadj. simpl in *.
    rewrite !(lookup_cell_transpose n g _ _ Hsq).
    apply (Hneq (j, i) (j', i') c). unfold adjacent in *. simpl in *. lia.
Qed.

Lemma terminal_to_frame d n g :
  square n g -> terminal g -> terminal (to_frame d g).
Proof.
  intros Hsq Ht. destruct d; simpl.
  - exact Ht.
  - apply (terminal_reverse_rows n); assumption.
  - apply (terminal_transpose n); assumption.
  - apply (terminal_reverse_rows n); [apply square_transpose; assumption |].
    apply (terminal_transpose n); assumption.
Qed.

Lemma terminal_from_frame d n g :
  square n g -> terminal g -> terminal (from_frame d g).
Proof.
  intros Hsq Ht. destruct d; simpl.
  - exact Ht.
  - apply (terminal_reverse_rows n); assumption.
  - apply (terminal_transpose n); assumption.
  - apply (terminal_transpose n); [apply square_reverse_rows; assumption |].
    apply (terminal_reverse_rows n); assumption.
Qed.

(** ** Rows on which a left move does nothing *)

Lemma compact_full row : Num 0 ∉ row -> compact row = row.
Proof.
  unfold compact. induction row as [| c row IH]; intros H; [reflexivity |].
  apply not_elem_of_cons in H as [Hc Hrow].
  rewrite filter_cons_True by congruence. f_equal. apply IH. exact Hrow.
Qed.

Lemma merge_loop_no_pair row flags :
  M ∉ row ->
  (forall j c, row !! j = Some c -> row !! S j <> Some c) ->
  merge_loop row flags = (row, flags).
Proof.
  induction row as [| x tl IH]; intros HM Hdiff; [reflexivity |].
  destruct tl as [| y tl]; [reflexivity |].
  rewrite merge_loop_pair.
  assert (Hxy : cell_eqb x y = false).
  { apply cell_eqb_false. intros ->. apply (Hdiff 0%nat y); reflexivity. }
  assert (HxM : cell_eqb x M = false).
  { apply cell_eqb_false. intros ->. apply HM. left. }
  rewrite Hxy, HxM. cbn [andb negb].
  rewrite IH; [reflexivity | |].
  - intros H. apply HM. right. exact H.
  - intros j c Hj. apply (Hdiff (S j) c). exact Hj.
Qed.

Lemma slide_row_stuck n row flags :
  length row = Z.to_nat n ->
  (Num 0 ∉ row) -> (M ∉ row) ->
  (forall j c, row !! j = Some c -> row !! S j <> Some c) ->
  slide_row n row flags = (row, flags).
Proof.
  intros Hlen H0 HM Hdiff. unfold slide_row.
  rewrite (compact_full row H0), (merge_loop_no_pair row flags HM Hdiff).
  replace (Z.to_nat (n - Z.of_nat (length row))) with 0%nat by lia.
  simpl. rewrite app_nil_r. reflexivity.
Qed.

Lemma terminal_row g i row :
  terminal g -> g !! i = Some row ->
  (Num 0 ∉ row) /\ (M ∉ row) /\
  (forall j c, row !! j = Some c -> row !! S j <> Some c).
Proof.
  intros (H0 & HM & Hneq) Hrow. split; [| split].
  - intros Hin. apply list_elem_of_lookup_1 in Hin as [j Hj].
    apply (H0 i j). unfold lookup_cell. rewrite Hrow. exact Hj.
  - intros Hin. apply list_elem_of_lookup_1 in Hin as [j Hj].
    apply (HM i j). unfold lookup_cell. rewrite Hrow. exact Hj.
  - intros j c Hj Hj'.
    apply (Hneq (i, j) (i, S j) c); unfold adjacent, lookup_cell; simpl;
      try rewrite Hrow; auto.
Qed.

Lemma slide_rows_terminal n g flags :
  Forall (fun row => length row = Z.to_nat n) g ->
  (forall i row, g !! i = Some row ->
     (Num 0 ∉ row) /\ (M ∉ row) /\
     (forall j c, row !! j = Some c -> row !! S j <> Some c)) ->
  slide_rows n g flags = (g, false, flags).
Proof.
  induction g as [| row g IH]; intros Hrows Hstuck; [reflexivity |].
  apply Forall_cons in Hrows as [Hrow Hrows].
  destruct (Hstuck 0%nat row eq_refl) as (H0 & HM & Hdiff).
  rewrite slide_rows_cons. cbv zeta.
  rewrite (slide_row_stuck n row flags Hrow H0 HM Hdiff). cbn [fst snd].
  rewrite IH; [| exact Hrows | intros i r Hr; apply (Hstuck (S i) r Hr)].
  cbn [fst snd]. rewrite bool_decide_eq_true_2 by reflexivity. reflexivity.
Qed.

(** ** What a move returns *)

Lemma bind_result {A B} (c : Py A) (k : A -> Py B) s b s' :
  bind c k s = (Return b, s') ->
  exists a s1, c s = (Return a, s1) /\ k a s1 = (Return b, s').
Proof.
  unfold bind. destruct (c s) as [[a | e] s1]; [eauto | discriminate].
Qed.

Lemma after_slide_result r new_grid moved special_merged s b s' :
  after_slide r new_grid moved special_merged s = (Return b, s') ->
  b = moved || special_merged.
Proof.
  unfold after_slide. destruct (moved || special_merged).
  - intros H.
    apply bind_result in H as (_ & s1 & _ & H).
    apply bind_result in H as (_ & s2 & _ & H).
    apply bind_result in H as (_ & s3 & _ & H).
    apply bind_result in H as (_ & s4 & _ & H).
    injection H as <- _. reflexivity.
  - intros H. injection H as <- _. reflexivity.
Qed.

Lemma move_left_result r s :
  wf s -> fst (move_left r s) = Return (slide_moved s).
Proof.
  intros Hwf.
  destruct (move_left_wf r s Hwf) as (b & s' & Hrun & _).
  rewrite Hrun. simpl. f_equal.
  rewrite move_left_run in Hrun. apply after_slide_result in Hrun.
  unfold slide_moved.
  destruct (slide_rows_spec (size s) (grid s) (won s, false) (proj2 Hwf))
    as (_ & _ & Hno & _).
  destruct (slide_rows (size s) (grid s) (won s, false))
    as [[new_grid moved] [won' special_merged]].
  cbn [fst snd] in *. destruct moved; [exact Hrun |].
  specialize (Hno eq_refl). injection Hno as _ _ ->. exact Hrun.
Qed.

Lemma wf_in_frame d s : wf s -> wf (in_frame d s).
Proof. intros H. unfold wf, in_frame. simpl. apply square_to_frame. exact H. Qed.

Lemma move_result d r s :
  wf s -> fst (move d r s) = Return (slide_moved (in_frame d s)).
Proof.
  intros Hwf. destruct (decide (d = Left)) as [-> | Hd].
  { rewrite in_frame_Left. apply move_left_result. exact Hwf. }
  pose proof (move_left_result r _ (wf_in_frame d s Hwf)) as Hres.
  rewrite (move_as_conjugate d r s Hd).
  unfold conjugate, with_grid, bind, get, modify, ret. simpl.
  fold (in_frame d s).
  destruct (move_left r (in_frame d s)) as [[b | e] s2]; simpl in *; exact Hres.
Qed.

(** A move on a terminal grid is refused and changes nothing. *)
Lemma move_terminal d r s :
  wf s -> terminal (grid s) -> move d r s = (Return false, s).
Proof.
  intros Hwf Hterm.
  assert (Hmoved : slide_moved (in_frame d s) = false).
  { unfold slide_moved, in_frame. simpl.
    pose proof (square_to_frame d _ _ Hwf) as [_ Hrows].
    pose proof (terminal_to_frame d _ _ Hwf Hterm) as Hterm'.
    rewrite slide_rows_terminal; [reflexivity | exact Hrows |].
    intros i row Hrow. apply (terminal_row _ i row Hterm' Hrow). }
  pose proof (move_result d r s Hwf) as Hres. rewrite Hmoved in Hres.
  destruct (move_wf d r s Hwf) as (b & s' & Hrun & _ & _ & Hno & _).
  rewrite Hrun in Hres |- *. simpl in Hres. injection Hres as ->.
  rewrite (Hno eq_refl). reflexivity.
Qed.

(** X3: on a well-formed instance [can_move] returns normally, leaves the
    instance as it is, and answers the negation of [is_game_over]: when
    [is_game_over] holds, each of the four trial moves is refused. *)
Theorem can_move_is_not_game_over (r1 r2 r3 r4 : rnd) (s : Game2048) :
  wf s ->
  exists over,
    is_game_over s = Return over /\
    can_move r1 r2 r3 r4 s = (Return (negb over), s) /\
    (over = true -> forall d r, move d r s = (Return false, s)).
Proof.
  intros Hwf. destruct (is_game_over_wf s Hwf) as (over & Hover & Hchar).
  exists over. split; [exact Hover |].
  assert (Hstuck : over = true -> forall d r, move d r s = (Return false, s)).
  { intros Ht d r. apply move_terminal; [exact Hwf | apply Hchar, Ht]. }
  split; [| exact Hstuck].
  unfold can_move, bind at 1 2, get, lift. rewrite Hover.
  destruct over; simpl; [| reflexivity].
  pose proof (Hstuck eq_refl Left r1) as HL.
  pose proof (Hstuck eq_refl Right r2) as HR.
  pose proof (Hstuck eq_refl Up r3) as HU.
  pose proof (Hstuck eq_refl Down r4) as HD.
  change (move_left r1 s = (Return false, s)) in HL.
  change (move_right r2 s = (Return false, s)) in HR.
  change (move_up r3 s = (Return false, s)) in HU.
  change (move_down r4 s = (Return false, s)) in HD.
  unfold or_else, bind, ret.
  rewrite HL. cbn [fst snd]. rewrite HR. cbn [fst snd].
  rewrite HU. cbn [fst snd]. rewrite HD. reflexivity.
Qed.

Lemma can_move_is_not_game_over_witness :
  exists over,
    is_game_over stuck_grid = Return over /\
    can_move r0 r0 r0 r0 stuck_grid = (Return (negb over), stuck_grid) /\
    (over = true -> forall d r, move d r stuck_grid = (Return false, stuck_grid)).
Proof.
  apply (can_move_is_not_game_over r0 r0 r0 r0 stuck_grid). exact wf_stuck_grid.
Defined.

(** ** Rows a left move leaves alone *)

Lemma merge_loop_fixed_no_pair l flags :
  fst (merge_loop l flags) = l ->
  forall j c, l !! j = Some c -> l !! S j = Some c -> c = M.
Proof.
  induction l as [| x tl IH]; intros Hfix j c Hj HSj; [discriminate |].
  destruct tl as [| y tl]; [destruct j; discriminate |].
  rewrite merge_loop_pair in Hfix.
  destruct (cell_eqb x y && negb (cell_eqb x M)) eqn:Hb1.
  - exfalso. cbv zeta in Hfix. cbn [fst] in Hfix.
    apply (f_equal length) in Hfix. simpl in Hfix.
    pose proof (merge_loop_length tl
      (if cell_eqb (double x) (Num 2048) && negb (fst flags)
       then (true, snd flags) else flags)). lia.
  - destruct (cell_eqb x M && cell_eqb y M) eqn:Hb2.
    + exfalso. cbn [fst] in Hfix.
      apply (f_equal length) in Hfix. simpl in Hfix.
      pose proof (merge_loop_length tl (fst flags, true)). lia.
    + cbn [fst] in Hfix. injection Hfix as Hfix.
      destruct j as [| j].
      * simpl in Hj, HSj. injection Hj as ->. injection HSj as ->.
        rewrite (proj2 (cell_eqb_true c c) eq_refl) in Hb1. simpl in Hb1.
        apply negb_false_iff, cell_eqb_true in Hb1. exact Hb1.
      * apply (IH Hfix j c); assumption.
Qed.

(** A row that a left move leaves as it is consists of its tiles followed by
    its empty cells, and no two equal numbers are next to each other. *)
Lemma slide_row_fixed n row flags :
  fst (slide_row n row flags) = row ->
  (forall j j' c, (j < j')%nat -> row !! j = Some (Num 0) ->
     row !! j' = Some c -> c = Num 0) /\
  (forall j c, row !! j = Some c -> row !! S j = Some c -> c = Num 0 \/ c = M).
Proof.
  intros Hfix.
  assert (Hshape : row = compact row ++
            replicate (Z.to_nat (n - Z.of_nat (length (compact row)))) (Num 0) /\
          fst (merge_loop (compact row) flags) = compact row).
  { unfold slide_row in Hfix.
    pose proof (merge_loop_length (compact row) flags) as Hm.
    pose proof (merge_loop_same_length (compact row) flags) as Hsame.
    destruct (merge_loop (compact row) flags) as [merged out]. simpl in *.
    assert (Ht : sum_row tile_weight row = sum_row tile_weight merged).
    { rewrite <- Hfix at 1.
      rewrite sum_row_app, sum_row_replicate_zero by reflexivity. lia. }
    pose proof (tiles_le_length merged). rewrite compact_tiles in Ht.
    assert (Hl : length merged = length (compact row)) by lia.
    specialize (Hsame Hl). injection Hsame as -> _. auto. }
  destruct Hshape as [Hrow Hmerge].
  set (t := compact row) in *.
  assert (Htiles : forall j c, t !! j = Some c -> c <> Num 0).
  { intros j c Hc. apply list_elem_of_lookup_2 in Hc.
    unfold t, compact in Hc. apply list_elem_of_filter in Hc as [Hc _]. exact Hc. }
  assert (Hlook : forall j c, row !! j = Some c -> c <> Num 0 -> t !! j = Some c).
  { intros j c Hc Hne. rewrite Hrow in Hc.
    apply lookup_app_Some in Hc as [Hc | [_ Hc]]; [exact Hc |].
    apply lookup_replicate in Hc as [-> _]. contradiction. }
  split.
  - intros j j' c Hlt H0 Hc.
    destruct (decide (c = Num 0)) as [-> | Hne]; [reflexivity |]. exfalso.
    apply Hlook in Hc; [| exact Hne].
    apply lookup_lt_Some in Hc.
    destruct (lookup_lt_is_Some_2 t j) as [c0 Hc0]; [lia |].
    apply (Htiles j c0 Hc0).
    rewrite Hrow in H0. rewrite lookup_app_l in H0 by lia. congruence.
  - intros j c Hj HSj.
    destruct (decide (c = Num 0)) as [-> | Hne]; [left; reflexivity |]. right.
    apply (merge_loop_fixed_no_pair t flags Hmerge j c); apply Hlook; assumption.
Qed.

Lemma slide_rows_unmoved n g : forall flags,
  snd (fst (slide_rows n g flags)) = false ->
  forall i row, g !! i = Some row -> fst (slide_row n row flags) = row.
Proof.
  induction g as [| r g IH]; intros flags Hno i row Hrow; [discriminate |].
  rewrite slide_rows_cons in Hno. cbv zeta in Hno. cbn [fst snd] in Hno.
  apply orb_false_iff in Hno as [Hsame Hrest].
  apply negb_false_iff, bool_decide_eq_true in Hsame.
  destruct i as [| i].
  - simpl in Hrow. injection Hrow as <-. exact Hsame.
  - rewrite (slide_row_unchanged n r flags Hsame) in Hrest.
    apply (IH flags Hrest i row Hrow).
Qed.

(** The cells of a grid no row of which a left move changes. *)
Lemma unmoved_cells s :
  slide_moved s = false ->
  (forall i j j' c, (j < j')%nat -> lookup_cell (grid s) i j = Some (Num 0) ->
     lookup_cell (grid s) i j' = Some c -> c = Num 0) /\
  (forall i j c, lookup_cell (grid s) i j = Some c ->
     lookup_cell (grid s) i (S j) = Some c -> c = Num 0 \/ c = M).
Proof.
  unfold slide_moved. intros Hno.
  pose proof (slide_rows_unmoved _ _ _ Hno) as Hrows.
  split.
  - intros i j j' c Hlt H0 Hc. unfold lookup_cell in *.
    destruct (grid s !! i) as [row |] eqn:Hrow; [| discriminate].
    destruct (slide_row_fixed _ _ _ (Hrows i row Hrow)) as [Hp _]. eauto.
  - intros i j c Hj HSj. unfold lookup_cell in *.
    destruct (grid s !! i) as [row |] eqn:Hrow; [| discriminate].
    destruct (slide_row_fixed _ _ _ (Hrows i row Hrow)) as [_ Hp]. eauto.
Qed.

(** ** When no move is accepted *)

Lemma row_tile_exists row :
  0 < sum_row tile_weight row -> exists j c, row !! j = Some c /\ c <> Num 0.
Proof.
  induction row as [| c row IH]; simpl; [lia |]. intros Hpos.
  destruct (decide (c = Num 0)) as [-> | Hc].
  - destruct IH as (j & c' & Hc' & Hne); [exact Hpos |].
    exists (S j), c'. auto.
  - exists 0%nat, c. auto.
Qed.

Lemma tiles_pos_exists g :
  0 < tiles g -> exists i j c, lookup_cell g i j = Some c /\ c <> Num 0.
Proof.
  unfold tiles. induction g as [| row g IH]; simpl; [lia |]. intros Hpos.
  destruct (decide (0 < sum_row tile_weight row)) as [Hrow | Hrow].
  - destruct (row_tile_exists row Hrow) as (j & c & Hc & Hne).
    exists 0%nat, j, c. auto.
  - destruct IH as (i & j & c & Hc & Hne); [lia |].
    exists (S i), j, c. auto.
Qed.

(** A well-formed grid that no direction changes: a row or a column with an
    empty cell is empty throughout, and equal neighbours are empty cells or
    markers. *)
Lemma all_refused_cells s :
  wf s ->
  (forall d, slide_moved (in_frame d s) = false) ->
  (forall i a b c, lookup_cell (grid s) i a = Some (Num 0) ->
     lookup_cell (grid s) i b = Some c -> c = Num 0) /\
  (forall j a b c, lookup_cell (grid s) a j = Some (Num 0) ->
     lookup_cell (grid s) b j = Some c -> c = Num 0) /\
  (forall i j c, lookup_cell (grid s) i j = Some c ->
     lookup_cell (grid s) i (S j) = Some c -> c = Num 0 \/ c = M) /\
  (forall i j c, lookup_cell (grid s) i j = Some c ->
     lookup_cell (grid s) (S i) j = Some c -> c = Num 0 \/ c = M).
Proof.
  intros Hwf Hall.
  set (n := Z.to_nat (size s)). set (g := grid s) in *.
  assert (Hsq : square n g) by exact Hwf.
  assert (HsqT : square n (transpose g)) by (apply square_transpose; exact Hsq).
  destruct (unmoved_cells _ (Hall Left)) as [L1 L2].
  destruct (unmoved_cells _ (Hall Right)) as [R1 _].
  destruct (unmoved_cells _ (Hall Up)) as [U1 U2].
  destruct (unmoved_cells _ (Hall Down)) as [D1 _].
  unfold in_frame in *. simpl in L1, L2, R1, U1, U2, D1. fold g in L1, L2, R1, U1, U2, D1.
  assert (Hrev : forall h i a, square n h -> (a < n)%nat ->
            lookup_cell (reverse_rows h) i (n - S a) = lookup_cell h i a).
  { intros h i a Hh Ha. rewrite (lookup_cell_reverse_rows n h i _ Hh).
    destruct (decide (n - S a < n)%nat); [| lia].
    f_equal. lia. }
  assert (Hrow : forall h, square n h ->
            (forall i j j' c, (j < j')%nat -> lookup_cell h i j = Some (Num 0) ->
               lookup_cell h i j' = Some c -> c = Num 0) ->
            (forall i j j' c, (j < j')%nat ->
               lookup_cell (reverse_rows h) i j = Some (Num 0) ->
               lookup_cell (reverse_rows h) i j' = Some c -> c = Num 0) ->
            forall i a b c, lookup_cell h i a = Some (Num 0) ->
              lookup_cell h i b = Some c -> c = Num 0).
  { intros h Hh HL HR i a b c Ha Hb.
    destruct (lookup_cell_bounds _ _ _ _ _ Hh Ha) as [_ Han].
    destruct (lookup_cell_bounds _ _ _ _ _ Hh Hb) as [_ Hbn].
    destruct (lt_eq_lt_dec a b) as [[Hlt | ->] | Hgt].
    - apply (HL i a b c Hlt Ha Hb).
    - congruence.
    - apply (HR i (n - S a)%nat (n - S b)%nat c); [lia | |];
        rewrite Hrev by assumption; assumption. }
  split; [| split; [| split]].
  - apply (Hrow g Hsq L1 R1).
  - intros j a b c Ha Hb.
    apply (Hrow (transpose g) HsqT U1 D1 j a b c);
      rewrite (lookup_cell_transpose n g _ _ Hsq); assumption.
  - exact L2.
  - intros i j c Hc Hc'.
    apply (U2 j i c); rewrite (lookup_cell_transpose n g _ _ Hsq); assumption.
Qed.

(** A grid without markers that holds a tile and that no direction moves
    is terminal. *)
Lemma refused_everywhere_terminal s :
  wf s -> no_marker (grid s) -> 0 < tiles (grid s) ->
  (forall d, slide_moved (in_frame d s) = false) ->
  terminal (grid s).
Proof.
  intros Hwf HnoM Htile Hall.
  destruct (all_refused_cells s Hwf Hall) as (Hrow & Hcol & H2 & V2).
  destruct (tiles_pos_exists _ Htile) as (i0 & j0 & c0 & Hc0 & Hne0).
  assert (Hfull : no_empty_cell (grid s)).
  { intros i j Hz.
    destruct (lookup_cell_bounds _ _ _ _ _ Hwf Hc0) as [Hi0 _].
    destruct (lookup_cell_bounds _ _ _ _ _ Hwf Hz) as [_ Hj].
    destruct (square_lookup_cell _ _ i0 j Hwf Hi0 Hj) as [c1 Hc1].
    destruct (decide (c1 = Num 0)) as [-> | Hne1].
    - apply Hne0. apply (Hrow i0 j j0 c0 Hc1 Hc0).
    - apply Hne1. apply (Hcol j i i0 c1 Hz Hc1). }
  split; [exact Hfull |]. split; [exact HnoM |].
  apply no_equal_neighbours_right_down. intros i j c Hc.
  rewrite !Nat.add_1_r. split; intros Hc'.
  - destruct (H2 i j c Hc Hc') as [-> | ->];
      [exact (Hfull _ _ Hc) | exact (HnoM _ _ Hc)].
  - destruct (V2 i j c Hc Hc') as [-> | ->];
      [exact (Hfull _ _ Hc) | exact (HnoM _ _ Hc)].
Qed.

Lemma slide_moved_cases s :
  (exists d, slide_moved (in_frame d s) = true) \/
  (forall d, slide_moved (in_frame d s) = false).
Proof.
  destruct (slide_moved (in_frame Left s)) eqn:HL; [left; exists Left; exact HL |].
  destruct (slide_moved (in_frame Right s)) eqn:HR; [left; exists Right; exact HR |].
  destruct (slide_moved (in_frame Up s)) eqn:HU; [left; exists Up; exact HU |].
  destruct (slide_moved (in_frame Down s)) eqn:HD; [left; exists Down; exact HD |].
  right. intros []; assumption.
Qed.

(** X4: [is_game_over] does not answer [False] on a dead position: on a
    well-formed grid without markers that holds at least one tile, when
    [is_game_over] returns [False] some direction is accepted, whatever the
    draw. *)
Theorem some_move_is_accepted (s : Game2048) :
  wf s -> no_marker (grid s) -> 0 < tiles (grid s) ->
  is_game_over s = Return false ->
  exists d, forall r, fst (move d r s) = Return true.
Proof.
  intros Hwf HnoM Htile Hover.
  destruct (slide_moved_cases s) as [[d Hd] | Hall].
  { exists d. intros r. rewrite (move_result d r s Hwf), Hd. reflexivity. }
  exfalso.
  pose proof (refused_everywhere_terminal s Hwf HnoM Htile Hall) as Hterm.
  destruct (is_game_over_wf s Hwf) as (b & Hb & Hchar).
  apply Hchar in Hterm. congruence.
Qed.

Lemma some_move_is_accepted_witness :
  exists d, forall r,
    fst (move d r (mkGame 2 [[Num 2; Num 0]; [Num 0; Num 2]] 4 4 0 false false))
    = Return true.
Proof.
  apply (some_move_is_accepted
           (mkGame 2 [[Num 2; Num 0]; [Num 0; Num 2]] 4 4 0 false false)).
  - split; [reflexivity | repeat constructor].
  - intros i j. simpl. rewrite lookup_cell_2x2.
    destruct i as [| [| i]], j as [| [| j]]; discriminate.
  - reflexivity.
  - reflexivity.
Defined.

(** ** Export and import of the state *)

(** X5: importing the state exported from [s] into any instance [t] returns
    normally and turns [t] into [s], except for the high score, which is the
    larger of the two. *)
Theorem set_state_get_state (s t : Game2048) :
  set_state (get_state s) t =
  (Return tt, set_high_score (Z.max (high_score t) (high_score s)) s).
Proof. destruct s, t. reflexivity. Qed.

(** X6: [set_state] assigns field by field and is not atomic.  When the
    dictionary has a grid but lacks one of the keys read after it
    ([score], [moves], [game_over], [won], [size]), the call raises
    [KeyError], the grid of the instance is already the imported one and
    its size is still the old one. *)
Theorem set_state_missing_key (state : saved) (g : list (list cell)) (s : Game2048) :
  s_grid state = Some g ->
  s_score state = None \/ s_moves state = None \/ s_game_over state = None \/
    s_won state = None \/ s_size state = None ->
  fst (set_state state s) = Raise KeyError /\
  grid (snd (set_state state s)) = g /\
  size (snd (set_state state s)) = size s.
Proof.
  intros Hg Hmiss.
  destruct state as [sg [sc|] hs [mv|] [over|] [w|] [sz|]];
    simpl in Hg; subst sg;
    try (destruct Hmiss as [H | [H | [H | [H | H]]]]; discriminate H);
    repeat split.
Qed.

Lemma set_state_missing_key_witness :
  fst (set_state (mkSaved (Some [[Num 2]]) (Some 2) None None None None None)
         stuck_grid) = Raise KeyError /\
  grid (snd (set_state (mkSaved (Some [[Num 2]]) (Some 2) None None None None None)
              stuck_grid)) = [[Num 2]] /\
  size (snd (set_state (mkSaved (Some [[Num 2]]) (Some 2) None None None None None)
              stuck_grid)) = size stuck_grid.
Proof.
  apply (set_state_missing_key
           (mkSaved (Some [[Num 2]]) (Some 2) None None None None None)
           [[Num 2]] stuck_grid).
  - reflexivity.
  - right. left. reflexivity.
Defined.

(** ** The largest tile and the total *)

Lemma get_max_tile_elem s :
  get_max_tile s = 0 \/
  exists row, row ∈ grid s /\ Num (get_max_tile s) ∈ row.
Proof.
  unfold get_max_tile.
  destruct (py_max (omap row_max (grid s))) as [m |] eqn:Hmax; [right | left; reflexivity].
  apply py_max_spec in Hmax as [Hin _].
  apply list_elem_of_omap in Hin as (row & Hrow & Hm).
  apply row_max_spec in Hm as [Hm _]. exists row. split; assumption.
Qed.

Lemma cell_points_nonneg c : 0 <= cell_points c.
Proof.
  destruct c as [z |]; simpl; [| lia].
  destruct (0 <? z) eqn:H; [apply Z.ltb_lt in H |]; lia.
Qed.

Lemma row_points_nonneg row : 0 <= row_points row.
Proof.
  induction row as [| c row IH]; simpl; [lia |].
  pose proof (cell_points_nonneg c). lia.
Qed.

Lemma grid_points_nonneg g : 0 <= grid_points g.
Proof.
  induction g as [| row g IH]; simpl; [lia |].
  pose proof (row_points_nonneg row). lia.
Qed.

Lemma cell_points_le_row c row : c ∈ row -> cell_points c <= row_points row.
Proof.
  induction row as [| c' row IH]; intros Hin; [inversion Hin |].
  simpl. apply elem_of_cons in Hin as [-> | Hin].
  - pose proof (row_points_nonneg row). lia.
  - specialize (IH Hin). pose proof (cell_points_nonneg c'). lia.
Qed.

Lemma row_points_le_grid row g : row ∈ g -> row_points row <= grid_points g.
Proof.
  induction g as [| row' g IH]; intros Hin; [inversion Hin |].
  simpl. apply elem_of_cons in Hin as [-> | Hin].
  - pose proof (grid_points_nonneg g). lia.
  - specialize (IH Hin). pose proof (row_points_nonneg row'). lia.
Qed.

(** X7: whatever the grid holds (markers, negative numbers, rows of any
    length), the value of [get_max_tile] never exceeds the total that
    [calculate_total_score] computes. *)
Theorem max_tile_le_total_score (s : Game2048) :
  get_max_tile s <= calculate_total_score s.
Proof.
  unfold calculate_total_score.
  destruct (get_max_tile_elem s) as [-> | (row & Hrow & Hm)].
  - apply grid_points_nonneg.
  - pose proof (cell_points_le_row _ _ Hm) as H1.
    pose proof (row_points_le_grid _ _ Hrow) as H2.
    simpl in H1. destruct (0 <? get_max_tile s) eqn:Hpos; [lia |].
    apply Z.ltb_ge in Hpos. pose proof (grid_points_nonneg (grid s)). lia.
Qed.

(** ** reset *)

Lemma insert_points g i j row v :
  g !! i = Some row -> row !! j = Some (Num 0) -> v = Num 2 \/ v = Num 4 ->
  grid_points g + 2 <= grid_points (<[i := <[j := v]> row]> g) <= grid_points g + 4.
Proof.
  intros Hrow Hc Hv. change grid_points with (sum_cells cell_points).
  rewrite (sum_cells_insert _ _ _ _ _ Hrow), (sum_row_insert _ _ _ _ _ Hc).
  destruct Hv as [-> | ->]; simpl; lia.
Qed.

(** Two spawns on a grid with room for them, then the score. *)
Lemma spawn_twice_run r1 r2 s :
  wf s ->
  tiles (grid s) + 2 <= Z.of_nat (Z.to_nat (size s)) * Z.of_nat (Z.to_nat (size s)) ->
  exists g2,
    (add_new_tile r1 ;; add_new_tile r2 ;; update_score) s =
      (Return tt, snd (update_score (set_grid g2 s))) /\
    square (Z.to_nat (size s)) g2 /\
    tiles g2 = tiles (grid s) + 2 /\
    grid_points (grid s) + 4 <= grid_points g2 <= grid_points (grid s) + 8.
Proof.
  intros Hwf Hroom.
  destruct (add_new_tile_wf r1 s Hwf) as (b1 & s1 & Hrun1 & Hp1).
  destruct (spawn_post_facts _ _ _ Hwf Hp1) as (Hwf1 & (Hsz1 & _) & _ & Ht1 & Hb1).
  assert (b1 = true) as ->.
  { apply Hb1. destruct Hwf as [Hlen Hrows].
    apply (has_empty_count (Z.to_nat (size s))); [exact Hrows |]. rewrite Hlen. lia. }
  destruct (add_new_tile_wf r2 s1 Hwf1) as (b2 & s2 & Hrun2 & Hp2).
  destruct (spawn_post_facts _ _ _ Hwf1 Hp2) as (Hwf2 & (Hsz2 & _) & _ & Ht2 & Hb2).
  assert (b2 = true) as ->.
  { apply Hb2. destruct Hwf1 as [Hlen Hrows].
    apply (has_empty_count (Z.to_nat (size s1))); [exact Hrows |].
    rewrite Hlen, Hsz1. lia. }
  simpl in Hp1, Hp2.
  destruct Hp1 as (i1 & j1 & row1 & v1 & Hrow1 & Hc1 & Hv1 & Hs1).
  destruct Hp2 as (i2 & j2 & row2 & v2 & Hrow2 & Hc2 & Hv2 & Hs2).
  exists (grid s2). split; [| split; [| split]].
  - unfold bind. rewrite Hrun1, Hrun2. rewrite update_score_run.
    rewrite Hs2, Hs1. rewrite update_score_run. reflexivity.
  - unfold wf in Hwf2. rewrite Hsz2, Hsz1 in Hwf2. exact Hwf2.
  - lia.
  - pose proof (insert_points _ _ _ _ _ Hrow1 Hc1 Hv1) as Hq1.
    pose proof (insert_points _ _ _ _ _ Hrow2 Hc2 Hv2) as Hq2.
    rewrite Hs2, Hs1 in *. simpl in *. lia.
Qed.

(** X8: [reset] needs nothing of the instance it is called on: whatever its
    grid (ragged, with markers) and flags, with a size of at least 2 the call
    returns normally and leaves a [size] by [size] grid holding exactly two
    tiles, a score equal to their sum (4 to 8), no moves, both flags
    cleared, the size as it was and the high score raised to the new score
    when that is larger. *)
Theorem reset_from_any_instance (r1 r2 : rnd) (s : Game2048) :
  2 <= size s ->
  returns (reset r1 r2) s (fun _ s' =>
    wf s' /\ size s' = size s /\ tiles (grid s') = 2 /\
    score s' = grid_points (grid s') /\ 4 <= score s' <= 8 /\
    moves s' = 0 /\ game_over s' = false /\ won s' = false /\
    high_score s' = Z.max (high_score s) (score s')).
Proof.
  intros Hn.
  set (s0 := mkGame (size s) (empty_grid (size s)) 0 (high_score s) 0 false false).
  assert (Hwf0 : wf s0) by apply square_empty_grid.
  assert (Ht0 : tiles (grid s0) = 0)
    by (apply sum_cells_empty_grid; reflexivity).
  assert (Hp0 : grid_points (grid s0) = 0)
    by (apply (sum_cells_empty_grid cell_points); reflexivity).
  destruct (spawn_twice_run r1 r2 s0 Hwf0) as (g2 & Hrun & Hsq & Ht & Hp).
  { rewrite Ht0. simpl. nia. }
  exists tt. eexists. split.
  { unfold reset, bind at 1 2 3 4 5 6, get, modify. simpl.
    change (set_won false _) with s0. exact Hrun. }
  rewrite update_score_run. simpl.
  rewrite Ht0 in Ht. rewrite Hp0 in Hp.
  destruct (high_score s <? grid_points g2) eqn:Hhs; simpl;
    [apply Z.ltb_lt in Hhs | apply Z.ltb_ge in Hhs];
    (split; [exact Hsq |]); repeat split; lia.
Qed.

Lemma reset_from_any_instance_witness :
  returns (reset r0 r0) scenario_C (fun _ s' =>
    wf s' /\ size s' = size scenario_C /\ tiles (grid s') = 2 /\
    score s' = grid_points (grid s') /\ 4 <= score s' <= 8 /\
    moves s' = 0 /\ game_over s' = false /\ won s' = false /\
    high_score s' = Z.max (high_score scenario_C) (score s')).
Proof.
  apply (reset_from_any_instance r0 r0 scenario_C). simpl. lia.
Defined.

(** ** The effect of an accepted move *)

Lemma double_points x : cell_points (double x) = 2 * cell_points x.
Proof.
  destruct x as [z |]; simpl; [| reflexivity].
  destruct (0 <? z * 2) eqn:H1, (0 <? z) eqn:H2;
    try apply Z.ltb_lt in H1; try apply Z.ltb_lt in H2;
    try apply Z.ltb_ge in H1; try apply Z.ltb_ge in H2; lia.
Qed.

Lemma merge_loop_points k :
  forall l flags, (length l <= k)%nat ->
    sum_row cell_points (fst (merge_loop l flags)) = sum_row cell_points l.
Proof.
  induction k as [| k IH]; intros l flags Hk.
  - destruct l; [reflexivity | simpl in Hk; lia].
  - destruct l as [| x [| y tl]]; try reflexivity.
    rewrite merge_loop_pair.
    destruct (cell_eqb x y && negb (cell_eqb x M)) eqn:Hnum.
    + apply andb_true_iff in Hnum as [Hxy _]. apply cell_eqb_true in Hxy as <-.
      cbv zeta. cbn [fst sum_row foldr].
      fold (sum_row cell_points (fst (merge_loop tl
              (if cell_eqb (double x) (Num 2048) && negb (fst flags)
               then (true, snd flags) else flags)))).
      fold (sum_row cell_points tl).
      rewrite IH by (simpl in Hk; lia). rewrite double_points. lia.
    + destruct (cell_eqb x M && cell_eqb y M) eqn:Hmm.
      * apply andb_true_iff in Hmm as [Hx Hy].
        apply cell_eqb_true in Hx as ->. apply cell_eqb_true in Hy as ->.
        cbn [fst sum_row foldr].
        fold (sum_row cell_points (fst (merge_loop tl (fst flags, true)))).
        fold (sum_row cell_points tl).
        rewrite IH by (simpl in Hk; lia). simpl. lia.
      * cbn [fst sum_row foldr].
        fold (sum_row cell_points (fst (merge_loop (y :: tl) flags))).
        rewrite IH by (simpl in Hk |- *; lia). reflexivity.
Qed.

Lemma compact_points row :
  sum_row cell_points (compact row) = sum_row cell_points row.
Proof.
  unfold compact. induction row as [| c row IH]; [reflexivity |].
  rewrite filter_cons. destruct (decide (c <> Num 0)) as [Hc | Hc]; simpl.
  - fold (sum_row cell_points (filter (fun val => val <> Num 0) row)).
    fold (sum_row cell_points row). rewrite IH. reflexivity.
  - fold (sum_row cell_points row). rewrite IH.
    destruct (decide (c = Num 0)) as [-> | Hne]; [simpl; lia | contradiction].
Qed.

Lemma slide_row_points n row flags :
  sum_row cell_points (fst (slide_row n row flags)) = sum_row cell_points row.
Proof.
  unfold slide_row.
  pose proof (merge_loop_points _ (compact row) flags (le_n _)) as H.
  destruct (merge_loop (compact row) flags) as [merged out]. cbn [fst] in *.
  rewrite sum_row_app, sum_row_replicate_zero by reflexivity.
  rewrite H, compact_points. lia.
Qed.

(** The slide of [move_left] moves and merges values, it neither adds nor
    loses points. *)
Lemma slide_rows_points n g :
  forall flags,
    grid_points (fst (fst (slide_rows n g flags))) = grid_points g.
Proof.
  change grid_points with (sum_cells cell_points).
  induction g as [| row rows IH]; intros flags; [reflexivity |].
  rewrite slide_rows_cons. cbv zeta. cbn [fst sum_cells foldr].
  fold (sum_cells cell_points
          (fst (fst (slide_rows n rows (snd (slide_row n row flags)))))).
  fold (sum_cells cell_points rows).
  rewrite IH, slide_row_points. reflexivity.
Qed.

Lemma returns_respects {A} (R : Game2048 -> Game2048 -> Prop) (c : Py A) s
    (Q : A -> Game2048 -> Prop) :
  respects R c -> returns c s Q -> returns c s (fun a s' => Q a s' /\ R s s').
Proof.
  intros HR (a & s' & Hrun & HQ). exists a, s'.
  split; [exact Hrun |]. split; [exact HQ |].
  specialize (HR s). rewrite Hrun in HR. exact HR.
Qed.

Lemma keeps_flags_refl s : keeps_flags s s.
Proof. repeat split. Qed.

Lemma keeps_flags_trans s1 s2 s3 :
  keeps_flags s1 s2 -> keeps_flags s2 s3 -> keeps_flags s1 s3.
Proof.
  unfold keeps_flags. intros (? & ? & ? & ?) (? & ? & ? & ?).
  repeat split; congruence.
Qed.

Lemma keeps_flags_commit_move new_grid special_merged :
  respects keeps_flags (commit_move new_grid special_merged).
Proof.
  apply (respects_commit_move keeps_flags keeps_flags_refl keeps_flags_trans);
    intros v s; repeat split.
Qed.

Lemma commit_move_wf new_grid special_merged s :
  wf s -> square (Z.to_nat (size s)) new_grid ->
  returns (commit_move new_grid special_merged) s
    (fun _ s2 => (grid s2 = new_grid /\ wf s2 /\ moves s2 = moves s + 1) /\
                 keeps_flags s s2).
Proof.
  intros Hwf Hsq. apply returns_respects; [apply keeps_flags_commit_move |].
  unfold commit_move. apply returns_bind.
  assert (Hclear : returns (if special_merged then clear_surrounding_tiles else ret tt)
            s (fun _ s2 => size s2 = size s /\ moves s2 = moves s)).
  { destruct special_merged.
    - eapply returns_weaken; [apply clear_surrounding_tiles_wf; exact Hwf |].
      intros _ s2 [_ (Hsz & _ & Hmv & _)]. split; assumption.
    - apply returns_ret. split; reflexivity. }
  eapply returns_weaken; [exact Hclear |].
  intros _ s2 [Hsz Hmv]. simpl.
  apply returns_bind, returns_modify, returns_bind, returns_get.
  apply returns_modify. simpl.
  split; [reflexivity |]. split; [| lia].
  unfold wf. simpl. rewrite Hsz. exact Hsq.
Qed.

Lemma move_left_accepted r s :
  wf s ->
  returns (move_left r) s (fun b s' => b = true -> accepted_post Left s s').
Proof.
  intros Hwf.
  pose proof (slide_rows_points (size s) (grid s) (won s, false)) as Hpts.
  pose proof (slide_rows_flag (size s) (grid s) (won s) false) as Hflag.
  unfold move_left.
  apply returns_bind, returns_get.
  destruct (slide_rows_spec (size s) (grid s) (won s, false) (proj2 Hwf))
    as (Hlen & Hrows & Hno & Hyes & _).
  unfold accepted_post. rewrite in_frame_Left. unfold slid.
  destruct (slide_rows (size s) (grid s) (won s, false))
    as [[new_grid moved] [won' special_merged]] eqn:Hslide.
  cbn [fst snd to_frame from_frame] in *.
  apply returns_bind, returns_modify.
  destruct moved.
  - clear Hno. destruct (Hyes eq_refl) as (row0 & Hrow0 & Hzero).
    cbn [orb].
    set (s1 := set_won won' s).
    assert (Hwf1 : wf s1) by exact Hwf.
    apply returns_bind.
    eapply returns_weaken.
    { apply (commit_move_wf new_grid special_merged s1 Hwf1).
      split; [destruct Hwf as [Hl _]; simpl; lia | exact Hrows]. }
    intros _ s2 [(Hg2 & Hwf2 & Hmv2) (Hsz2 & Hhs2 & Hgo2 & Hw2)]. simpl in *.
    apply returns_bind.
    eapply returns_weaken; [apply add_new_tile_wf; exact Hwf2 |].
    intros spawned s3 Hspawn. simpl.
    destruct (spawn_post_facts _ _ _ Hwf2 Hspawn) as (Hwf3 & _ & _ & _ & Hb).
    assert (spawned = true) as ->.
    { apply Hb. rewrite Hg2. eapply has_empty_elem; eauto. }
    simpl in Hspawn.
    destruct Hspawn as (i & j & row & v & Hrow & Hc & Hv & Hs3).
    rewrite Hg2 in Hrow, Hs3.
    apply returns_bind. eapply returns_run; [apply update_score_run |].
    set (P := grid_points (grid s3)).
    set (s4 := if high_score s3 <? P
               then set_high_score P (set_score P s3) else set_score P s3).
    assert (H4 : grid s4 = grid s3 /\ size s4 = size s3 /\ score s4 = P /\
                 moves s4 = moves s3 /\ game_over s4 = game_over s3 /\
                 won s4 = won s3 /\ high_score s4 = Z.max (high_score s3) P).
    { subst s4. destruct (high_score s3 <? P) eqn:Hlt;
        [apply Z.ltb_lt in Hlt | apply Z.ltb_ge in Hlt]; simpl;
        repeat split; lia. }
    destruct H4 as (Hg4 & Hsz4 & Hsc4 & Hmv4 & Hgo4 & Hw4 & Hhs4).
    assert (Hwf4 : wf s4) by (unfold wf; rewrite Hg4, Hsz4; exact Hwf3).
    destruct (is_game_over_wf s4 Hwf4) as (over & Hover & Hchar).
    apply returns_bind.
    eapply returns_run; [apply (check_game_over_run _ _ Hover) |].
    apply returns_ret. intros _.
    set (s5 := if over then set_game_over true s4 else s4).
    assert (H5 : grid s5 = grid s4 /\ size s5 = size s4 /\ score s5 = score s4 /\
                 moves s5 = moves s4 /\ won s5 = won s4 /\
                 high_score s5 = high_score s4 /\
                 game_over s5 = over || game_over s4).
    { subst s5. destruct over; repeat split. }
    destruct H5 as (Hg5 & Hsz5 & Hsc5 & Hmv5 & Hw5 & Hhs5 & Hgo5).
    assert (Hg3 : grid s3 = <[i := <[j := v]> row]> new_grid) by (rewrite Hs3; reflexivity).
    assert (H3 : size s3 = size s2 /\ moves s3 = moves s2 /\
                 game_over s3 = game_over s2 /\ won s3 = won s2 /\
                 high_score s3 = high_score s2) by (rewrite Hs3; repeat split).
    destruct H3 as (Hsz3 & Hmv3 & Hgo3 & Hw3 & Hhs3).
    assert (HP : P = grid_points (grid s) + cell_points v).
    { subst P. rewrite Hg3. change grid_points with (sum_cells cell_points) in *.
      rewrite (sum_cells_insert _ _ _ _ _ Hrow), (sum_row_insert _ _ _ _ _ Hc).
      simpl. lia. }
    exists i, j, row, (cell_points v).
    assert (Hvz : v = Num (cell_points v) /\ (cell_points v = 2 \/ cell_points v = 4)).
    { destruct Hv as [-> | ->]; simpl; split; auto. }
    destruct Hvz as [Hvn Hvz]. rewrite <- Hvn.
    split; [exact Hrow |]. split; [exact Hc |]. split; [exact Hvz |].
    split; [congruence |]. split; [congruence |].
    split; [rewrite Hhs5, Hhs4, Hhs3, Hhs2, Hsc5, Hsc4; reflexivity |].
    split; [simpl in Hmv2; congruence |].
    split; [simpl in Hsz2; congruence |].
    split; [rewrite Hw5, Hw4, Hw3, Hw2; simpl; exact Hflag |].
    rewrite Hgo5, Hgo4, Hgo3, Hgo2, Hg5. simpl.
    rewrite orb_true_iff, Hchar. tauto.
  - specialize (Hno eq_refl). injection Hno as -> -> ->.
    cbn [orb]. rewrite set_won_same. apply returns_ret. discriminate.
Qed.

Lemma to_from_frame d n g : square n g -> to_frame d (from_frame d g) = g.
Proof.
  intros H. destruct d; simpl.
  - reflexivity.
  - apply reverse_rows_involutive.
  - apply (transpose_involutive n). exact H.
  - rewrite (transpose_involutive n) by (apply square_reverse_rows; exact H).
    apply reverse_rows_involutive.
Qed.

Lemma sum_cells_to_frame f d n g :
  square n g -> sum_cells f (to_frame d g) = sum_cells f g.
Proof.
  intros H. destruct d; simpl.
  - reflexivity.
  - apply sum_cells_reverse_rows.
  - apply (sum_cells_transpose f n). exact H.
  - rewrite sum_cells_reverse_rows. apply (sum_cells_transpose f n). exact H.
Qed.

Lemma terminal_from_frame_iff d n g :
  square n g -> terminal (from_frame d g) <-> terminal g.
Proof.
  intros H. split.
  - intros Ht. rewrite <- (to_from_frame d n g H).
    apply (terminal_to_frame d n); [apply square_from_frame; exact H | exact Ht].
  - apply (terminal_from_frame d n). exact H.
Qed.

(** An accepted move in any direction, on a well-formed instance. *)
Lemma move_accepted d r s :
  wf s ->
  returns (move d r) s (fun b s' => b = true -> accepted_post d s s').
Proof.
  intros Hwf. destruct (decide (d = Left)) as [-> | Hd].
  { apply move_left_accepted. exact Hwf. }
  assert (Hwf1 : wf (in_frame d s)) by (apply wf_in_frame; exact Hwf).
  destruct (move_left_accepted r _ Hwf1) as (b & s2 & Hrun & Hpost).
  destruct (move_left_wf r _ Hwf1) as (b' & s2' & Hrun' & (Hwf2 & _)).
  rewrite Hrun in Hrun'. injection Hrun' as <- <-.
  eapply returns_run.
  { rewrite (move_as_conjugate d r s Hd).
    unfold conjugate, with_grid, bind, get, modify, ret. simpl.
    fold (in_frame d s). rewrite Hrun. reflexivity. }
  intros ->.
  destruct (Hpost eq_refl)
    as (i & j & row & v & Hrow & Hc & Hv & Hg & Hsc & Hhs & Hmv & Hsz & Hw & Hgo).
  rewrite in_frame_Left in Hrow, Hg. simpl in Hg, Hsc, Hhs, Hmv, Hsz, Hw, Hgo.
  exists i, j, row, v. simpl.
  split; [exact Hrow |]. split; [exact Hc |]. split; [exact Hv |].
  split; [rewrite Hg; reflexivity |].
  split.
  { rewrite Hsc. change grid_points with (sum_cells cell_points).
    rewrite (sum_cells_to_frame _ d _ _ Hwf). reflexivity. }
  split; [exact Hhs |]. split; [exact Hmv |]. split; [exact Hsz |].
  split; [exact Hw |].
  rewrite Hgo. rewrite (terminal_from_frame_iff d _ _ Hwf2). reflexivity.
Qed.

(** X9: the whole effect of an accepted move.  On a well-formed instance, a
    move that returns [True] leaves the slid grid with exactly one of its
    empty cells set to 2 or 4 (carried back from the frame of the
    direction); the score is the total of the cells BEFORE the move plus the
    new tile, so merging earns nothing by itself; the high score is the
    larger of the old one and the new score; the move counter grows by one;
    the size is kept; [won] is set when it was set or a merge made 2048; and
    [game_over] is set exactly when it was set before or the new grid is
    terminal. *)
Theorem accepted_move_effect (d : direction) (r : rnd) (s : Game2048) :
  wf s ->
  fst (move d r s) = Return true ->
  accepted_post d s (snd (move d r s)).
Proof.
  intros Hwf Hres.
  destruct (move_accepted d r s Hwf) as (b & s' & Hrun & Hpost).
  rewrite Hrun in *. simpl in Hres. injection Hres as ->.
  apply Hpost. reflexivity.
Qed.

Lemma accepted_move_effect_witness :
  accepted_post Right
    (mkGame 2 [[Num 2; Num 0]; [Num 0; Num 2]] 4 4 0 false false)
    (snd (move Right r0
            (mkGame 2 [[Num 2; Num 0]; [Num 0; Num 2]] 4 4 0 false false))).
Proof.
  apply (accepted_move_effect Right r0
           (mkGame 2 [[Num 2; Num 0]; [Num 0; Num 2]] 4 4 0 false false)).
  - split; [reflexivity | repeat constructor].
  - reflexivity.
Defined.

(** ** The shape of the slid rows *)

Lemma slide_rows_lookup n g :
  forall flags i row',
    fst (fst (slide_rows n g flags)) !! i = Some row' ->
    exists row flags', g !! i = Some row /\ row' = fst (slide_row n row flags').
Proof.
  induction g as [| row rows IH]; intros flags i row' Hi.
  - destruct i; discriminate.
  - rewrite slide_rows_cons in Hi. cbv zeta in Hi. cbn [fst] in Hi.
    destruct i as [| i]; simpl in Hi.
    + injection Hi as <-. exists row, flags. split; reflexivity.
    + destruct (IH _ _ _ Hi) as (row1 & flags1 & Hrow1 & Heq).
      exists row1, flags1. split; assumption.
Qed.

Lemma double_nonzero x : x <> Num 0 -> double x <> Num 0.
Proof.
  destruct x as [z |]; simpl; [| discriminate].
  intros Hz Heq. apply Hz. injection Heq as Heq. f_equal. lia.
Qed.

Lemma merge_loop_no_zero k :
  forall l flags, (length l <= k)%nat ->
    (M ∉ l) -> (Num 0 ∉ l) -> Num 0 ∉ fst (merge_loop l flags).
Proof.
  induction k as [| k IH]; intros l flags Hk HM H0.
  - destruct l; [exact H0 | simpl in Hk; lia].
  - destruct l as [| x [| y tl]]; try exact H0.
    apply not_elem_of_cons in HM as [HxM HM].
    apply not_elem_of_cons in H0 as [Hx0 H0].
    pose proof HM as HM'. pose proof H0 as H0'.
    apply not_elem_of_cons in HM' as [HyM HM'].
    apply not_elem_of_cons in H0' as [Hy0 H0'].
    rewrite merge_loop_pair.
    destruct (cell_eqb x y && negb (cell_eqb x M)).
    + cbv zeta. cbn [fst]. apply not_elem_of_cons. split.
      * intros Heq. symmetry in Heq. revert Heq. apply double_nonzero. congruence.
      * apply IH; [simpl in Hk; lia | exact HM' | exact H0'].
    + destruct (cell_eqb x M && cell_eqb y M) eqn:Hmm.
      * apply andb_true_iff in Hmm as [Hx _]. apply cell_eqb_true in Hx.
        congruence.
      * cbn [fst]. apply not_elem_of_cons. split; [congruence |].
        apply IH; [simpl in Hk |- *; lia | exact HM | exact H0].
Qed.

Lemma compact_no_zero row : Num 0 ∉ compact row.
Proof.
  unfold compact. intros H. apply list_elem_of_filter in H as [H _].
  apply H. reflexivity.
Qed.

Lemma compact_no_marker row : (M ∉ row) -> M ∉ compact row.
Proof.
  unfold compact. intros HM H. apply list_elem_of_filter in H as [_ H].
  contradiction.
Qed.

(** A row without markers comes out of the slide with its tiles packed at
    the left. *)
Lemma slide_row_packed n row flags j j' c :
  (M ∉ row) -> (j < j')%nat ->
  fst (slide_row n row flags) !! j = Some (Num 0) ->
  fst (slide_row n row flags) !! j' = Some c -> c = Num 0.
Proof.
  intros HM Hlt. unfold slide_row.
  pose proof (merge_loop_no_zero _ (compact row) flags (le_n _)
                (compact_no_marker row HM) (compact_no_zero row)) as Hno.
  destruct (merge_loop (compact row) flags) as [merged out]. cbn [fst] in *.
  intros Hj Hj'.
  apply lookup_app_Some in Hj as [Hj | [Hge Hj]].
  { exfalso. apply Hno. apply (list_elem_of_lookup_2 _ _ _ Hj). }
  apply lookup_app_Some in Hj' as [Hj' | [_ Hj']].
  { apply lookup_lt_Some in Hj'. lia. }
  apply lookup_replicate in Hj' as [-> _]. reflexivity.
Qed.

Lemma no_marker_elem g :
  no_marker g <-> forall row, row ∈ g -> M ∉ row.
Proof.
  split.
  - intros Hno row Hrow HM.
    destruct (elem_lookup_cell _ _ _ Hrow HM) as (i & j & Hc).
    exact (Hno i j Hc).
  - intros Hno i j Hc.
    destruct (lookup_cell_elem _ _ _ _ Hc) as (row & Hrow & HM).
    exact (Hno row Hrow HM).
Qed.

Lemma no_marker_to_frame d n g :
  square n g -> no_marker g -> no_marker (to_frame d g).
Proof.
  intros Hsq Hno.
  assert (Hrev : forall g', square n g' -> no_marker g' -> no_marker (reverse_rows g')).
  { intros g' Hsq' Hno' i j. rewrite (lookup_cell_reverse_rows n g' i j Hsq').
    destruct (decide (j < n)%nat); [apply Hno' | discriminate]. }
  assert (Htr : forall g', square n g' -> no_marker g' -> no_marker (transpose g')).
  { intros g' Hsq' Hno' i j. rewrite (lookup_cell_transpose n g' j i Hsq').
    apply Hno'. }
  destruct d; simpl; auto using square_transpose.
Qed.

(** X10: on a well-formed grid without markers, the grid a move has slid
    (before the new tile is placed, in the frame of the direction) has every
    row packed towards the side of the move: no tile follows an empty
    cell. *)
Theorem slid_rows_are_packed (d : direction) (s : Game2048) :
  wf s -> no_marker (grid s) ->
  forall i j j' c, (j < j')%nat ->
    lookup_cell (slid (in_frame d s)) i j = Some (Num 0) ->
    lookup_cell (slid (in_frame d s)) i j' = Some c ->
    c = Num 0.
Proof.
  intros Hwf Hno i j j' c Hlt Hj Hj'.
  pose proof (no_marker_to_frame d _ _ Hwf Hno) as HnoF.
  unfold slid, in_frame in Hj, Hj'. simpl in Hj, Hj'.
  unfold lookup_cell in Hj, Hj'.
  destruct (fst (fst (slide_rows (size s) (to_frame d (grid s)) (won s, false))) !! i)
    as [row' |] eqn:Hrow'; [| discriminate].
  destruct (slide_rows_lookup _ _ _ _ _ Hrow') as (row & flags' & Hrow & ->).
  apply (slide_row_packed (size s) row flags' j j' c); try assumption.
  apply (proj1 (no_marker_elem _) HnoF).
  apply (list_elem_of_lookup_2 _ _ _ Hrow).
Qed.

Lemma slid_rows_are_packed_witness :
  exists c,
    lookup_cell (slid (in_frame Left two_in_a_row)) 1 1 = Some c /\ c = Num 0.
Proof.
  exists (Num 0). split; [reflexivity |].
  apply (slid_rows_are_packed Left two_in_a_row) with (i := 1%nat) (j := 0%nat) (j' := 1%nat).
  - split; [reflexivity | repeat constructor].
  - intros i j. simpl. rewrite lookup_cell_2x2.
    destruct i as [| [| i]], j as [| [| j]]; discriminate.
  - lia.
  - reflexivity.
  - reflexivity.
Defined.

(** ** The cells of reachable instances *)

Lemma all_cells_Forall P g : all_cells P g <-> Forall (Forall P) g.
Proof.
  split.
  - intros H. apply Forall_lookup. intros i row Hrow.
    apply Forall_lookup. intros j c Hc. apply (H i j c).
    unfold lookup_cell. rewrite Hrow. exact Hc.
  - intros H i j c Hc. unfold lookup_cell in Hc.
    destruct (g !! i) as [row |] eqn:Hrow; [| discriminate].
    pose proof (Forall_lookup_1 _ _ _ _ H Hrow) as Hr.
    exact (Forall_lookup_1 _ _ _ _ Hr Hc).
Qed.

Lemma all_cells_reverse_rows P n g :
  square n g -> all_cells P g -> all_cells P (reverse_rows g).
Proof.
  intros Hsq H i j c. rewrite (lookup_cell_reverse_rows n g i j Hsq).
  destruct (decide (j < n)%nat); [apply H | discriminate].
Qed.

Lemma all_cells_transpose P n g :
  square n g -> all_cells P g -> all_cells P (transpose g).
Proof.
  intros Hsq H i j c. rewrite (lookup_cell_transpose n g j i Hsq). apply H.
Qed.

Lemma all_cells_to_frame P d n g :
  square n g -> all_cells P g -> all_cells P (to_frame d g).
Proof.
  intros Hsq H. destruct d; simpl.
  - exact H.
  - apply (all_cells_reverse_rows P n); assumption.
  - apply (all_cells_transpose P n); assumption.
  - apply (all_cells_reverse_rows P n); [apply square_transpose; exact Hsq |].
    apply (all_cells_transpose P n); assumption.
Qed.

Lemma all_cells_from_frame P d n g :
  square n g -> all_cells P g -> all_cells P (from_frame d g).
Proof.
  intros Hsq H. destruct d; simpl.
  - exact H.
  - apply (all_cells_reverse_rows P n); assumption.
  - apply (all_cells_transpose P n); assumption.
  - apply (all_cells_transpose P n); [apply square_reverse_rows; exact Hsq |].
    apply (all_cells_reverse_rows P n); assumption.
Qed.

Lemma standard_cell_double x :
  standard_cell x -> x <> Num 0 -> standard_cell (double x).
Proof.
  intros [-> | (k & Hk & ->)] Hne; [contradiction |].
  right. exists (S k). split; [lia |]. simpl double. f_equal.
  rewrite Nat2Z.inj_succ, Z.pow_succ_r by lia. lia.
Qed.

Lemma standard_cell_not_M : ~ standard_cell M.
Proof. intros [H | (k & _ & H)]; discriminate. Qed.

Lemma merge_loop_standard k :
  forall l flags, (length l <= k)%nat ->
    Forall standard_cell l -> (Num 0 ∉ l) ->
    Forall standard_cell (fst (merge_loop l flags)).
Proof.
  induction k as [| k IH]; intros l flags Hk Hst H0.
  - destruct l; [constructor | simpl in Hk; lia].
  - destruct l as [| x [| y tl]]; try exact Hst.
    apply not_elem_of_cons in H0 as [Hx0 H0].
    pose proof H0 as H0'. apply not_elem_of_cons in H0' as [Hy0 H0'].
    pose proof Hst as Hst1. apply Forall_cons in Hst1 as [Hx Hst1].
    pose proof Hst1 as Hst2. apply Forall_cons in Hst2 as [Hy Hst2].
    rewrite merge_loop_pair.
    destruct (cell_eqb x y && negb (cell_eqb x M)).
    + cbv zeta. cbn [fst]. apply Forall_cons. split.
      * apply standard_cell_double; [exact Hx | congruence].
      * apply IH; [simpl in Hk; lia | exact Hst2 | exact H0'].
    + destruct (cell_eqb x M && cell_eqb y M) eqn:Hmm.
      * apply andb_true_iff in Hmm as [HxM _]. apply cell_eqb_true in HxM.
        subst x. exfalso. exact (standard_cell_not_M Hx).
      * cbn [fst]. apply Forall_cons. split; [exact Hx |].
        apply IH; [simpl in Hk |- *; lia | exact Hst1 | exact H0].
Qed.

Lemma slide_row_standard n row flags :
  Forall standard_cell row -> Forall standard_cell (fst (slide_row n row flags)).
Proof.
  intros Hst. unfold slide_row.
  assert (Hc : Forall standard_cell (compact row)).
  { apply Forall_forall. intros c Hin. unfold compact in Hin.
    apply list_elem_of_filter in Hin as [_ Hin].
    exact (proj1 (Forall_forall _ _) Hst c Hin). }
  pose proof (merge_loop_standard _ (compact row) flags (le_n _) Hc
                (compact_no_zero row)) as Hm.
  destruct (merge_loop (compact row) flags) as [merged out]. cbn [fst] in *.
  apply Forall_app. split; [exact Hm |].
  apply Forall_replicate. left. reflexivity.
Qed.

Lemma slid_standard s :
  all_cells standard_cell (grid s) -> all_cells standard_cell (slid s).
Proof.
  intros H. apply all_cells_Forall. apply all_cells_Forall in H.
  unfold slid. apply Forall_lookup. intros i row' Hrow'.
  destruct (slide_rows_lookup _ _ _ _ _ Hrow') as (row & flags' & Hrow & ->).
  apply slide_row_standard. exact (Forall_lookup_1 _ _ _ _ H Hrow).
Qed.

Lemma all_cells_insert P g i j row v :
  all_cells P g -> g !! i = Some row -> P v ->
  all_cells P (<[i := <[j := v]> row]> g).
Proof.
  intros H Hrow Hv. apply all_cells_Forall. apply all_cells_Forall in H.
  apply Forall_insert; [exact H |].
  apply Forall_insert; [exact (Forall_lookup_1 _ _ _ _ H Hrow) | exact Hv].
Qed.

Lemma standard_cell_2 : standard_cell (Num 2).
Proof. right. exists 1%nat. split; [lia | reflexivity]. Qed.

Lemma standard_cell_4 : standard_cell (Num 4).
Proof. right. exists 2%nat. split; [lia | reflexivity]. Qed.

Lemma tiles_nonneg g : 0 <= tiles g.
Proof.
  unfold tiles. induction g as [| row g IH]; simpl; [lia |].
  assert (0 <= sum_row tile_weight row).
  { clear. induction row as [| c row IH]; simpl; [lia |].
    unfold tile_weight at 1. destruct (is_zero c); lia. }
  lia.
Qed.

Lemma spawn_post_standard s b s' :
  spawn_post s b s' -> all_cells standard_cell (grid s) ->
  all_cells standard_cell (grid s').
Proof.
  destruct b; simpl.
  - intros (i & j & row & v & Hrow & Hc & Hv & ->) H. simpl.
    apply all_cells_insert; [exact H | exact Hrow |].
    destruct Hv as [-> | ->]; [apply standard_cell_2 | apply standard_cell_4].
  - intros (_ & over & _ & ->) H. destruct over; exact H.
Qed.

(** Two spawns and the score, from a well-formed grid of standard cells. *)
Lemma spawn_twice_played r1 r2 s :
  wf s -> all_cells standard_cell (grid s) ->
  (1 <= size s -> has_empty (grid s)) ->
  returns (add_new_tile r1 ;; add_new_tile r2 ;; update_score) s
    (fun _ s' => size s' = size s /\ played s').
Proof.
  intros Hwf Hst Hemp.
  destruct (add_new_tile_wf r1 s Hwf) as (b1 & s1 & Hrun1 & Hp1).
  destruct (spawn_post_facts _ _ _ Hwf Hp1) as (Hwf1 & (Hsz1 & _) & _ & Ht1 & Hb1).
  destruct (add_new_tile_wf r2 s1 Hwf1) as (b2 & s2 & Hrun2 & Hp2).
  destruct (spawn_post_facts _ _ _ Hwf1 Hp2) as (Hwf2 & (Hsz2 & _) & _ & Ht2 & Hb2).
  pose proof (spawn_post_standard _ _ _ Hp1 Hst) as Hst1.
  pose proof (spawn_post_standard _ _ _ Hp2 Hst1) as Hst2.
  eapply returns_run.
  { unfold bind. rewrite Hrun1, Hrun2. apply update_score_run. }
  set (s3 := if high_score s2 <? grid_points (grid s2)
             then set_high_score (grid_points (grid s2))
                    (set_score (grid_points (grid s2)) s2)
             else set_score (grid_points (grid s2)) s2).
  assert (H3 : grid s3 = grid s2 /\ size s3 = size s2).
  { subst s3. destruct (high_score s2 <? grid_points (grid s2)); split; reflexivity. }
  destruct H3 as [Hg3 Hsz3].
  split; [congruence |]. unfold played, wf. rewrite Hg3, Hsz3.
  split; [exact Hwf2 |]. split; [exact Hst2 |].
  intros Hn. rewrite Hsz2, Hsz1 in Hn.
  assert (b1 = true) as -> by (apply Hb1, Hemp, Hn).
  pose proof (tiles_nonneg (grid s)). destruct b2; lia.
Qed.

Lemma has_empty_empty_grid n : 1 <= n -> has_empty (empty_grid n).
Proof.
  intros Hn. apply (has_empty_count (Z.to_nat n)).
  - apply (square_empty_grid n).
  - pose proof (sum_cells_empty_grid tile_weight n eq_refl) as Ht.
    unfold tiles. rewrite Ht.
    rewrite (proj1 (square_empty_grid n)). nia.
Qed.

Lemma all_cells_empty_grid n : all_cells standard_cell (empty_grid n).
Proof.
  apply all_cells_Forall. unfold empty_grid.
  apply Forall_replicate, Forall_replicate. left. reflexivity.
Qed.

Lemma played_move d r s : played s -> played (snd (move d r s)).
Proof.
  intros (Hwf & Hst & Htiles).
  destruct (move_wf d r s Hwf) as (b & s' & Hrun & Hwf' & Hsz & Hno & Hyes).
  destruct (move_accepted d r s Hwf) as (b' & s'' & Hrun' & Hacc).
  rewrite Hrun in Hrun'. injection Hrun' as <- <-.
  rewrite Hrun. simpl. destruct b.
  - destruct (Hyes eq_refl) as (_ & _ & Ht & _).
    destruct (Hacc eq_refl) as (i & j & row & v & Hrow & Hc & Hv & Hg & _).
    split; [exact Hwf' |]. split.
    + rewrite Hg.
      assert (Hwf1 : wf (in_frame d s)) by (apply wf_in_frame; exact Hwf).
      assert (Hsl : all_cells standard_cell (slid (in_frame d s))).
      { apply slid_standard. unfold in_frame. simpl.
        apply (all_cells_to_frame _ d _ _ Hwf Hst). }
      destruct (slide_rows_spec (size s) (to_frame d (grid s)) (won s, false)
                  (proj2 Hwf1)) as (Hlen & Hrows & _).
      apply (all_cells_from_frame _ d (Z.to_nat (size s))).
      * apply square_insert; [| exact Hrow].
        split; [| exact Hrows].
        unfold slid, in_frame. simpl. rewrite Hlen. exact (proj1 Hwf1).
      * apply all_cells_insert; [exact Hsl | exact Hrow |].
        destruct Hv as [-> | ->]; [apply standard_cell_2 | apply standard_cell_4].
    + intros _. pose proof (tiles_nonneg (slid (in_frame d s))). lia.
  - rewrite (Hno eq_refl). split; [exact Hwf |]. split; assumption.
Qed.

Lemma played_init n r1 r2 : played (snd (init n r1 r2)).
Proof.
  unfold init.
  set (s0 := mkGame n (empty_grid n) 0 0 0 false false).
  destruct (spawn_twice_played r1 r2 s0) as (u & s' & Hrun & _ & Hp).
  - apply square_empty_grid.
  - apply all_cells_empty_grid.
  - apply has_empty_empty_grid.
  - rewrite Hrun. exact Hp.
Qed.

Lemma played_reset r1 r2 s : played (snd (reset r1 r2 s)).
Proof.
  set (s0 := mkGame (size s) (empty_grid (size s)) 0 (high_score s) 0 false false).
  destruct (spawn_twice_played r1 r2 s0) as (u & s' & Hrun & _ & Hp).
  - apply square_empty_grid.
  - apply all_cells_empty_grid.
  - apply has_empty_empty_grid.
  - assert (Hreset : reset r1 r2 s = (Return u, s')).
    { unfold reset, bind at 1 2 3 4 5 6, get, modify. simpl.
      change (set_won false _) with s0. exact Hrun. }
    rewrite Hreset. exact Hp.
Qed.

Lemma reachable_played s : reachable s -> played s.
Proof.
  induction 1 as [n r1 r2 | s d r _ IH | s r1 r2 _ IH].
  - apply played_init.
  - apply played_move. exact IH.
  - apply played_reset.
Qed.

(** X11: whatever the size, the draws and the sequence of moves and resets,
    every cell of an instance reached from construction is empty or holds a
    power of two from 2 on; in particular no marker ever appears by
    playing. *)
Theorem reachable_cells_are_powers_of_two (s : Game2048) :
  reachable s ->
  forall i j c, lookup_cell (grid s) i j = Some c ->
    c = Num 0 \/ exists k : nat, (0 < k)%nat /\ c = Num (2 ^ Z.of_nat k).
Proof.
  intros Hre i j c Hc.
  destruct (reachable_played s Hre) as (_ & Hst & _).
  exact (Hst i j c Hc).
Qed.

Lemma reachable_cells_are_powers_of_two_witness :
  lookup_cell (grid (snd (init 4 r0 r0))) 0 0 = Some (Num 2) /\
  (Num 2 = Num 0 \/ exists k : nat, (0 < k)%nat /\ Num 2 = Num (2 ^ Z.of_nat k)).
Proof.
  split; [reflexivity |].
  apply (reachable_cells_are_powers_of_two (snd (init 4 r0 r0))) with (i := 0%nat) (j := 0%nat).
  - apply reach_init.
  - reflexivity.
Defined.

Lemma pow2_mod_2048 (k : nat) : 2048 <= 2 ^ Z.of_nat k -> (2 ^ Z.of_nat k) mod 2048 = 0.
Proof.
  intros Hge.
  assert (Hk : 11 <= Z.of_nat k).
  { destruct (Z_lt_le_dec (Z.of_nat k) 11) as [Hlt | Hle]; [| exact Hle].
    assert (2 ^ Z.of_nat k <= 2 ^ 10) by (apply Z.pow_le_mono_r; lia).
    change (2 ^ 10) with 1024 in *. lia. }
  replace (Z.of_nat k) with ((Z.of_nat k - 11) + 11) by lia.
  rewrite Z.pow_add_r by lia. change (2 ^ 11) with 2048.
  apply Z.mod_mul. lia.
Qed.

(** X12: on every instance reached by playing, the divisibility test of
    [check_auto_save] is redundant: the answer is [True] exactly when the
    largest tile is at least 2048. *)
Theorem check_auto_save_when_played (s : Game2048) :
  reachable s ->
  check_auto_save s = (2048 <=? get_max_tile s).
Proof.
  intros Hre. destruct (reachable_played s Hre) as (_ & Hst & _).
  unfold check_auto_save. cbv zeta.
  destruct (2048 <=? get_max_tile s) eqn:Hge; [| reflexivity].
  apply Z.leb_le in Hge. simpl. apply Z.eqb_eq.
  destruct (get_max_tile_elem s) as [H0 | (row & Hrow & Hm)]; [lia |].
  destruct (elem_lookup_cell _ _ _ Hrow Hm) as (i & j & Hc).
  destruct (Hst i j _ Hc) as [H0 | (k & _ & Hk)].
  - injection H0 as H0. lia.
  - injection Hk as Hk. rewrite Hk in Hge |- *. apply pow2_mod_2048. exact Hge.
Qed.

Lemma check_auto_save_when_played_witness :
  check_auto_save (snd (init 4 r0 r0)) = (2048 <=? get_max_tile (snd (init 4 r0 r0))).
Proof.
  apply (check_auto_save_when_played (snd (init 4 r0 r0))). apply reach_init.
Defined.

Lemma played_no_marker s : played s -> no_marker (grid s).
Proof.
  intros (_ & Hst & _) i j Hc. exact (standard_cell_not_M (Hst i j M Hc)).
Qed.

Lemma terminal_nil : terminal [].
Proof.
  split; [| split].
  - intros i j H. destruct i; discriminate.
  - intros i j H. destruct i; discriminate.
  - intros p q c _ H. destruct (fst p); discriminate.
Qed.

(** X13: on every instance reached by playing, [is_game_over] returns
    normally and is exact: it answers [True] exactly when each of the four
    moves is refused (and then the move leaves the instance as it is), and
    [False] exactly when some direction is accepted whatever the draw. *)
Theorem is_game_over_exact_when_played (s : Game2048) :
  reachable s ->
  exists over,
    is_game_over s = Return over /\
    (over = true <-> forall d r, move d r s = (Return false, s)) /\
    (over = false <-> exists d, forall r, fst (move d r s) = Return true).
Proof.
  intros Hre. pose proof (reachable_played s Hre) as Hpl.
  pose proof (played_no_marker s Hpl) as HnoM.
  destruct Hpl as (Hwf & Hst & Htiles).
  destruct (is_game_over_wf s Hwf) as (over & Hover & Hchar).
  exists over. split; [exact Hover |].
  assert (Hfwd : over = true -> forall d r, move d r s = (Return false, s)).
  { intros Ht d r. apply move_terminal; [exact Hwf | apply Hchar, Ht]. }
  assert (Hbwd : (forall d, slide_moved (in_frame d s) = false) -> over = true).
  { intros Hall. apply Hchar.
    destruct (Z_lt_le_dec 0 (tiles (grid s))) as [Hpos | Hzero].
    - apply refused_everywhere_terminal; assumption.
    - assert (Hsz : size s < 1) by lia.
      destruct Hwf as [Hlen _].
      replace (Z.to_nat (size s)) with 0%nat in Hlen by lia.
      apply length_zero_iff_nil in Hlen. rewrite Hlen. apply terminal_nil. }
  split; [split; [exact Hfwd |] | split].
  - intros Hall. apply Hbwd. intros d.
    pose proof (move_result d r0 s Hwf) as Hres.
    rewrite (Hall d r0) in Hres. simpl in Hres. congruence.
  - intros Hf. destruct (slide_moved_cases s) as [[d Hd] | Hall].
    + exists d. intros r. rewrite (move_result d r s Hwf), Hd. reflexivity.
    + rewrite (Hbwd Hall) in Hf. discriminate.
  - intros [d Hd]. destruct over; [| reflexivity].
    specialize (Hd r0). rewrite (Hfwd eq_refl d r0) in Hd. discriminate.
Qed.

Lemma is_game_over_exact_when_played_witness :
  exists over,
    is_game_over (snd (init 4 r0 r0)) = Return over /\
    (over = true <->
     forall d r, move d r (snd (init 4 r0 r0)) = (Return false, snd (init 4 r0 r0))) /\
    (over = false <->
     exists d, forall r, fst (move d r (snd (init 4 r0 r0))) = Return true).
Proof.
  apply (is_game_over_exact_when_played (snd (init 4 r0 r0))). apply reach_init.
Defined.

(** ** clear_surrounding_tiles called on its own *)

Lemma lookup_cell_insert g i j row old v i' j' :
  g !! i = Some row -> row !! j = Some old ->
  lookup_cell (<[i := <[j := v]> row]> g) i' j' =
  if bool_decide (i' = i /\ j' = j) then Some v else lookup_cell g i' j'.
Proof.
  intros Hrow Hold. unfold lookup_cell.
  destruct (decide (i' = i)) as [-> | Hi].
  - rewrite list_lookup_insert_eq by (eapply lookup_lt_Some; exact Hrow).
    rewrite Hrow.
    destruct (decide (j' = j)) as [-> | Hj].
    + rewrite list_lookup_insert_eq by (eapply lookup_lt_Some; exact Hold).
      rewrite bool_decide_eq_true_2 by auto. reflexivity.
    + rewrite list_lookup_insert_ne by congruence.
      rewrite bool_decide_eq_false_2 by tauto. reflexivity.
  - rewrite list_lookup_insert_ne by congruence.
    rewrite bool_decide_eq_false_2 by tauto. reflexivity.
Qed.

Lemma clear_cell_in_range row col dr dc s rw c :
  0 <= Z.of_nat row + dr < size s -> 0 <= Z.of_nat col + dc < size s ->
  grid s !! Z.to_nat (Z.of_nat row + dr) = Some rw ->
  rw !! Z.to_nat (Z.of_nat col + dc) = Some c ->
  clear_cell row col dr dc s =
  (Return tt,
   set_grid (<[Z.to_nat (Z.of_nat row + dr) :=
               <[Z.to_nat (Z.of_nat col + dc) := Num 0]> rw]> (grid s))
     (match c with Num z => set_score (score s + z) s | M => s end)).
Proof.
  intros Hr Hc Hrow Hcell. unfold clear_cell, bind, get, lift, modify.
  assert (Hin : (0 <=? Z.of_nat row + dr) && (Z.of_nat row + dr <? size s)
                && (0 <=? Z.of_nat col + dc) && (Z.of_nat col + dc <? size s) = true).
  { rewrite !andb_true_iff, !Z.leb_le, !Z.ltb_lt. lia. }
  rewrite Hin, cell_at_lookup. unfold lookup_cell. rewrite Hrow, Hcell.
  destruct c as [z |]; simpl; unfold set_cell, getitem; rewrite Hrow; simpl;
    rewrite Hcell; reflexivity.
Qed.

Lemma clear_cell_out_of_range row col dr dc s :
  ~ (0 <= Z.of_nat row + dr < size s /\ 0 <= Z.of_nat col + dc < size s) ->
  clear_cell row col dr dc s = (Return tt, s).
Proof.
  intros Hout. unfold clear_cell, bind, get.
  destruct ((0 <=? Z.of_nat row + dr) && (Z.of_nat row + dr <? size s)
            && (0 <=? Z.of_nat col + dc) && (Z.of_nat col + dc <? size s)) eqn:Hin;
    [| reflexivity].
  exfalso. apply Hout.
  rewrite !andb_true_iff, !Z.leb_le, !Z.ltb_lt in Hin. lia.
Qed.

Lemma cleared_ext s0 (T T' : Z * Z -> Prop) s :
  (forall p, T p <-> T' p) -> cleared s0 T s -> cleared s0 T' s.
Proof.
  intros Heq (Hwf & Hfr & Hgo & Hsum & Hcells).
  split; [exact Hwf |]. split; [exact Hfr |]. split; [exact Hgo |].
  split; [exact Hsum |].
  intros i j c Hc. destruct (Hcells i j c Hc) as [Hin Hout]. split.
  - intros HT. apply Hin, Heq, HT.
  - intros HT. apply Hout. intros HT'. apply HT, Heq, HT'.
Qed.

Lemma clear_cell_cleared s0 T row col dr dc s :
  wf s0 -> cleared s0 T s ->
  returns (clear_cell row col dr dc) s
    (fun _ s' =>
       cleared s0 (fun p => p = (Z.of_nat row + dr, Z.of_nat col + dc) \/ T p) s').
Proof.
  intros Hwf0 (Hwf & Hfr & Hgo & Hsum & Hcells).
  pose proof Hfr as (Hsz & Hhs & Hmv & Hw).
  destruct (decide (0 <= Z.of_nat row + dr < size s /\
                    0 <= Z.of_nat col + dc < size s)) as [[Hr Hc] | Hout].
  - destruct (square_lookup _ _ (Z.to_nat (Z.of_nat row + dr))
                (Z.to_nat (Z.of_nat col + dc)) Hwf)
      as (rw & c & Hrow & Hcell & _); [lia | lia |].
    eapply returns_run; [apply (clear_cell_in_range _ _ _ _ _ rw c); assumption |].
    split; [| split; [| split; [| split]]].
    + unfold wf. simpl.
      replace (size (match c with Num z => set_score (score s + z) s | M => s end))
        with (size s) by (destruct c; reflexivity).
      apply square_insert; assumption.
    + destruct c; simpl; repeat split; assumption.
    + destruct c; simpl; exact Hgo.
    + rewrite <- Hsum. simpl.
      rewrite (sum_cells_insert _ _ _ _ _ Hrow), (sum_row_insert _ _ _ _ _ Hcell).
      destruct c; simpl; lia.
    + intros i j c0 Hc0. simpl.
      rewrite (lookup_cell_insert _ _ _ _ _ _ _ _ Hrow Hcell).
      destruct (Hcells i j c0 Hc0) as [Hin Hnot].
      destruct (bool_decide_reflect
                  (i = Z.to_nat (Z.of_nat row + dr) /\
                   j = Z.to_nat (Z.of_nat col + dc))) as [[Hi Hj] | Hne].
      * split; [reflexivity |]. intros Habs. exfalso. apply Habs. left.
        f_equal; lia.
      * split.
        -- intros [Heq | HT]; [| exact (Hin HT)].
           exfalso. apply Hne. injection Heq as Hi Hj. lia.
        -- intros HT. apply Hnot. intros HT'. apply HT. right. exact HT'.
  - eapply returns_run; [apply clear_cell_out_of_range; exact Hout |].
    split; [exact Hwf |]. split; [exact Hfr |]. split; [exact Hgo |].
    split; [exact Hsum |].
    intros i j c0 Hc0. destruct (Hcells i j c0 Hc0) as [Hin Hnot].
    destruct (lookup_cell_bounds _ _ _ _ _ Hwf0 Hc0) as [Hi Hj].
    split.
    + intros [Heq | HT]; [| exact (Hin HT)].
      exfalso. apply Hout. injection Heq as Hi' Hj'. rewrite Hsz. lia.
    + intros HT. apply Hnot. intros HT'. apply HT. right. exact HT'.
Qed.

(** A loop whose body clears the positions [F x]: after the loop, the
    positions of every [x] of the list are cleared. *)
Lemma returns_for_each_cleared {A} s0 (F : A -> Z * Z -> Prop) (xs : list A) body :
  (forall x T s, cleared s0 T s ->
     returns (body x) s (fun _ s' => cleared s0 (fun p => F x p \/ T p) s')) ->
  forall T s, cleared s0 T s ->
    returns (for_each xs body) s
      (fun _ s' => cleared s0 (fun p => (exists x, x ∈ xs /\ F x p) \/ T p) s').
Proof.
  intros Hbody. induction xs as [| x xs IH]; intros T s Hs; simpl.
  - apply returns_ret. revert Hs. apply cleared_ext.
    intros p. split; [auto |]. intros [(x & Hx & _) | HT]; [inversion Hx | exact HT].
  - apply returns_bind.
    eapply returns_weaken; [apply (Hbody x T s Hs) |].
    intros u s1 Hs1. simpl in Hs1 |- *.
    eapply returns_weaken; [apply (IH _ s1 Hs1) |].
    intros u' s2. apply cleared_ext. intros p. split.
    + intros [(y & Hy & HF) | [HF | HT]].
      * left. exists y. split; [right; exact Hy | exact HF].
      * left. exists x. split; [left | exact HF].
      * right. exact HT.
    + intros [(y & Hy & HF) | HT]; [| right; right; exact HT].
      apply elem_of_cons in Hy as [-> | Hy].
      * right. left. exact HF.
      * left. exists y. split; assumption.
Qed.

Lemma elem_of_three_offsets d : d ∈ three_offsets <-> -1 <= d <= 1.
Proof. unfold three_offsets. rewrite !elem_of_cons, elem_of_nil. lia. Qed.

(** X14: [clear_surrounding_tiles] called on a well-formed instance does
    what its docstring says: it returns normally; every cell that is a
    marker or one of the (up to eight) neighbours of a marker becomes empty,
    every other cell is left as it is, so no marker remains; the values of
    the numbers cleared are added to the score (score plus the sum of the
    numbers on the grid is preserved); size, high score, move counter and
    flags are untouched. *)
Theorem clear_surrounding_tiles_effect (s : Game2048) :
  wf s ->
  returns clear_surrounding_tiles s (fun _ s' =>
    wf s' /\ same_frame s s' /\ game_over s' = game_over s /\
    score s' + sum_cells cell_value (grid s') =
      score s + sum_cells cell_value (grid s) /\
    no_marker (grid s') /\
    forall i j c, lookup_cell (grid s) i j = Some c ->
      (near_marker (grid s) i j -> lookup_cell (grid s') i j = Some (Num 0)) /\
      (~ near_marker (grid s) i j -> lookup_cell (grid s') i j = Some c)).
Proof.
  intros Hwf. unfold clear_surrounding_tiles.
  apply returns_bind, returns_get.
  destruct (collect_in_range is_M s Hwf) as (l & Hl & Hchar).
  apply returns_bind. eapply returns_lift; [exact Hl |].
  set (F := fun (x : nat * nat) (p : Z * Z) =>
              exists dr, dr ∈ three_offsets /\
                exists dc, dc ∈ three_offsets /\
                  p = (Z.of_nat (fst x) + dr, Z.of_nat (snd x) + dc)).
  assert (Hstart : cleared s (fun _ => False) s).
  { split; [exact Hwf |]. split; [repeat split |]. split; [reflexivity |].
    split; [reflexivity |]. intros i j c Hc. split; [contradiction | auto]. }
  eapply returns_weaken.
  { apply (returns_for_each_cleared s F l); [| exact Hstart].
    intros [row col] T s1 Hs1.
    eapply returns_weaken.
    { apply (returns_for_each_cleared s
               (fun dr p => exists dc, dc ∈ three_offsets /\
                  p = (Z.of_nat row + dr, Z.of_nat col + dc)) three_offsets);
        [| exact Hs1].
      intros dr T1 s2 Hs2.
      eapply returns_weaken.
      { apply (returns_for_each_cleared s
                 (fun dc p => p = (Z.of_nat row + dr, Z.of_nat col + dc))
                 three_offsets); [| exact Hs2].
        intros dc T2 s3 Hs3. apply clear_cell_cleared; assumption. }
      intros u s3. apply cleared_ext. intros p. reflexivity. }
    intros u s2. apply cleared_ext. intros p. unfold F. simpl. reflexivity. }
  intros u s' (Hwf' & Hfr & Hgo & Hsum & Hcells). simpl.
  assert (Hnear : forall i j,
            near_marker (grid s) i j <->
            ((exists x, x ∈ l /\ F x (Z.of_nat i, Z.of_nat j)) \/ False)).
  { intros i j. split.
    - intros (r & c & Hm & H1 & H2 & H3 & H4). left. exists (r, c). split.
      + apply Hchar. exists M. split; [exact Hm | reflexivity].
      + exists (Z.of_nat i - Z.of_nat r).
        split; [apply elem_of_three_offsets; lia |].
        exists (Z.of_nat j - Z.of_nat c).
        split; [apply elem_of_three_offsets; lia |].
        simpl. f_equal; lia.
    - intros [([r c] & Hin & dr & Hdr & dc & Hdc & Heq) | []].
      apply Hchar in Hin as (c0 & Hc0 & HM).
      destruct c0; [discriminate |].
      apply elem_of_three_offsets in Hdr, Hdc.
      simpl in Heq. injection Heq as Hi Hj.
      exists r, c. split; [exact Hc0 |]. lia. }
  assert (Hspec : forall i j c, lookup_cell (grid s) i j = Some c ->
            (near_marker (grid s) i j -> lookup_cell (grid s') i j = Some (Num 0)) /\
            (~ near_marker (grid s) i j -> lookup_cell (grid s') i j = Some c)).
  { intros i j c Hc. destruct (Hcells i j c Hc) as [Hin Hnot]. split.
    - intros Hn. apply Hin, Hnear, Hn.
    - intros Hn. apply Hnot. intros HT. apply Hn, Hnear, HT. }
  split; [exact Hwf' |]. split; [exact Hfr |]. split; [exact Hgo |].
  split; [exact Hsum |]. split; [| exact Hspec].
  intros i j HM.
  destruct Hfr as (Hsz & _).
  destruct (lookup_cell_bounds _ _ _ _ _ Hwf' HM) as [Hi Hj].
  rewrite Hsz in Hi, Hj.
  destruct (square_lookup_cell _ _ i j Hwf Hi Hj) as [c Hc].
  destruct (Hspec i j c Hc) as [Hin Hnot].
  assert (Hn : ~ near_marker (grid s) i j).
  { intros Hn. rewrite (Hin Hn) in HM. discriminate. }
  rewrite (Hnot Hn) in HM. injection HM as ->.
  apply Hn. exists i, j. split; [exact Hc |]. lia.
Qed.

Lemma clear_surrounding_tiles_effect_witness :
  returns clear_surrounding_tiles scenario_C (fun _ s' =>
    wf s' /\ same_frame scenario_C s' /\ game_over s' = game_over scenario_C /\
    score s' + sum_cells cell_value (grid s') =
      score scenario_C + sum_cells cell_value (grid scenario_C) /\
    no_marker (grid s') /\
    forall i j c, lookup_cell (grid scenario_C) i j = Some c ->
      (near_marker (grid scenario_C) i j -> lookup_cell (grid s') i j = Some (Num 0)) /\
      (~ near_marker (grid scenario_C) i j -> lookup_cell (grid s') i j = Some c)).
Proof.
  apply (clear_surrounding_tiles_effect scenario_C). exact wf_scenario_C.
Defined.

(** ** join_room under any interleaving *)

Lemma pending_total_insert hs i h h' :
  hs !! i = Some h ->
  (pending_total (<[i := h']> hs) + pending h = pending_total hs + pending h')%nat.
Proof.
  revert i. induction hs as [| x hs IH]; intros i Hi; [destruct i; discriminate |].
  destruct i as [| i]; simpl in *.
  - injection Hi as ->. lia.
  - specialize (IH i Hi). lia.
Qed.

Lemma pending_total_fresh hs :
  Forall (fun h => at_pc h = AtTest) hs -> pending_total hs = length hs.
Proof.
  induction 1 as [| h hs Hh _ IH]; [reflexivity |].
  simpl. unfold pending at 1. rewrite Hh, IH. reflexivity.
Qed.

Lemma handler_step_facts h reg h' reg' :
  handler_step h reg = Some (h', reg') ->
  (served reg h -> served reg' h') /\
  (constructed reg' + pending h' <= constructed reg + pending h)%nat /\
  (forall key, is_Some (rooms reg !! key) -> is_Some (rooms reg' !! key)).
Proof.
  unfold handler_step, served, pending. destruct h as [key p]. simpl.
  destruct p as [| | | r]; simpl.
  - destruct (rooms reg !! key) as [v |] eqn:Hk; intros [= <- <-]; simpl.
    + split; [intros _; rewrite Hk; eauto |]. split; [lia | auto].
    + split; [auto |]. split; [lia | auto].
  - intros [= <- <-]. simpl. split; [| split].
    + intros _. rewrite lookup_insert_eq. eauto.
    + lia.
    + intros k Hk. destruct (decide (k = key)) as [-> | Hne].
      * rewrite lookup_insert_eq. eauto.
      * rewrite lookup_insert_ne by congruence. exact Hk.
  - intros [= <- <-]. simpl. split; [auto |]. split; [lia | auto].
  - discriminate.
Qed.

Lemma served_mono reg reg' h :
  (forall key, is_Some (rooms reg !! key) -> is_Some (rooms reg' !! key)) ->
  served reg h -> served reg' h.
Proof.
  intros Hmono. unfold served. destruct (at_pc h); auto.
Qed.

Lemma server_step_facts srv srv' :
  server_step srv srv' ->
  (Forall (served (registry_of srv)) (handlers srv) ->
   Forall (served (registry_of srv')) (handlers srv')) /\
  (constructed (registry_of srv') + pending_total (handlers srv') <=
   constructed (registry_of srv) + pending_total (handlers srv))%nat /\
  length (handlers srv') = length (handlers srv) /\
  (forall key, is_Some (rooms (registry_of srv) !! key) ->
               is_Some (rooms (registry_of srv') !! key)).
Proof.
  intros [i h h' reg' srv0 Hi Hstep]. simpl.
  destruct (handler_step_facts _ _ _ _ Hstep) as (Hserved & Hcount & Hmono).
  split; [| split; [| split]].
  - intros Hall. apply Forall_insert.
    + eapply Forall_impl; [exact Hall |].
      intros h0. apply served_mono. exact Hmono.
    + apply Hserved. exact (Forall_lookup_1 _ _ _ _ Hall Hi).
  - pose proof (pending_total_insert _ _ _ h' Hi). lia.
  - apply length_insert.
  - exact Hmono.
Qed.

Lemma server_run_facts srv srv' :
  rtc server_step srv srv' ->
  (Forall (served (registry_of srv)) (handlers srv) ->
   Forall (served (registry_of srv')) (handlers srv')) /\
  (constructed (registry_of srv') + pending_total (handlers srv') <=
   constructed (registry_of srv) + pending_total (handlers srv))%nat /\
  length (handlers srv') = length (handlers srv) /\
  (forall key, is_Some (rooms (registry_of srv) !! key) ->
               is_Some (rooms (registry_of srv') !! key)).
Proof.
  induction 1 as [srv | srv srv1 srv2 Hstep _ IH].
  - split; [auto |]. split; [lia |]. split; [reflexivity | auto].
  - destruct (server_step_facts _ _ Hstep) as (H1 & H2 & H3 & H4).
    destruct IH as (I1 & I2 & I3 & I4).
    split; [auto |]. split; [lia |]. split; [congruence | auto].
Qed.

(** X15: [rooms] only grows (no handler removes a room), so under every
    interleaving of any number of [join_room] handlers, started with any
    registry: a room that exists keeps existing, the read of
    [rooms[room_id]] after the test always finds the key, every handler that
    finishes has received an instance, and at most one instance per handler
    is constructed. *)
Theorem join_room_always_served (srv srv' : server) :
  Forall (fun h => at_pc h = AtTest) (handlers srv) ->
  rtc server_step srv srv' ->
  (forall h, h ∈ handlers srv' ->
     (at_pc h = AtUse -> is_Some (rooms (registry_of srv') !! room_id h)) /\
     (forall r, at_pc h = Finished r -> is_Some r)) /\
  (constructed (registry_of srv') <=
   constructed (registry_of srv) + length (handlers srv))%nat /\
  (forall key, is_Some (rooms (registry_of srv) !! key) ->
               is_Some (rooms (registry_of srv') !! key)).
Proof.
  intros Hfresh Hrun.
  destruct (server_run_facts _ _ Hrun) as (Hserved & Hcount & _ & Hmono).
  split; [| split; [| exact Hmono]].
  - assert (Hall : Forall (served (registry_of srv')) (handlers srv')).
    { apply Hserved. eapply Forall_impl; [exact Hfresh |].
      intros h Hh. unfold served. rewrite Hh. exact I. }
    intros h Hin. pose proof (proj1 (Forall_forall _ _) Hall h Hin) as Hs.
    unfold served in Hs. split.
    + intros Hpc. rewrite Hpc in Hs. exact Hs.
    + intros r Hpc. rewrite Hpc in Hs. exact Hs.
  - rewrite (pending_total_fresh _ Hfresh) in Hcount. lia.
Qed.

Lemma join_room_always_served_witness :
  (forall h,
     h ∈ [mkHandler "default" AtUse; mkHandler "default" AtTest] ->
     (at_pc h = AtUse ->
      is_Some (rooms (mkRegistry (<["default" := 0%nat]> ∅) 1) !! room_id h)) /\
     (forall r, at_pc h = Finished r -> is_Some r)) /\
  (1 <= constructed (registry_of two_joiners) + length (handlers two_joiners))%nat /\
  (forall key, is_Some (rooms (registry_of two_joiners) !! key) ->
               is_Some (rooms (mkRegistry (<["default" := 0%nat]> ∅) 1) !! key)).
Proof.
  apply (join_room_always_served two_joiners
           (mkServer (mkRegistry (<["default" := 0%nat]> ∅) 1)
              [mkHandler "default" AtUse; mkHandler "default" AtTest])).
  - repeat constructor.
  - eapply rtc_l.
    { apply (step_handler 0 (mkHandler "default" AtTest)
               (mkHandler "default" AtCreate) no_rooms two_joiners);
        reflexivity. }
    eapply rtc_l; [| apply rtc_refl].
    change (server_step
              (mkServer no_rooms
                 (<[0%nat := mkHandler "default" AtCreate]> (handlers two_joiners)))
              (mkServer (mkRegistry (<["default" := constructed no_rooms]> (rooms no_rooms))
                           (S (constructed no_rooms)))
                 (<[0%nat := mkHandler "default" AtUse]>
                    (handlers (mkServer no_rooms
                       (<[0%nat := mkHandler "default" AtCreate]>
                          (handlers two_joiners))))))).
    apply (step_handler 0 (mkHandler "default" AtCreate)
             (mkHandler "default" AtUse)
             (mkRegistry (<["default" := constructed no_rooms]> (rooms no_rooms))
                (S (constructed no_rooms)))
             (mkServer no_rooms
                (<[0%nat := mkHandler "default" AtCreate]> (handlers two_joiners))));
      reflexivity.
Defined.

(** ** The arrow keys of the desktop window *)

(** X16: in the desktop window an accepted arrow key places TWO new tiles
    when the slid grid has room for them: [move] spawns one and the handler
    calls [add_new_tile] again.  The score is recomputed afterwards and the
    move counter grows by one.  A key pressed while [game_over] is set
    leaves the instance as it is. *)
Theorem arrow_key_spawns_twice (d : direction) (r r' : rnd) (s : Game2048) :
  wf s ->
  (game_over s = true -> arrow_key d r r' s = (Return tt, s)) /\
  (game_over s = false ->
   fst (move d r s) = Return true ->
   tiles (slid (in_frame d s)) + 2 <=
     Z.of_nat (Z.to_nat (size s)) * Z.of_nat (Z.to_nat (size s)) ->
   returns (arrow_key d r r') s (fun _ s' =>
     wf s' /\ size s' = size s /\
     tiles (grid s') = tiles (slid (in_frame d s)) + 2 /\
     score s' = grid_points (grid s') /\
     moves s' = moves s + 1)).
Proof.
  intros Hwf. split.
  { intros Hgo. unfold arrow_key, bind, get. rewrite Hgo. reflexivity. }
  intros Hgo Hres Hroom.
  destruct (move_wf d r s Hwf) as (b & s1 & Hrun & Hwf1 & Hsz1 & _ & Hyes).
  rewrite Hrun in Hres. simpl in Hres. injection Hres as ->.
  destruct (Hyes eq_refl) as (_ & _ & Ht1 & Hmv1).
  destruct (add_new_tile_wf r' s1 Hwf1) as (b2 & s2 & Hrun2 & Hp2).
  destruct (spawn_post_facts _ _ _ Hwf1 Hp2)
    as (Hwf2 & (Hsz2 & _ & Hmv2 & _) & _ & Ht2 & Hb2).
  assert (b2 = true) as ->.
  { apply Hb2. destruct Hwf1 as [Hlen Hrows].
    apply (has_empty_count (Z.to_nat (size s1))); [exact Hrows |].
    rewrite Hlen, Hsz1. lia. }
  set (s3 := snd (update_score s2)).
  assert (H3 : update_score s2 = (Return tt, s3) /\ grid s3 = grid s2 /\
               size s3 = size s2 /\ score s3 = grid_points (grid s2) /\
               moves s3 = moves s2).
  { subst s3. rewrite update_score_run.
    destruct (high_score s2 <? grid_points (grid s2)); repeat split. }
  destruct H3 as (Hrun3 & Hg3 & Hsz3 & Hsc3 & Hmv3).
  assert (Hwf3 : wf s3) by (unfold wf; rewrite Hg3, Hsz3; exact Hwf2).
  destruct (is_game_over_wf s3 Hwf3) as (over & Hover & _).
  assert (Hrun4 : arrow_key d r r' s =
            (Return tt, if over then set_game_over true s3 else s3)).
  { unfold arrow_key, bind at 1 2, get. rewrite Hgo. cbn [negb].
    rewrite Hrun. unfold bind, get, lift.
    rewrite Hrun2, Hrun3, Hover. destruct over; reflexivity. }
  eapply returns_run; [exact Hrun4 |].
  assert (H4 : forall s4, s4 = (if over then set_game_over true s3 else s3) ->
             wf s4 /\ grid s4 = grid s3 /\ size s4 = size s3 /\
             score s4 = score s3 /\ moves s4 = moves s3).
  { intros s4 ->. destruct over; (split; [exact Hwf3 |]); repeat split. }
  destruct (H4 _ eq_refl) as (Hwf4 & Hg4 & Hsz4 & Hsc4 & Hmv4).
  split; [exact Hwf4 |]. split; [congruence |].
  split; [rewrite Hg4, Hg3; lia |].
  split; [congruence | lia].
Qed.

Lemma arrow_key_spawns_twice_witness :
  returns (arrow_key Left r0 r0) two_in_a_row
    (fun _ s' =>
       wf s' /\ size s' = size two_in_a_row /\
       tiles (grid s') = tiles (slid (in_frame Left two_in_a_row)) + 2 /\
       score s' = grid_points (grid s') /\
       moves s' = moves two_in_a_row + 1).
Proof.
  assert (Hwf : wf two_in_a_row) by (split; [reflexivity | repeat constructor]).
  apply (proj2 (arrow_key_spawns_twice Left r0 r0 two_in_a_row Hwf)).
  - reflexivity.
  - reflexivity.
  - vm_compute. discriminate.
Defined.

(** ** add_new_tile called on its own *)

(** X17: on a well-formed instance [add_new_tile] returns normally, and
    returns [True] exactly when the grid has an empty cell.  Then one empty
    cell receives a 2 or a 4 and nothing else changes (the score is not
    updated).  Otherwise the grid is left as it is and the [game_over] flag
    is set when the grid is terminal: a full grid that holds a marker or two
    equal neighbours does not set it. *)
Theorem add_new_tile_effect (r : rnd) (s : Game2048) :
  wf s ->
  returns (add_new_tile r) s (fun b s' =>
    (b = true <-> has_empty (grid s)) /\
    (b = true ->
       exists i j row v,
         grid s !! i = Some row /\ row !! j = Some (Num 0) /\
         (v = Num 2 \/ v = Num 4) /\
         s' = set_grid (<[i := <[j := v]> row]> (grid s)) s) /\
    (b = false ->
       (terminal (grid s) -> s' = set_game_over true s) /\
       (~ terminal (grid s) -> s' = s))).
Proof.
  intros Hwf.
  eapply returns_weaken; [apply add_new_tile_wf; exact Hwf |].
  intros b s' Hpost.
  destruct (spawn_post_facts _ _ _ Hwf Hpost) as (_ & _ & _ & _ & Hb).
  split; [exact Hb |]. split.
  - intros ->. exact Hpost.
  - intros ->. simpl in Hpost. destruct Hpost as (_ & over & Hover & ->).
    destruct (is_game_over_wf s Hwf) as (over' & Hover' & Hchar).
    rewrite Hover in Hover'. injection Hover' as <-.
    split.
    + intros Ht. apply Hchar in Ht as ->. reflexivity.
    + intros Hnt. destruct over; [| reflexivity].
      exfalso. apply Hnt, Hchar. reflexivity.
Qed.

Lemma add_new_tile_effect_witness :
  returns (add_new_tile r0) marker_grid (fun b s' =>
    (b = true <-> has_empty (grid marker_grid)) /\
    (b = true ->
       exists i j row v,
         grid marker_grid !! i = Some row /\ row !! j = Some (Num 0) /\
         (v = Num 2 \/ v = Num 4) /\
         s' = set_grid (<[i := <[j := v]> row]> (grid marker_grid)) marker_grid) /\
    (b = false ->
       (terminal (grid marker_grid) -> s' = set_game_over true marker_grid) /\
       (~ terminal (grid marker_grid) -> s' = marker_grid))).
Proof.
  apply (add_new_tile_effect r0 marker_grid).
  split; [reflexivity | repeat constructor].
Defined.

(** ** The game-over flag and the moves *)

Lemma slide_moved_set_game_over d b s :
  slide_moved (in_frame d (set_game_over b s)) = slide_moved (in_frame d s).
Proof. reflexivity. Qed.

(** X18: the moves do not look at the [game_over] flag and never clear it:
    on a well-formed instance a move is accepted or refused as it would be
    with the flag unset, and when the flag is set before the move it is set
    after it. *)
Theorem moves_ignore_game_over (d : direction) (r : rnd) (b : bool) (s : Game2048) :
  wf s ->
  fst (move d r (set_game_over b s)) = fst (move d r s) /\
  (game_over s = true -> game_over (snd (move d r s)) = true).
Proof.
  intros Hwf. split.
  - assert (Hwf' : wf (set_game_over b s)) by exact Hwf.
    rewrite (move_result d r _ Hwf'), (move_result d r _ Hwf).
    rewrite slide_moved_set_game_over. reflexivity.
  - intros Hgo.
    destruct (move_wf d r s Hwf) as (b1 & s1 & Hrun & _ & _ & Hno & _).
    destruct (move_accepted d r s Hwf) as (b2 & s2 & Hrun2 & Hacc).
    rewrite Hrun in Hrun2. injection Hrun2 as <- <-.
    rewrite Hrun. simpl. destruct b1.
    + destruct (Hacc eq_refl) as (i & j & row & v & _ & _ & _ & _ & _ & _ & _ & _ & _ & Hiff).
      apply Hiff. left. exact Hgo.
    + rewrite (Hno eq_refl). exact Hgo.
Qed.

Lemma moves_ignore_game_over_witness :
  fst (move Left r0 (set_game_over true two_in_a_row)) = fst (move Left r0 two_in_a_row) /\
  (game_over two_in_a_row = true ->
   game_over (snd (move Left r0 two_in_a_row)) = true).
Proof.
  apply (moves_ignore_game_over Left r0 true two_in_a_row).
  split; [reflexivity | repeat constructor].
Defined.

(** ** get_animated_moves *)

Lemma get_animated_moves_run name r s :
  get_animated_moves name r s =
  match direction_of name with
  | Some d =>
      match move d r s with
      | (Return _, s') =>
          (Return [mkFrame (grid s) (score s') (moves s');
                   mkFrame (grid s') (score s') (moves s')], s')
      | (Raise e, s') => (Raise e, s')
      end
  | None =>
      (Return [mkFrame (grid s) (score s) (moves s);
               mkFrame (grid s) (score s) (moves s)], s)
  end.
Proof.
  unfold get_animated_moves, direction_of.
  destruct (decide (name = "left")) as [_ | _].
  { change (move Left r s) with (move_left r s). unfold bind, ret, get.
    destruct (move_left r s) as [[b | e] s']; reflexivity. }
  destruct (decide (name = "right")) as [_ | _].
  { change (move Right r s) with (move_right r s). unfold bind, ret, get.
    destruct (move_right r s) as [[b | e] s']; reflexivity. }
  destruct (decide (name = "up")) as [_ | _].
  { change (move Up r s) with (move_up r s). unfold bind, ret, get.
    destruct (move_up r s) as [[b | e] s']; reflexivity. }
  destruct (decide (name = "down")) as [_ | _].
  { change (move Down r s) with (move_down r s). unfold bind, ret, get.
    destruct (move_down r s) as [[b | e] s']; reflexivity. }
  reflexivity.
Qed.

(** X19: on a well-formed instance [get_animated_moves] returns exactly two
    frames.  The first holds the grid as it was BEFORE the move, but the
    score and the move counter of AFTER the move; the second holds the grid
    after the move with the same score and counter.  The instance is left as
    the named move leaves it; a string that names no direction changes
    nothing, and the two frames are then equal. *)
Theorem get_animated_moves_frames (name : string) (r : rnd) (s : Game2048) :
  wf s ->
  returns (get_animated_moves name r) s (fun frames s' =>
    frames = [mkFrame (grid s) (score s') (moves s');
              mkFrame (grid s') (score s') (moves s')] /\
    match direction_of name with
    | Some d => s' = snd (move d r s)
    | None => s' = s
    end).
Proof.
  intros Hwf. unfold returns. rewrite get_animated_moves_run.
  destruct (direction_of name) as [d |].
  - destruct (move_wf d r s Hwf) as (b & s' & Hrun & _).
    rewrite Hrun. simpl. eexists _, s'. split; [reflexivity |].
    split; reflexivity.
  - eexists _, s. split; [reflexivity |]. split; reflexivity.
Qed.

Lemma get_animated_moves_frames_witness :
  returns (get_animated_moves "left" r0) two_in_a_row (fun frames s' =>
    frames = [mkFrame (grid two_in_a_row) (score s') (moves s');
              mkFrame (grid s') (score s') (moves s')] /\
    match direction_of "left" with
    | Some d => s' = snd (move d r0 two_in_a_row)
    | None => s' = two_in_a_row
    end).
Proof.
  apply (get_animated_moves_frames "left" r0 two_in_a_row).
  split; [reflexivity | repeat constructor].
Defined.
